(** * Rentz client script: form validation and autosave

    A shallow embedding of the form subsystem of [static/js/main.js]
    ([validateField], [showFieldError], [clearFieldError], the submit
    listeners of [initFormValidation] and [initAutoSave], [saveFormData],
    [loadFormData], [clearFormData]) and of the helpers around it
    ([handleFileSelect], [showLoading] and [hideLoading],
    [getNotificationContainer], [throttle], the search box of
    [initSearch] and the menu of [initNavigation]), together with the
    checked properties.

    Conventions of the embedding.
    - A JavaScript string is a [string]; each [ascii] is read as the code
      unit of the same number (U+0000 to U+00FF).  The pictographs at the
      head of the [console.log] messages are left out.
    - The DOM is a tree of element nodes with unique handles; operations
      thread the page state explicitly.
    - A JavaScript exception is the [Throw] outcome of the [result] type.
    - The line numbers in the comments are those of [main.js]. *)

From Stdlib Require Import ZArith Lia List Bool Ascii String.
From stdpp Require Import base option list strings pretty gmap.

Local Open Scope string_scope.
Set Warnings "-register-all".

(* ===================================================================== *)
(** ** Strings *)
(* ===================================================================== *)

Module Str.

(** Code unit of a character. *)
Definition code (c : ascii) : N := N_of_ascii c.

(** [WhiteSpace] and [LineTerminator] of the language, restricted to the
    code units of this embedding: TAB, LF, VT, FF, CR, SP and NBSP.  It is
    the set removed by [trim] and matched by the regexp class [\s]. *)
Definition is_space (c : ascii) : bool :=
  let n := code c in
  ((9 <=? n) && (n <=? 13) || (n =? 32) || (n =? 160))%N.

Definition is_digit (c : ascii) : bool :=
  let n := code c in ((48 <=? n) && (n <=? 57))%N.

Fixpoint trimStart (s : string) : string :=
  match s with
  | String c r => if is_space c then trimStart r else s
  | EmptyString => EmptyString
  end.

(** [trimEnd] drops the trailing run of white space. *)
Fixpoint trimEnd (s : string) : string :=
  match s with
  | EmptyString => EmptyString
  | String c r =>
      match trimEnd r with
      | EmptyString => if is_space c then EmptyString else String c EmptyString
      | r' => String c r'
      end
  end.

(** [String.prototype.trim]. *)
Definition trim (s : string) : string := trimEnd (trimStart s).

(** Truthiness of a string: non-empty. *)
Definition truthy (s : string) : bool :=
  match s with EmptyString => false | _ => true end.

Definition eqb (a b : string) : bool := bool_decide (a = b).

(** [s.replace(from, to)] with a one-character string pattern: only the
    FIRST occurrence is replaced. *)
Fixpoint replace_first (from to : ascii) (s : string) : string :=
  match s with
  | EmptyString => EmptyString
  | String c r =>
      if bool_decide (c = from) then String to r
      else String c (replace_first from to r)
  end.

(** Replacement of every occurrence (what [replaceAll] or a [/_/g]
    pattern would do); used to state the documented behaviour. *)
Fixpoint replace_all (from to : ascii) (s : string) : string :=
  match s with
  | EmptyString => EmptyString
  | String c r =>
      String (if bool_decide (c = from) then to else c) (replace_all from to r)
  end.

Definition all_chars (p : ascii -> bool) (s : string) : bool :=
  forallb p (list_ascii_of_string s).

(** A string without [<]: assigned to [innerHTML], it makes no element. *)
Definition is_text (s : string) : bool :=
  all_chars (fun c => negb (bool_decide (c = "<"%char))) s.

(** The helpers of the value sanitization of HTML: line breaks are LF and
    CR, ASCII white space is TAB, LF, FF, CR and SP. *)
Definition is_newline (c : ascii) : bool :=
  let n := code c in ((n =? 10) || (n =? 13))%N.

Definition is_ascii_space (c : ascii) : bool :=
  let n := code c in
  ((n =? 9) || (n =? 10) || (n =? 12) || (n =? 13) || (n =? 32))%N.

Fixpoint strip_newlines (s : string) : string :=
  match s with
  | EmptyString => EmptyString
  | String c r =>
      if is_newline c then strip_newlines r else String c (strip_newlines r)
  end.

Fixpoint strip_start (p : ascii -> bool) (s : string) : string :=
  match s with
  | String c r => if p c then strip_start p r else s
  | EmptyString => EmptyString
  end.

Fixpoint strip_end (p : ascii -> bool) (s : string) : string :=
  match s with
  | EmptyString => EmptyString
  | String c r =>
      match strip_end p r with
      | EmptyString => if p c then EmptyString else String c EmptyString
      | r' => String c r'
      end
  end.

Definition trim_ascii (s : string) : string :=
  strip_end is_ascii_space (strip_start is_ascii_space s).

(** CRLF and CR become LF: the value that a [textarea] gives back. *)
Fixpoint normalize_newlines (s : string) : string :=
  match s with
  | EmptyString => EmptyString
  | String c r =>
      if (code c =? 13)%N then
        match r with
        | String d r' =>
            if (code d =? 10)%N then String d (normalize_newlines r')
            else String (ascii_of_N 10) (normalize_newlines r)
        | EmptyString => String (ascii_of_N 10) EmptyString
        end
      else String c (normalize_newlines r)
  end.

End Str.

(* ===================================================================== *)
(** ** Regular expressions *)
(* ===================================================================== *)

(** The two patterns of the script are anchored at both ends and use
    character classes, concatenation, [+] and [{n}] only; they are
    matched by derivatives. *)
Module Regex.

Inductive regex : Type :=
| Empty                       (* matches nothing *)
| Eps                         (* matches the empty string *)
| Class (p : ascii -> bool)   (* one character of a class *)
| Seq (r1 r2 : regex)
| Alt (r1 r2 : regex)
| Star (r : regex).

Definition Plus (r : regex) : regex := Seq r (Star r).

Fixpoint Repeat (n : nat) (r : regex) : regex :=
  match n with
  | O => Eps
  | S k => Seq r (Repeat k r)
  end.

Fixpoint nullable (r : regex) : bool :=
  match r with
  | Empty => false
  | Eps => true
  | Class _ => false
  | Seq a b => nullable a && nullable b
  | Alt a b => nullable a || nullable b
  | Star _ => true
  end.

Fixpoint deriv (c : ascii) (r : regex) : regex :=
  match r with
  | Empty => Empty
  | Eps => Empty
  | Class p => if p c then Eps else Empty
  | Seq a b =>
      if nullable a then Alt (Seq (deriv c a) b) (deriv c b)
      else Seq (deriv c a) b
  | Alt a b => Alt (deriv c a) (deriv c b)
  | Star a => Seq (deriv c a) (Star a)
  end.

(** [/^r$/.test(s)]. *)
Fixpoint test (r : regex) (s : string) : bool :=
  match s with
  | EmptyString => nullable r
  | String c rest => test (deriv c r) rest
  end.

(** Declarative meaning of a pattern. *)
Inductive matches : regex -> string -> Prop :=
| m_eps : matches Eps ""
| m_class p c : p c = true -> matches (Class p) (String c "")
| m_seq a b s t : matches a s -> matches b t -> matches (Seq a b) (s ++ t)
| m_alt_l a b s : matches a s -> matches (Alt a b) s
| m_alt_r a b s : matches b s -> matches (Alt a b) s
| m_star_nil a : matches (Star a) ""
| m_star_cons a s t :
    matches a s -> matches (Star a) t -> matches (Star a) (s ++ t).

End Regex.

(** [[^\s@]]: any character that is neither white space nor [@]. *)
Definition not_space_at (c : ascii) : bool :=
  negb (Str.is_space c) && negb (bool_decide (c = "@"%char)).

Definition is_char (d : ascii) (c : ascii) : bool := bool_decide (c = d).

(** [[6-9]]. *)
Definition is_6_to_9 (c : ascii) : bool :=
  let n := Str.code c in ((54 <=? n) && (n <=? 57))%N.

(** [/^[^\s@]+@[^\s@]+\.[^\s@]+$/] *)
Definition emailRegex : Regex.regex :=
  Regex.Seq (Regex.Plus (Regex.Class not_space_at))
    (Regex.Seq (Regex.Class (is_char "@"))
       (Regex.Seq (Regex.Plus (Regex.Class not_space_at))
          (Regex.Seq (Regex.Class (is_char "."))
             (Regex.Plus (Regex.Class not_space_at))))).

(** [/^[6-9]\d{9}$/] *)
Definition phoneRegex : Regex.regex :=
  Regex.Seq (Regex.Class is_6_to_9) (Regex.Repeat 9 (Regex.Class Str.is_digit)).

(* ===================================================================== *)
(** ** Numbers: [parseFloat] *)
(* ===================================================================== *)

(** [parseFloat] reads the longest prefix of its argument that is a
    [StrDecimalLiteral] and returns its Number value.  The script only
    asks whether the result is [NaN] and whether it is [<= 0], so a Number
    is kept as its sign and class; the class is computed exactly from the
    decimal literal (round to nearest, ties to even, as engines do). *)
Module Num.

(** A parsed literal: [Infinity], or [mant * 10 ^ exp10], with its sign. *)
Inductive literal : Type :=
| LInfinity (neg : bool)
| LDecimal (neg : bool) (mant : N) (exp10 : Z).

(** Class of a Number value. *)
Inductive number : Type :=
| NaN
| Zero (neg : bool)
| Finite (neg : bool)      (* finite and not zero *)
| Infinity (neg : bool).

Definition digit_val (c : ascii) : N := (Str.code c - 48)%N.

(** Reads a run of decimal digits: the value read so far, the number of
    digits read, and the rest of the input. *)
Fixpoint digits (acc : N) (cnt : nat) (s : string) : N * nat * string :=
  match s with
  | String c r =>
      if Str.is_digit c then digits (acc * 10 + digit_val c)%N (S cnt) r
      else (acc, cnt, s)
  | EmptyString => (acc, cnt, s)
  end.

(** Optional sign. *)
Definition sign (s : string) : bool * string :=
  match s with
  | String "-" r => (true, r)
  | String "+" r => (false, r)
  | _ => (false, s)
  end.

(** [ExponentPart], when present and well formed; otherwise exponent 0. *)
Definition exponent (s : string) : Z :=
  match s with
  | String c r =>
      if bool_decide (c = "e"%char) || bool_decide (c = "E"%char) then
        let '(neg, r1) := sign r in
        let '(v, n, _) := digits 0 0 r1 in
        match n with
        | O => 0%Z
        | _ => if neg then (- Z.of_N v)%Z else Z.of_N v
        end
      else 0%Z
  | EmptyString => 0%Z
  end.

Definition starts_with (p s : string) : bool :=
  bool_decide (String.prefix p s = true).

(** The longest prefix of [s] that is a [StrDecimalLiteral]. *)
Definition parse_prefix (s : string) : option literal :=
  let '(neg, r) := sign s in
  if starts_with "Infinity" r then Some (LInfinity neg)
  else
    let '(ip, n1, r1) := digits 0 0 r in
    match r1 with
    | String "." r2 =>
        let '(m, n2, r3) := digits ip 0 r2 in
        match n1, n2 with
        | O, O => None
        | _, _ => Some (LDecimal neg m (exponent r3 - Z.of_nat n2))
        end
    | _ =>
        match n1 with
        | O => None
        | _ => Some (LDecimal neg ip (exponent r1))
        end
    end.

(** Half of the least positive double, [2^-1075], is the largest value
    that rounds to zero; [2^1024 - 2^970] is the least that rounds to
    infinity. *)
Definition rounds_to_zero (m : N) (e : Z) : bool :=
  if (0 <=? e)%Z then (m =? 0)%N
  else (Z.of_N m * 2 ^ 1075 <=? 10 ^ (- e))%Z.

Definition rounds_to_infinity (m : N) (e : Z) : bool :=
  if (0 <=? e)%Z then (2 ^ 1024 - 2 ^ 970 <=? Z.of_N m * 10 ^ e)%Z
  else ((2 ^ 1024 - 2 ^ 970) * 10 ^ (- e) <=? Z.of_N m)%Z.

Definition value (l : literal) : number :=
  match l with
  | LInfinity neg => Infinity neg
  | LDecimal neg m e =>
      if (m =? 0)%N then Zero neg
      else if rounds_to_zero m e then Zero neg
      else if rounds_to_infinity m e then Infinity neg
      else Finite neg
  end.

Definition parseFloat (s : string) : number :=
  match parse_prefix (Str.trimStart s) with
  | Some l => value l
  | None => NaN
  end.

Definition isNaN (x : number) : bool :=
  match x with NaN => true | _ => false end.

(** [x <= 0]; every comparison with [NaN] is false. *)
Definition le_zero (x : number) : bool :=
  match x with
  | NaN => false
  | Zero _ => true
  | Finite neg => neg
  | Infinity neg => neg
  end.

(** [x > 0]. *)
Definition gt_zero (x : number) : bool :=
  match x with
  | Finite false | Infinity false => true
  | _ => false
  end.

Definition is_finite (x : number) : bool :=
  match x with
  | Zero _ | Finite _ => true
  | _ => false
  end.

(** [!x]-style truthiness of a Number. *)
Definition truthy (x : number) : bool :=
  match x with
  | NaN | Zero _ => false
  | _ => true
  end.

End Num.

(* ===================================================================== *)
(** ** Outcomes and the page monad *)
(* ===================================================================== *)

(** The exceptions the modelled code can meet. *)
Inductive error : Type :=
| TypeError           (* property access on [null] *)
| SyntaxError         (* [JSON.parse], invalid selector *)
| InvalidStateError   (* a non-empty string assigned to a file input *)
| OtherError.         (* raised by a conversion the embedding leaves open *)

Inductive result (A : Type) : Type :=
| Ok (a : A)
| Throw (e : error).
Arguments Ok {A} a.
Arguments Throw {A} e.

(* ===================================================================== *)
(** ** The DOM *)
(* ===================================================================== *)

Module Dom.

(** The properties of an element that the script reads or writes.
    [name], [id], [type] and [value] are the IDL properties ([name] is the
    empty string when the attribute is absent), [required] is
    [hasAttribute('required')], [autosave] is [dataset.autosave].
    [disabled], [checked], [files] and [options] are what the [FormData]
    constructor and the [value] setter of the browser consult. *)
Record element : Type := mkElement {
  localName : string;
  name : string;
  id : string;
  type : string;
  value : string;
  required : bool;
  classList : list string;
  innerHTML : string;
  autosave : option string;
  disabled : bool;
  checked : bool;
  files : list string;
  options : list string
}.

(** An element node: its handle (the identity of the object), its
    properties and its children in document order. *)
Inductive node : Type :=
| Node (h : nat) (e : element) (kids : list node).

Definition handle (n : node) : nat := match n with Node h _ _ => h end.
Definition elem (n : node) : element := match n with Node _ e _ => e end.
Definition children (n : node) : list node :=
  match n with Node _ _ ks => ks end.

(** Strict descendants of a node, in document (pre-)order. *)
Fixpoint descendants (n : node) : list node :=
  match n with
  | Node _ _ ks => flat_map (fun k => k :: descendants k) ks
  end.

Definition subtree (n : node) : list node := n :: descendants n.

(** All the elements of a forest, in document order. *)
Definition preorder (f : list node) : list node := flat_map subtree f.

(** The node of a handle. *)
Definition lookup (h : nat) (f : list node) : option node :=
  List.find (fun n => Nat.eqb (handle n) h) (preorder f).

(** The node whose child has handle [h]: [parentElement]. *)
Definition parent (h : nat) (f : list node) : option node :=
  List.find (fun n => existsb (fun k => Nat.eqb (handle k) h) (children n))
    (preorder f).

(** Rewrites the properties of the element with handle [h]. *)
Fixpoint update (h : nat) (g : element -> element) (n : node) : node :=
  match n with
  | Node h' e ks =>
      Node h' (if Nat.eqb h' h then g e else e) (List.map (update h g) ks)
  end.

(** [remove()]: detaches the node with handle [h], with its subtree. *)
Fixpoint prune (h : nat) (n : node) : node :=
  match n with
  | Node h' e ks =>
      Node h' e
        (List.filter (fun k => negb (Nat.eqb (handle k) h))
           (List.map (prune h) ks))
  end.

Definition prune_forest (h : nat) (f : list node) : list node :=
  List.filter (fun k => negb (Nat.eqb (handle k) h)) (List.map (prune h) f).

(** [appendChild]: [c] becomes the last child of the node with handle [h]. *)
Fixpoint append (h : nat) (c : node) (n : node) : node :=
  match n with
  | Node h' e ks =>
      Node h' e
        (List.map (append h c) ks ++ (if Nat.eqb h' h then [c] else []))
  end.

Definition has_class (c : string) (n : node) : bool :=
  bool_decide (c ∈ classList (elem n)).

Definition has_name (k : string) (n : node) : bool :=
  bool_decide (name (elem n) = k).

(** [classList.add] and [classList.remove]. *)
Definition add_class (c : string) (e : element) : element :=
  let cl := classList e in
  mkElement (localName e) (name e) (id e) (type e) (value e) (required e)
    (if bool_decide (c ∈ cl) then cl else cl ++ [c])
    (innerHTML e) (autosave e) (disabled e) (checked e) (files e) (options e).

Definition remove_class (c : string) (e : element) : element :=
  mkElement (localName e) (name e) (id e) (type e) (value e) (required e)
    (List.filter (fun x => negb (bool_decide (x = c))) (classList e))
    (innerHTML e) (autosave e) (disabled e) (checked e) (files e) (options e).

Definition with_value (v : string) (e : element) : element :=
  mkElement (localName e) (name e) (id e) (type e) v (required e)
    (classList e) (innerHTML e) (autosave e) (disabled e) (checked e)
    (files e) (options e).

(** A freshly created element: [document.createElement(tag)] followed by
    the assignments to [className] and [innerHTML]. *)
Definition created (tag : string) (cls : list string) (html : string)
  : element :=
  mkElement tag "" "" "" "" false cls html None false false [] [].

(** Handles are unique and below the allocation counter. *)
Definition handles (f : list node) : list nat := List.map handle (preorder f).

Definition wf (f : list node) (fresh : nat) : Prop :=
  NoDup (handles f) /\ Forall (fun h => h < fresh) (handles f).

End Dom.

(* ===================================================================== *)
(** ** The page *)
(* ===================================================================== *)

(** What a registered listener does; [this] is the element it was
    registered on. *)
Inductive listener : Type :=
| OnBlurValidate                         (* validateField(this) *)
| OnInputClear                           (* clearFieldError(this) *)
| OnSubmitValidate (inputs : list nat)   (* whole-form validation *)
| OnInputAutosave (formId : string)      (* debounced saveFormData *)
| OnSubmitAutosave (formId : string).    (* clearFormData(formId) *)

Inductive event_type : Type := Blur | Input | Submit.

Global Instance event_type_eq_dec : EqDecision event_type.
Proof. solve_decision. Defined.

(** The state of a page: the document, the handle allocator, the
    [localStorage] of the origin, the console, the notifications raised,
    the forms with a pending debounce timer (handle and [formId]) and the
    listeners in registration order. *)
Record page : Type := mkPage {
  document : list Dom.node;
  fresh : nat;
  localStorage : gmap string string;
  console : list string;
  notifications : list (string * string);
  timers : list (nat * string);
  listeners : list (nat * event_type * listener)
}.

Definition set_document (d : list Dom.node) (st : page) : page :=
  mkPage d (fresh st) (localStorage st) (console st) (notifications st)
    (timers st) (listeners st).

Definition set_fresh (n : nat) (st : page) : page :=
  mkPage (document st) n (localStorage st) (console st) (notifications st)
    (timers st) (listeners st).

Definition set_localStorage (m : gmap string string) (st : page) : page :=
  mkPage (document st) (fresh st) m (console st) (notifications st)
    (timers st) (listeners st).

Definition set_console (c : list string) (st : page) : page :=
  mkPage (document st) (fresh st) (localStorage st) c (notifications st)
    (timers st) (listeners st).

Definition set_notifications (l : list (string * string)) (st : page)
  : page :=
  mkPage (document st) (fresh st) (localStorage st) (console st) l
    (timers st) (listeners st).

Definition set_timers (t : list (nat * string)) (st : page) : page :=
  mkPage (document st) (fresh st) (localStorage st) (console st)
    (notifications st) t (listeners st).

Definition set_listeners (l : list (nat * event_type * listener))
  (st : page) : page :=
  mkPage (document st) (fresh st) (localStorage st) (console st)
    (notifications st) (timers st) l.

(** A computation on the page that returns or throws; the changes made
    before a throw stay. *)
Definition M (A : Type) : Type := page -> page * result A.

Definition ret {A} (a : A) : M A := fun st => (st, Ok a).

Definition throw {A} (e : error) : M A := fun st => (st, Throw e).

Definition bind {A B} (c : M A) (k : A -> M B) : M B :=
  fun st =>
    match c st with
    | (st', Ok a) => k a st'
    | (st', Throw e) => (st', Throw e)
    end.

(** [try { c } catch (e) { h e }]. *)
Definition try_catch {A} (c : M A) (h : error -> M A) : M A :=
  fun st =>
    match c st with
    | (st', Ok a) => (st', Ok a)
    | (st', Throw e) => h e st'
    end.

Definition get : M page := fun st => (st, Ok st).

Definition modify (f : page -> page) : M unit := fun st => (f st, Ok tt).

Notation "x <- c ;; k" := (bind c (fun x => k))
  (at level 90, c at next level, right associativity).
Notation "c ;;; k" := (bind c (fun _ => k))
  (at level 90, right associativity).

Definition modify_document (f : list Dom.node -> list Dom.node) : M unit :=
  modify (fun st => set_document (f (document st)) st).

(** [for (x of l) body(x)] and [l.forEach(body)]. *)
Fixpoint forEach {A} (l : list A) (body : A -> M unit) : M unit :=
  match l with
  | [] => ret tt
  | x :: r => body x ;;; forEach r body
  end.

(** [console.log] and [console.error]. *)
Definition console_log (msg : string) : M unit :=
  modify (fun st => set_console (console st ++ [msg]) st).

(** The element of a handle; a handle outside the document stands for a
    detached element, whose [parentElement] is [null]. *)
Definition element_of (h : nat) : M Dom.element :=
  fun st =>
    match Dom.lookup h (document st) with
    | Some n => (st, Ok (Dom.elem n))
    | None => (st, Throw TypeError)
    end.

(** [field.parentElement], about to be dereferenced. *)
Definition parentElement (h : nat) : M Dom.node :=
  fun st =>
    match Dom.parent h (document st) with
    | Some p => (st, Ok p)
    | None => (st, Throw TypeError)
    end.

(** [document.createElement]: a new handle. *)
Definition createElement : M nat :=
  fun st => (set_fresh (S (fresh st)) st, Ok (fresh st)).

(* ===================================================================== *)
(** ** Field validator *)
(* ===================================================================== *)

(** The double quote character, for the markup of the annotation. *)
Definition dquote : string := String "034"%char EmptyString.

(** [document.querySelector('[name="password1"]')]: the first element of
    the whole document that carries this name. *)
Definition document_querySelector_name (k : string) (doc : list Dom.node)
  : option Dom.node :=
  List.find (Dom.has_name k) (Dom.preorder doc).

(** The first part of [validateField] (lines 266 to 319): [isValid] and
    [errorMessage] after the six blocks have run in sequence.  Each block
    that fails assigns both variables; no block returns. *)
Definition checkField (doc : list Dom.node) (field : Dom.element)
  : bool * string :=
  let value := Str.trim (Dom.value field) in
  let fieldName :=
    if Str.truthy (Dom.name field) then Dom.name field else Dom.id field in
  let v := (true, "") in
  (* Required field validation *)
  let v :=
    if Dom.required field && negb (Str.truthy value)
    then (false, Str.replace_first "_" " " fieldName ++ " is required")
    else v in
  (* Email validation *)
  let v :=
    if Str.eqb (Dom.type field) "email" && Str.truthy value then
      if negb (Regex.test emailRegex value)
      then (false, "Please enter a valid email address")
      else v
    else v in
  (* Phone validation (Indian format) *)
  let v :=
    if Str.eqb (Dom.name field) "phone_number" && Str.truthy value then
      if negb (Regex.test phoneRegex value)
      then (false, "Please enter a valid 10-digit mobile number")
      else v
    else v in
  (* Password validation *)
  let v :=
    if Str.eqb (Dom.name field) "password1" && Str.truthy value then
      if Nat.ltb (String.length value) 8
      then (false, "Password must be at least 8 characters long")
      else v
    else v in
  (* Password confirmation *)
  let v :=
    if Str.eqb (Dom.name field) "password2" && Str.truthy value then
      match document_querySelector_name "password1" doc with
      | Some password1 =>
          if negb (Str.eqb value (Dom.value (Dom.elem password1)))
          then (false, "Passwords do not match")
          else v
      | None => v
      end
    else v in
  (* Price validation *)
  let v :=
    if Str.eqb (Dom.name field) "price_per_day" && Str.truthy value then
      let price := Num.parseFloat value in
      if Num.isNaN price || Num.le_zero price
      then (false, "Please enter a valid price")
      else v
    else v in
  v.

(** [clearFieldError(field)] (lines 341 to 347). *)
Definition clearFieldError (field : nat) : M unit :=
  modify_document (List.map (Dom.update field (Dom.remove_class "error"))) ;;;
  p <- parentElement field ;;
  match List.find (Dom.has_class "field-error") (Dom.descendants p) with
  | Some errorDiv => modify_document (Dom.prune_forest (Dom.handle errorDiv))
  | None => ret tt
  end.

(** The markup assigned to [errorDiv.innerHTML]. *)
Definition error_html (message : string) : string :=
  "<i class=" ++ dquote ++ "fas fa-exclamation-circle" ++ dquote ++ "></i> "
  ++ message.

(** The node built for an annotation: the [div] of class [field-error]
    with the icon element that the markup creates; the message is its
    text, which it is when it has no [<]. *)
Definition error_node (h icon : nat) (message : string) : Dom.node :=
  Dom.Node h (Dom.created "div" ["field-error"] (error_html message))
    [Dom.Node icon (Dom.created "i" ["fas"; "fa-exclamation-circle"] "") []].

(** [showFieldError(field, message)] (lines 330 to 339). *)
Definition showFieldError (field : nat) (message : string) : M unit :=
  clearFieldError field ;;;
  errorDiv <- createElement ;;
  icon <- createElement ;;
  modify_document (List.map (Dom.update field (Dom.add_class "error"))) ;;;
  p <- parentElement field ;;
  modify_document
    (List.map (Dom.append (Dom.handle p) (error_node errorDiv icon message))).

(** [validateField(field)] (lines 265 to 328): the checks, then the
    annotation (lines 321 to 327). *)
Definition validateField (field : nat) : M bool :=
  e <- element_of field ;;
  doc <- get ;;
  let '(isValid, errorMessage) := checkField (document doc) e in
  (if negb isValid then showFieldError field errorMessage
   else clearFieldError field) ;;;
  ret isValid.

(* ===================================================================== *)
(** ** JavaScript objects and JSON *)
(* ===================================================================== *)

Module Json.

(** A value that [JSON.parse] can return.  The properties of an object
    are kept in property order. *)
Inductive json : Type :=
| JNull
| JBool (b : bool)
| JNumber (l : Num.literal)
| JString (s : string)
| JArray (l : list json)
| JObject (l : list (string * json)).

(** *** Property order *)

(** Decimal value of a canonical array index: a digit string without
    leading zero, below [2^32 - 1]. *)
Definition array_index (k : string) : option N :=
  match k with
  | EmptyString => None
  | String c r =>
      if Str.all_chars Str.is_digit k
         && (negb (bool_decide (c = "0"%char)) || bool_decide (r = ""))
      then
        let '(v, _, _) := Num.digits 0 0 k in
        if (v <? 4294967295)%N then Some v else None
      else None
  end.

(** Position of a new key: index keys come first, in ascending order;
    the other keys follow in the order of their creation. *)
Fixpoint insert_key {V} (k : string) (v : V) (o : list (string * V))
  : list (string * V) :=
  match o with
  | [] => [(k, v)]
  | (k', v') :: r =>
      match array_index k, array_index k' with
      | Some i, Some j =>
          if (i <? j)%N then (k, v) :: o else (k', v') :: insert_key k v r
      | Some _, None => (k, v) :: o
      | None, _ => (k', v') :: insert_key k v r
      end
  end.

Fixpoint replace_key {V} (k : string) (v : V) (o : list (string * V))
  : list (string * V) :=
  match o with
  | [] => []
  | (k', v') :: r =>
      if Str.eqb k' k then (k', v) :: r else (k', v') :: replace_key k v r
  end.

Definition get {V} (k : string) (o : list (string * V)) : option V :=
  option_map snd (List.find (fun kv => Str.eqb (fst kv) k) o).

(** [CreateDataProperty]: what [JSON.parse] does for each member. *)
Definition define {V} (k : string) (v : V) (o : list (string * V))
  : list (string * V) :=
  match get k o with
  | Some _ => replace_key k v o
  | None => insert_key k v o
  end.

(** [data[key] = value] on an object created by [{}], for a value that is
    a string or a [File]: the key [__proto__] reaches the accessor of
    [Object.prototype] and creates no property. *)
Definition set {V} (k : string) (v : V) (o : list (string * V))
  : list (string * V) :=
  if Str.eqb k "__proto__" then o else define k v o.

(** *** [JSON.stringify] *)

Definition hex_digit (n : N) : ascii :=
  ascii_of_N (if (n <? 10)%N then 48 + n else 87 + n).

(** [QuoteJSONString], one code unit. *)
Definition escape_char (c : ascii) : string :=
  let n := Str.code c in
  if (n =? 8)%N then "\b"
  else if (n =? 9)%N then "\t"
  else if (n =? 10)%N then "\n"
  else if (n =? 12)%N then "\f"
  else if (n =? 13)%N then "\r"
  else if (n =? 34)%N then String "\" dquote
  else if (n =? 92)%N then "\\"
  else if (n <? 32)%N then
    "\u00" ++ String (hex_digit (n / 16)) (String (hex_digit (n mod 16)) "")
  else String c "".

Fixpoint escape (s : string) : string :=
  match s with
  | EmptyString => EmptyString
  | String c r => escape_char c ++ escape r
  end.

Definition quote (s : string) : string := dquote ++ escape s ++ dquote.

(** *** [JSON.parse]

    The text is cut into tokens and the tokens drive a stack machine.  A
    malformed text is a [SyntaxError].  An escape [\uXXXX] above U+00FF
    denotes a string that this embedding cannot hold; it is reported as
    [OtherError], which is no verdict on the text: [JSON.parse] accepts
    such an escape.  What is stated of a text that does not parse is
    stated of [SyntaxError]. *)

Inductive token : Type :=
| LBrace | RBrace | LBrack | RBrack | Colon | Comma
| TString (s : string)
| TNumber (l : Num.literal)
| TTrue | TFalse | TNull.

Definition hex_val (c : ascii) : option N :=
  let n := Str.code c in
  if ((48 <=? n) && (n <=? 57))%N then Some (n - 48)%N
  else if ((97 <=? n) && (n <=? 102))%N then Some (n - 87)%N
  else if ((65 <=? n) && (n <=? 70))%N then Some (n - 55)%N
  else None.

Definition hex4 (a b c d : ascii) : option N :=
  match hex_val a, hex_val b, hex_val c, hex_val d with
  | Some x, Some y, Some z, Some w =>
      Some (((x * 16 + y) * 16 + z) * 16 + w)%N
  | _, _, _, _ => None
  end.

(** The character of a one-letter escape. *)
Definition unescape (c : ascii) : option ascii :=
  let n := Str.code c in
  if (n =? 34)%N || (n =? 92)%N || (n =? 47)%N then Some c
  else if (n =? 98)%N then Some (ascii_of_N 8)
  else if (n =? 102)%N then Some (ascii_of_N 12)
  else if (n =? 110)%N then Some (ascii_of_N 10)
  else if (n =? 114)%N then Some (ascii_of_N 13)
  else if (n =? 116)%N then Some (ascii_of_N 9)
  else None.

Definition cons_char (c : ascii) (r : result (string * nat)) (n : nat)
  : result (string * nat) :=
  match r with
  | Ok (s, k) => Ok (String c s, n + k)
  | Throw e => Throw e
  end.

(** Reads a string after its opening quote: the string denoted and the
    number of characters read, closing quote included. *)
Fixpoint read_string (s : string) : result (string * nat) :=
  match s with
  | EmptyString => Throw SyntaxError
  | String c r =>
      if (Str.code c =? 34)%N then Ok (EmptyString, 1)
      else if (Str.code c =? 92)%N then
        match r with
        | String "u" (String h1 (String h2 (String h3 (String h4 r')))) =>
            match hex4 h1 h2 h3 h4 with
            | Some n =>
                if (n <? 256)%N
                then cons_char (ascii_of_N n) (read_string r') 6
                else Throw OtherError
            | None => Throw SyntaxError
            end
        | String e r' =>
            match unescape e with
            | Some x => cons_char x (read_string r') 2
            | None => Throw SyntaxError
            end
        | EmptyString => Throw SyntaxError
        end
      else if (Str.code c <? 32)%N then Throw SyntaxError
      else cons_char c (read_string r) 1
  end.

(** Reads a number: [-? int frac? exp?]; the literal and the number of
    characters read. *)
Definition read_number (s : string) : option (Num.literal * nat) :=
  let '(neg, s0) :=
    match s with
    | String "-" r => (true, r)
    | _ => (false, s)
    end in
  let sl := if neg then 1 else 0 in
  match s0 with
  | String c r0 =>
      if Str.is_digit c then
        (* int: a single 0, or a run of digits that does not start with 0 *)
        let '(ip, n1, r1) :=
          if bool_decide (c = "0"%char) then (0%N, 1, r0)
          else Num.digits 0 0 s0 in
        (* frac *)
        let frac :=
          match r1 with
          | String "." r2 =>
              let '(m, n2, r3) := Num.digits ip 0 r2 in
              match n2 with
              | O => None
              | _ => Some (m, n2, 1 + n2, r3)
              end
          | _ => Some (ip, 0, 0, r1)
          end in
        match frac with
        | None => None
        | Some (m, n2, fl, r3) =>
            match r3 with
            | String e r4 =>
                if bool_decide (e = "e"%char) || bool_decide (e = "E"%char)
                then
                  let '(eneg, esl, r5) :=
                    match r4 with
                    | String "-" r => (true, 1, r)
                    | String "+" r => (false, 1, r)
                    | _ => (false, 0, r4)
                    end in
                  let '(ev, n3, _) := Num.digits 0 0 r5 in
                  match n3 with
                  | O => None
                  | _ =>
                      let ex := if eneg then (- Z.of_N ev)%Z else Z.of_N ev in
                      Some (Num.LDecimal neg m (ex - Z.of_nat n2),
                            sl + n1 + fl + 1 + esl + n3)
                  end
                else Some (Num.LDecimal neg m (- Z.of_nat n2), sl + n1 + fl)
            | EmptyString =>
                Some (Num.LDecimal neg m (- Z.of_nat n2), sl + n1 + fl)
            end
        end
      else None
  | EmptyString => None
  end.

(** JSON white space: TAB, LF, CR and SP. *)
Definition is_ws (c : ascii) : bool :=
  let n := Str.code c in
  (n =? 9)%N || (n =? 10)%N || (n =? 13)%N || (n =? 32)%N.

Definition cons_token (t : token) (r : result (list token))
  : result (list token) :=
  match r with
  | Ok l => Ok (t :: l)
  | Throw e => Throw e
  end.

(** The tokens of a text; [skip] counts the characters that still belong
    to the token read last. *)
Fixpoint lex (skip : nat) (s : string) : result (list token) :=
  match s with
  | EmptyString => Ok []
  | String c r =>
      match skip with
      | S k => lex k r
      | O =>
          if is_ws c then lex 0 r
          else if bool_decide (c = "{"%char) then cons_token LBrace (lex 0 r)
          else if bool_decide (c = "}"%char) then cons_token RBrace (lex 0 r)
          else if bool_decide (c = "["%char) then cons_token LBrack (lex 0 r)
          else if bool_decide (c = "]"%char) then cons_token RBrack (lex 0 r)
          else if bool_decide (c = ":"%char) then cons_token Colon (lex 0 r)
          else if bool_decide (c = ","%char) then cons_token Comma (lex 0 r)
          else if (Str.code c =? 34)%N then
            match read_string r with
            | Ok (str, n) => cons_token (TString str) (lex n r)
            | Throw e => Throw e
            end
          else if bool_decide (c = "-"%char) || Str.is_digit c then
            match read_number s with
            | Some (l, n) => cons_token (TNumber l) (lex (n - 1) r)
            | None => Throw SyntaxError
            end
          else if Num.starts_with "true" s then cons_token TTrue (lex 3 r)
          else if Num.starts_with "false" s then cons_token TFalse (lex 4 r)
          else if Num.starts_with "null" s then cons_token TNull (lex 3 r)
          else Throw SyntaxError
      end
  end.

(** The container being read: an array with its elements so far (last
    first), an object with its members so far, or an object member whose
    key has been read. *)
Inductive frame : Type :=
| InArray (acc : list json)
| InObject (acc : list (string * json))
| InMember (acc : list (string * json)) (key : string).

(** What the grammar allows next. *)
Inductive mode : Type :=
| MValue        (* a value *)
| MFirst        (* after [[]: a value or []] *)
| MKeyFirst     (* after [{]: a key or [}] *)
| MKey          (* after [,] in an object: a key *)
| MColon        (* after a key *)
| MNext         (* after a value in a container: [,] or the closer *)
| MDone (v : json).

(** A value is complete: it ends the text or joins the open container. *)
Definition complete (v : json) (stack : list frame)
  : option (mode * list frame) :=
  match stack with
  | [] => Some (MDone v, [])
  | InArray acc :: st => Some (MNext, InArray (v :: acc) :: st)
  | InMember acc k :: st => Some (MNext, InObject (define k v acc) :: st)
  | InObject _ :: _ => None
  end.

Definition start_value (t : token) (stack : list frame)
  : option (mode * list frame) :=
  match t with
  | LBrack => Some (MFirst, InArray [] :: stack)
  | LBrace => Some (MKeyFirst, InObject [] :: stack)
  | TString s => complete (JString s) stack
  | TNumber l => complete (JNumber l) stack
  | TTrue => complete (JBool true) stack
  | TFalse => complete (JBool false) stack
  | TNull => complete JNull stack
  | _ => None
  end.

Definition start_key (t : token) (stack : list frame)
  : option (mode * list frame) :=
  match t, stack with
  | TString k, InObject acc :: st => Some (MColon, InMember acc k :: st)
  | _, _ => None
  end.

Definition step (m : mode) (stack : list frame) (t : token)
  : option (mode * list frame) :=
  match m with
  | MValue => start_value t stack
  | MFirst =>
      match t, stack with
      | RBrack, InArray acc :: st => complete (JArray (rev acc)) st
      | _, _ => start_value t stack
      end
  | MKeyFirst =>
      match t, stack with
      | RBrace, InObject acc :: st => complete (JObject acc) st
      | _, _ => start_key t stack
      end
  | MKey => start_key t stack
  | MColon => match t with Colon => Some (MValue, stack) | _ => None end
  | MNext =>
      match t, stack with
      | Comma, InArray _ :: _ => Some (MValue, stack)
      | Comma, InObject _ :: _ => Some (MKey, stack)
      | RBrack, InArray acc :: st => complete (JArray (rev acc)) st
      | RBrace, InObject acc :: st => complete (JObject acc) st
      | _, _ => None
      end
  | MDone _ => None
  end.

Fixpoint run (m : mode) (stack : list frame) (ts : list token)
  : option json :=
  match ts with
  | [] => match m with MDone v => Some v | _ => None end
  | t :: r =>
      match step m stack t with
      | Some (m', stack') => run m' stack' r
      | None => None
      end
  end.

(** [JSON.parse(text)]. *)
Definition parse (text : string) : result json :=
  match lex 0 text with
  | Ok ts =>
      match run MValue [] ts with
      | Some v => Ok v
      | None => Throw SyntaxError
      end
  | Throw e => Throw e
  end.

End Json.

(* ===================================================================== *)
(** ** Events *)
(* ===================================================================== *)

(** [showNotification(message, type)] (lines 546 to 576): the
    notification system is kept as the list of the notifications raised. *)
Definition showNotification (message type : string) : M unit :=
  modify (fun st => set_notifications (notifications st ++ [(message, type)]) st).

(** The key of a form in the store, and [clearFormData(formId)] (lines
    520 to 523). *)
Definition storage_key (formId : string) : string := "form_" ++ formId.

Definition clearFormData (formId : string) : M unit :=
  modify (fun st =>
    set_localStorage (delete (storage_key formId) (localStorage st)) st) ;;;
  console_log ("Form data cleared: " ++ formId).

(** The function returned by [debounce] (lines 715 to 725), called: the
    pending timer of the form is cancelled and a new one is started. *)
Definition debounce_restart (form : nat) (formId : string) : M unit :=
  modify (fun st =>
    set_timers
      (List.filter (fun t => negb (Nat.eqb (fst t) form)) (timers st)
       ++ [(form, formId)]) st).

(** The submit listener of [initFormValidation] (lines 248 to 261); the
    answer tells whether [preventDefault] was called. *)
Fixpoint validate_inputs (inputs : list nat) (isValid : bool) : M bool :=
  match inputs with
  | [] => ret isValid
  | input :: r =>
      ok <- validateField input ;;
      validate_inputs r (if negb ok then false else isValid)
  end.

Definition submit_validation (inputs : list nat) : M bool :=
  isValid <- validate_inputs inputs true ;;
  if negb isValid then
    showNotification "Please fix the errors in the form" "error" ;;;
    ret true
  else ret false.

(** Runs one listener on the element [this] it is registered on. *)
Definition run_listener (this : nat) (l : listener) : M bool :=
  match l with
  | OnBlurValidate => validateField this ;;; ret false
  | OnInputClear => clearFieldError this ;;; ret false
  | OnSubmitValidate inputs => submit_validation inputs
  | OnInputAutosave formId => debounce_restart this formId ;;; ret false
  | OnSubmitAutosave formId => clearFormData formId ;;; ret false
  end.

(** The handles of the elements that contain the element [h], nearest
    first. *)
Fixpoint path_to (h : nat) (n : Dom.node) : option (list nat) :=
  match n with
  | Dom.Node g _ ks =>
      if Nat.eqb g h then Some []
      else
        match
          (fix first (l : list Dom.node) : option (list nat) :=
             match l with
             | [] => None
             | k :: r =>
                 match path_to h k with
                 | Some p => Some p
                 | None => first r
                 end
             end) ks
        with
        | Some p => Some (p ++ [g])%list
        | None => None
        end
  end.

Fixpoint ancestors (h : nat) (f : list Dom.node) : list nat :=
  match f with
  | [] => []
  | n :: r =>
      match path_to h n with
      | Some p => p
      | None => ancestors h r
      end
  end.

(** The listeners of one element for one event, in registration order. *)
Definition listeners_of (h : nat) (ty : event_type) (st : page)
  : list listener :=
  flat_map (fun r =>
    match r with
    | (h', ty', l) =>
        if Nat.eqb h' h && bool_decide (ty' = ty) then [l] else []
    end) (listeners st).

(** Runs listeners one after the other.  An exception in a listener is
    reported by the browser and does not stop the others. *)
Fixpoint run_listeners (ls : list (nat * listener)) (prevented : bool)
  : page -> page * bool :=
  fun st =>
    match ls with
    | [] => (st, prevented)
    | (this, l) :: r =>
        match run_listener this l st with
        | (st', Ok p) => run_listeners r (prevented || p) st'
        | (st', Throw _) => run_listeners r prevented st'
        end
    end.

(** [target.dispatchEvent(event)] for a bubbling event: the listeners of
    the target, then those of its ancestors, as found when the dispatch
    starts.  The answer is [defaultPrevented]. *)
Definition dispatchEvent (target : nat) (ty : event_type)
  : page -> page * bool :=
  fun st =>
    let chain := target :: ancestors target (document st) in
    let ls :=
      flat_map (fun h => List.map (fun l => (h, l)) (listeners_of h ty st))
        chain in
    run_listeners ls false st.

(* ===================================================================== *)
(** ** Autosave store *)
(* ===================================================================== *)

(** A value of a [FormData] entry: a string, or the [File] of a file
    input (kept as its name). *)
Inductive entry_value : Type :=
| EString (s : string)
| EFile (filename : string).

(** The entries one element contributes to [new FormData(form)], which
    has no submitter: buttons are left out, as are disabled and unnamed
    controls and boxes that are not checked; a file input gives one entry
    per file, or one empty [File].  ([_charset_], [dirname], multiple
    selection and controls bound by a [form] attribute are outside this
    embedding.) *)
Definition entries_of (e : Dom.element) : list (string * entry_value) :=
  let nm := Dom.name e in
  let ty := Dom.type e in
  let tag := Dom.localName e in
  if Dom.disabled e || negb (Str.truthy nm) then []
  else if Str.eqb tag "input" then
    if bool_decide (ty ∈ ["submit"; "reset"; "button"; "image"]) then []
    else if bool_decide (ty ∈ ["checkbox"; "radio"]) then
      if Dom.checked e then [(nm, EString (Dom.value e))] else []
    else if Str.eqb ty "file" then
      match Dom.files e with
      | [] => [(nm, EFile "")]
      | fs => List.map (fun f => (nm, EFile f)) fs
      end
    else [(nm, EString (Dom.value e))]
  else if Str.eqb tag "select" then
    if bool_decide (Dom.value e ∈ Dom.options e)
    then [(nm, EString (Dom.value e))] else []
  else if Str.eqb tag "textarea" then [(nm, EString (Dom.value e))]
  else [].

(** [new FormData(form).entries()]. *)
Definition FormData (form : Dom.node) : list (string * entry_value) :=
  flat_map (fun n => entries_of (Dom.elem n)) (Dom.descendants form).

(** [JSON.stringify(data)] for the object built by [saveFormData]: a
    [File] has no own enumerable property and is written as [{}]. *)
Definition stringify_value (v : entry_value) : string :=
  match v with
  | EString s => Json.quote s
  | EFile _ => "{}"
  end.

Fixpoint stringify_members (o : list (string * entry_value)) : string :=
  match o with
  | [] => ""
  | [(k, v)] => Json.quote k ++ ":" ++ stringify_value v
  | (k, v) :: r =>
      Json.quote k ++ ":" ++ stringify_value v ++ "," ++ stringify_members r
  end.

Definition JSON_stringify (o : list (string * entry_value)) : string :=
  "{" ++ stringify_members o ++ "}".

(** A key that the selector [[name="key"]] reads back as it is: not
    empty and free of the double quote, the backslash, NUL and the CSS
    line breaks. *)
Definition plain_char (c : ascii) : bool :=
  let n := Str.code c in
  negb ((n =? 34)%N || (n =? 92)%N || (n =? 0)%N
        || (n =? 10)%N || (n =? 12)%N || (n =? 13)%N).

Definition plain_key (k : string) : bool :=
  Str.truthy k && Str.all_chars plain_char k.

(** The answers of the browser that the embedding leaves open:
    - [selector_query key els]: what the selector engine answers for
      [[name="key"]] when [key] is not plain (escapes, a quote that ends
      the string early, an invalid selector), given the elements searched;
    - [ToString v]: the string of a parsed value that is not a string;
    - [sanitize type v]: the value sanitization of the input types that
      have a format of their own ([number], [date], [color], ...). *)
Record platform : Type := mkPlatform {
  selector_query : string -> list Dom.node -> result (option Dom.node);
  ToString : Json.json -> result string;
  sanitize : string -> string -> string
}.

Section Autosave.

Variable env : platform.

(** [form.querySelector(`[name="${key}"]`)]. *)
Definition form_querySelector_name (form : nat) (key : string)
  : M (option Dom.node) :=
  fun st =>
    match Dom.lookup form (document st) with
    | None => (st, Ok None)
    | Some f =>
        if plain_key key
        then (st, Ok (List.find (Dom.has_name key) (Dom.descendants f)))
        else
          match selector_query env key (Dom.descendants f) with
          | Ok r => (st, Ok r)
          | Throw e => (st, Throw e)
          end
    end.

(** The body of the loop of [saveFormData] (lines 487 to 491). *)
Fixpoint collect (form : nat) (es : list (string * entry_value))
  (data : list (string * entry_value)) : M (list (string * entry_value)) :=
  match es with
  | [] => ret data
  | (key, value) :: r =>
      target <- form_querySelector_name form key ;;
      match target with
      | None => throw TypeError
      | Some t =>
          if negb (Str.eqb (Dom.type (Dom.elem t)) "file")
          then collect form r (Json.set key value data)
          else collect form r data
      end
  end.

(** [saveFormData(form, formId)] (lines 483 to 495). *)
Definition saveFormData (form : nat) (formId : string) : M unit :=
  st <- get ;;
  let formData :=
    match Dom.lookup form (document st) with
    | Some f => FormData f
    | None => []
    end in
  data <- collect form formData [] ;;
  modify (fun st =>
    set_localStorage
      (<[storage_key formId := JSON_stringify data]> (localStorage st)) st) ;;;
  console_log ("Form data saved: " ++ formId).

(** [Object.entries(data)]. *)
Definition index_key (i : nat) : string := pretty i.

Definition Object_entries (data : Json.json)
  : result (list (string * Json.json)) :=
  match data with
  | Json.JNull => Throw TypeError
  | Json.JBool _ | Json.JNumber _ => Ok []
  | Json.JString s =>
      Ok (imap (fun i c => (index_key i, Json.JString (String c "")))
            (list_ascii_of_string s))
  | Json.JArray l => Ok (imap (fun i v => (index_key i, v)) l)
  | Json.JObject o => Ok o
  end.

(** Truthiness of a parsed value. *)
Definition truthy (v : Json.json) : bool :=
  match v with
  | Json.JNull => false
  | Json.JBool b => b
  | Json.JNumber l => Num.truthy (Num.value l)
  | Json.JString s => Str.truthy s
  | Json.JArray _ | Json.JObject _ => true
  end.

Definition to_string (v : Json.json) : result string :=
  match v with
  | Json.JString s => Ok s
  | _ => ToString env v
  end.

(** The value an element has after [field.value = v]: a [select] selects
    the option of that value, if any; a [textarea] normalises the line
    breaks; a text-like input drops them, an address input also trims;
    the inputs whose value is an attribute, and the elements that are no
    controls, keep the string. *)
Definition value_after (e : Dom.element) (v : string) : string :=
  let tag := Dom.localName e in
  let ty := Dom.type e in
  if Str.eqb tag "select" then
    if bool_decide (v ∈ Dom.options e) then v else ""
  else if Str.eqb tag "textarea" then Str.normalize_newlines v
  else if Str.eqb tag "input" then
    if bool_decide (ty ∈ ["text"; "search"; "tel"; "password"])
    then Str.strip_newlines v
    else if bool_decide (ty ∈ ["url"; "email"])
    then Str.trim_ascii (Str.strip_newlines v)
    else if bool_decide
              (ty ∈ ["hidden"; "checkbox"; "radio"; "submit"; "image";
                     "reset"; "button"])
    then v
    else sanitize env ty v
  else v.

(** [field.value = v]: a file input refuses a non-empty string (the
    empty string clears its files). *)
Definition assign_value (field : Dom.node) (v : string) : M unit :=
  let e := Dom.elem field in
  if Str.eqb (Dom.localName e) "input" && Str.eqb (Dom.type e) "file" then
    if Str.truthy v then throw InvalidStateError
    else modify_document (List.map
           (Dom.update (Dom.handle field) (fun e =>
             Dom.mkElement (Dom.localName e) (Dom.name e) (Dom.id e)
               (Dom.type e) "" (Dom.required e) (Dom.classList e)
               (Dom.innerHTML e) (Dom.autosave e) (Dom.disabled e)
               (Dom.checked e) [] (Dom.options e))))
  else
    modify_document (List.map
      (Dom.update (Dom.handle field) (Dom.with_value (value_after e v)))).

Definition lift {A} (r : result A) : M A := fun st => (st, r).

(** The callback of [forEach] in [loadFormData] (lines 504 to 512). *)
Definition restore (form : nat) (kv : string * Json.json) : M unit :=
  let '(key, value) := kv in
  field <- form_querySelector_name form key ;;
  match field with
  | Some f =>
      if truthy value then
        v <- lift (to_string value) ;;
        assign_value f v ;;;
        (fun st => (fst (dispatchEvent (Dom.handle f) Input st), Ok tt))
      else ret tt
  | None => ret tt
  end.

(** [loadFormData(form, formId)] (lines 497 to 518). *)
Definition loadFormData (form : nat) (formId : string) : M unit :=
  st <- get ;;
  match localStorage st !! storage_key formId with
  | None => ret tt
  | Some savedData =>
      if negb (Str.truthy savedData) then ret tt
      else
        try_catch
          (data <- lift (Json.parse savedData) ;;
           es <- lift (Object_entries data) ;;
           forEach es (restore form) ;;;
           console_log ("Form data loaded: " ++ formId))
          (fun e => console_log "Error loading form data:")
  end.

(** *** Registration at page load *)

Definition addEventListener (h : nat) (ty : event_type) (l : listener)
  : M unit :=
  modify (fun st => set_listeners (listeners st ++ [(h, ty, l)]) st).

Definition is_form (n : Dom.node) : bool :=
  Str.eqb (Dom.localName (Dom.elem n)) "form".

(** The selector [input, textarea, select]. *)
Definition is_control (n : Dom.node) : bool :=
  bool_decide (Dom.localName (Dom.elem n) ∈ ["input"; "textarea"; "select"]).

(** [initFormValidation()] (lines 232 to 263). *)
Definition initFormValidation : M unit :=
  st <- get ;;
  forEach (List.filter is_form (Dom.preorder (document st))) (fun form =>
    let inputs :=
      List.map Dom.handle (List.filter is_control (Dom.descendants form)) in
    forEach inputs (fun input =>
      addEventListener input Blur OnBlurValidate ;;;
      addEventListener input Input OnInputClear) ;;;
    addEventListener (Dom.handle form) Submit (OnSubmitValidate inputs)).

(** [initAutoSave()] (lines 462 to 481): the forms that carry
    [data-autosave]. *)
Definition initAutoSave : M unit :=
  st <- get ;;
  forEach (List.filter is_form (Dom.preorder (document st))) (fun form =>
    match Dom.autosave (Dom.elem form) with
    | Some formId =>
        loadFormData (Dom.handle form) formId ;;;
        addEventListener (Dom.handle form) Input (OnInputAutosave formId) ;;;
        addEventListener (Dom.handle form) Submit (OnSubmitAutosave formId)
    | None => ret tt
    end).

(** [initFormEnhancements()] (lines 218 to 230), without the floating
    labels and the file previews, which only toggle presentation
    classes. *)
Definition initFormEnhancements : M unit :=
  initFormValidation ;;; initAutoSave.

(** A debounce timer fires: the pending save of the form runs. *)
Definition timer_fires (form : nat) (formId : string) : page -> page :=
  fun st =>
    let st1 :=
      set_timers
        (List.filter (fun t => negb (Nat.eqb (fst t) form)) (timers st)) st in
    fst (saveFormData form formId st1).

End Autosave.

(* ===================================================================== *)
(** ** Observations used by the statements *)
(* ===================================================================== *)

(** The error nodes that [clearFieldError] can see from a container: its
    descendants of class [field-error], in document order. *)
Definition errors_in (p : Dom.node) : list Dom.node :=
  List.filter (Dom.has_class "field-error") (Dom.descendants p).

(** The markup of the error nodes of the container of [field]. *)
Definition field_errors (field : nat) (st : page) : list string :=
  match Dom.parent field (document st) with
  | Some p => List.map (fun d => Dom.innerHTML (Dom.elem d)) (errors_in p)
  | None => []
  end.

(** The last child of the container of [field]. *)
Definition last_sibling (field : nat) (st : page) : option Dom.node :=
  match Dom.parent field (document st) with
  | Some p => last (Dom.children p)
  | None => None
  end.

(** The trimmed value and the name of a field, as [validateField] reads
    them. *)
Definition field_value (e : Dom.element) : string := Str.trim (Dom.value e).

Definition field_name (e : Dom.element) : string :=
  if Str.truthy (Dom.name e) then Dom.name e else Dom.id e.

(** A field whose annotation can be managed: it is in a well-formed
    document, inside a container that holds at most one error node, it
    is not itself an error node, and its name is text, so that a message
    that carries the name is text. *)
Definition tidy (field : nat) (st : page) : Prop :=
  Dom.wf (document st) (fresh st) /\
  exists n p,
    Dom.lookup field (document st) = Some n /\
    Dom.has_class "field-error" n = false /\
    Dom.parent field (document st) = Some p /\
    length (errors_in p) <= 1 /\
    Str.is_text (field_name (Dom.elem n)) = true.

(** The six rules of the validator, each giving its message when it
    fails on a field. *)
Definition rule : Type := list Dom.node -> Dom.element -> option string.

Definition rule_required : rule := fun _ e =>
  if Dom.required e && negb (Str.truthy (field_value e))
  then Some (Str.replace_first "_" " " (field_name e) ++ " is required")
  else None.

Definition rule_email : rule := fun _ e =>
  if Str.eqb (Dom.type e) "email" && Str.truthy (field_value e)
     && negb (Regex.test emailRegex (field_value e))
  then Some "Please enter a valid email address" else None.

Definition rule_phone : rule := fun _ e =>
  if Str.eqb (Dom.name e) "phone_number" && Str.truthy (field_value e)
     && negb (Regex.test phoneRegex (field_value e))
  then Some "Please enter a valid 10-digit mobile number" else None.

Definition rule_password1 : rule := fun _ e =>
  if Str.eqb (Dom.name e) "password1" && Str.truthy (field_value e)
     && Nat.ltb (String.length (field_value e)) 8
  then Some "Password must be at least 8 characters long" else None.

Definition rule_password2 : rule := fun doc e =>
  if Str.eqb (Dom.name e) "password2" && Str.truthy (field_value e) then
    match document_querySelector_name "password1" doc with
    | Some password1 =>
        if negb (Str.eqb (field_value e) (Dom.value (Dom.elem password1)))
        then Some "Passwords do not match" else None
    | None => None
    end
  else None.

Definition rule_price : rule := fun _ e =>
  if Str.eqb (Dom.name e) "price_per_day" && Str.truthy (field_value e)
     && negb (Num.gt_zero (Num.parseFloat (field_value e)))
  then Some "Please enter a valid price" else None.

Definition rules : list rule :=
  [rule_required; rule_email; rule_phone; rule_password1; rule_password2;
   rule_price].

(** The messages of the rules that fail, in rule order. *)
Definition failures (doc : list Dom.node) (e : Dom.element) : list string :=
  omap (fun r : rule => r doc e) rules.

(** The documented outcome: the first failing rule decides. *)
Definition first_failing (doc : list Dom.node) (e : Dom.element)
  : bool * string :=
  match failures doc e with
  | [] => (true, "")
  | m :: _ => (false, m)
  end.

(** The outcome of running every rule and keeping the last message. *)
Definition last_failing (doc : list Dom.node) (e : Dom.element)
  : bool * string :=
  match last (failures doc e) with
  | None => (true, "")
  | Some m => (false, m)
  end.

(** The first element named [k] inside the form [form]. *)
Definition field_of_form (form : nat) (k : string) (doc : list Dom.node)
  : option Dom.node :=
  match Dom.lookup form doc with
  | Some f => List.find (Dom.has_name k) (Dom.descendants f)
  | None => None
  end.

(** The field does not carry the class [error]. *)
Definition unmarked (field : nat) (st : page) : Prop :=
  exists n,
    Dom.lookup field (document st) = Some n /\
    Dom.has_class "error" n = false.

(** Whether [saveFormData] keeps the entries of the key [k]: the first
    element of the form with that name is not a file input. *)
Definition keeps_key (form : Dom.node) (k : string) : bool :=
  match List.find (Dom.has_name k) (Dom.descendants form) with
  | Some t => negb (Str.eqb (Dom.type (Dom.elem t)) "file")
  | None => false
  end.

(** One turn of the loop of [saveFormData], once the element is found. *)
Definition assign (form : Dom.node) (data : list (string * entry_value))
  (kv : string * entry_value) : list (string * entry_value) :=
  if keeps_key form (fst kv) then Json.set (fst kv) (snd kv) data else data.

(** The object that [saveFormData] serialises, when the loop ends. *)
Definition payload (form : Dom.node) : list (string * entry_value) :=
  fold_left (assign form) (FormData form) [].

Definition named (n : Dom.node) : bool := Str.truthy (Dom.name (Dom.elem n)).

(** The names of the elements of a form are pairwise distinct, can be
    written in a selector as they are, and none is [__proto__]. *)
Definition distinct_names (form : Dom.node) : Prop :=
  NoDup (List.map (fun n => Dom.name (Dom.elem n))
           (List.filter named (Dom.descendants form))).

Definition plain_names (form : Dom.node) : Prop :=
  forall x, x ∈ Dom.descendants form -> named x = true ->
    plain_key (Dom.name (Dom.elem x)) = true /\
    Dom.name (Dom.elem x) <> "__proto__".

(** The [value] setter keeps the string [v] on this element: it is not
    a file input and the string is the value it has afterwards. *)
Definition accepts (env : platform) (e : Dom.element) (v : string) : bool :=
  negb (Str.eqb (Dom.localName e) "input" && Str.eqb (Dom.type e) "file")
  && Str.eqb (value_after env e v) v.

(** The entries of a draft whose values are all strings. *)
Definition draft (data : list (string * string))
  : list (string * entry_value) :=
  List.map (fun kv => (fst kv, EString (snd kv))) data.

(** A member of a draft that [loadFormData] can restore in a form: the
    key is one that a selector reads as it is, and the field of that
    name, if the form has one, accepts the value. *)
Definition restorable (env : platform) (f : Dom.node) (k v : string)
  : Prop :=
  plain_key k = true /\
  forall x, List.find (Dom.has_name k) (Dom.descendants f) = Some x ->
    v <> "" -> accepts env (Dom.elem x) v = true.

(** A page as it is while it loads: no error node has been made yet, and
    the listeners of input events are those that [initFormEnhancements]
    registers. *)
Definition loading (st : page) : Prop :=
  (forall n, n ∈ Dom.preorder (document st) ->
     Dom.has_class "field-error" n = false) /\
  (forall h l, (h, Input, l) ∈ listeners st ->
     l = OnInputClear \/ exists formId, l = OnInputAutosave formId).

(** The calls of the annotation interface on one field. *)
Inductive call : Type :=
| Show (message : string)
| Clear.

(** The message of the call is text. *)
Definition text_call (c : call) : Prop :=
  match c with
  | Show message => Str.is_text message = true
  | Clear => True
  end.

Definition run_call (field : nat) (c : call) : M unit :=
  match c with
  | Show message => showFieldError field message
  | Clear => clearFieldError field
  end.

Definition run_calls (field : nat) (cs : list call) : M unit :=
  forEach cs (run_call field).

(* ===================================================================== *)
(** ** Sample pages *)
(* ===================================================================== *)

Module Sample.

Definition input (name type value : string) (required : bool)
  : Dom.element :=
  Dom.mkElement "input" name "" type value required [] "" None false false
    [] [].

Definition file_input (name : string) (files : list string) : Dom.element :=
  Dom.mkElement "input" name "" "file" "" false [] "" None false false
    files [].

Definition form (autosave : option string) : Dom.element :=
  Dom.mkElement "form" "" "" "" "" false [] "" autosave false false [] [].

(** A page whose document is one form (handle 0) with the given controls
    (handles 1, 2, ...), nothing stored and no listener. *)
Definition one_form (autosave : option string) (controls : list Dom.element)
  : page :=
  mkPage
    [Dom.Node 0 (form autosave)
       (imap (fun i e => Dom.Node (S i) e []) controls)]
    (S (length controls)) ∅ [] [] [] [].

(** A required price field left empty. *)
Definition empty_price : page :=
  one_form None [input "price_per_day" "text" "" true].

(** A field that is an email input and is named like the phone field. *)
Definition email_phone : page :=
  one_form None [input "phone_number" "email" "abc" false].

Definition price (v : string) : page :=
  one_form None [input "price_per_day" "text" v false].

(** A lone confirmation field. *)
Definition lone_password2 : page :=
  one_form None [input "password2" "password" "secret12" false].

Definition passwords (p1 p2 : string) : page :=
  one_form None
    [input "password1" "password" p1 false;
     input "password2" "password" p2 false].

(** Two forms; the confirmation of the second one agrees with the
    password of its own form. *)
Definition two_forms : page :=
  mkPage
    [Dom.Node 0 (form None)
       [Dom.Node 1 (input "password1" "password" "aaaaaaaa" false) []];
     Dom.Node 2 (form None)
       [Dom.Node 3 (input "password1" "password" "bbbbbbbb" false) [];
        Dom.Node 4 (input "password2" "password" "bbbbbbbb" false) []]]
    5 ∅ [] [] [] [].

(** The answers assumed for the browser operations that the embedding
    leaves open, where a sample needs them. *)
Definition browser : platform :=
  mkPlatform (fun _ _ => Throw SyntaxError) (fun _ => Throw OtherError)
    (fun _ v => v).

(** The signup form of a page, opted in to autosave, with a draft in the
    store; the address typed is not valid. *)
Definition signup : page :=
  set_localStorage
    (<[storage_key "signup" := JSON_stringify [("name", EString "Alice")]]> ∅)
    (one_form (Some "signup")
       [input "name" "text" "" true; input "email" "email" "a@b" false]).

(** The signup page once [initFormEnhancements] has run. *)
Definition signup_loaded : page :=
  fst (initFormEnhancements browser signup).

(** That page once the visitor has typed in the first field: a save is
    pending. *)
Definition signup_typed : page := fst (dispatchEvent 1 Input signup_loaded).


(** A form in which a text field and a file field share a name; a file
    has been chosen. *)
Definition shared_name : page :=
  one_form (Some "listing")
    [input "doc" "text" "deed" false; file_input "doc" ["scan.png"]].

(** A form with a text field and a populated file field. *)
Definition listing : page :=
  one_form (Some "listing")
    [input "title" "text" "Flat" false; file_input "photo" ["a.png"]].

(** The signup page when [initAutoSave] starts: the listeners of the
    validator are in place. *)
Definition signup_validated : page := fst (initFormValidation signup).

(** That page with a draft of two members. *)
Definition signup_drafted : page :=
  set_localStorage
    (<[storage_key "signup" :=
         JSON_stringify [("name", EString "Alice");
                         ("email", EString "alice@example.org")]]> ∅)
    signup_validated.

End Sample.

(* ===================================================================== *)
(** ** Notions used by the proofs *)
(* ===================================================================== *)

(** One block of [validateField]: a failing rule overwrites the verdict
    and the message, a passing rule leaves them. *)
Definition overwrite (v : bool * string) (o : option string) : bool * string :=
  match o with
  | Some m => (false, m)
  | None => v
  end.

(** The selector [.field-error]. *)
Definition is_err : Dom.node -> bool := Dom.has_class "field-error".

(** A computation that touches neither the store nor the listeners. *)
Definition keeps {A} (c : M A) : Prop :=
  forall st,
    localStorage (fst (c st)) = localStorage st /\
    listeners (fst (c st)) = listeners st.

(** A computation that leaves one component of the page as it is. *)
Definition preserves {X A} (proj : page -> X) (c : M A) : Prop :=
  forall st, proj (fst (c st)) = proj st.



(** Two states of one element that differ at most in its value, its
    checkedness and its classes other than [field-error]. *)
Definition alike (e e' : Dom.element) : Prop :=
  Dom.localName e' = Dom.localName e /\
  Dom.name e' = Dom.name e /\
  Dom.type e' = Dom.type e /\
  Dom.options e' = Dom.options e /\
  bool_decide ("field-error" ∈ Dom.classList e') =
  bool_decide ("field-error" ∈ Dom.classList e).

(** A change of the document that keeps its tree and rewrites properties
    of its elements. *)
Record edit (T : Dom.node -> Dom.node) : Prop := mkEdit {
  edit_handle : forall n, Dom.handle (T n) = Dom.handle n;
  edit_children : forall n, Dom.children (T n) = List.map T (Dom.children n);
  edit_elem : forall n, alike (Dom.elem n) (Dom.elem (T n))
}.

Definition keeps_values (T : Dom.node -> Dom.node) : Prop :=
  forall n, Dom.value (Dom.elem (T n)) = Dom.value (Dom.elem n).

(** The value that [JSON.parse] gives for what [JSON.stringify] wrote for
    an entry value, and the tokens of the text written. *)
Definition to_json (v : entry_value) : Json.json :=
  match v with
  | EString s => Json.JString s
  | EFile _ => Json.JObject []
  end.

Definition value_tokens (v : entry_value) : list Json.token :=
  match v with
  | EString s => [Json.TString s]
  | EFile _ => [Json.LBrace; Json.RBrace]
  end.

Fixpoint member_tokens (o : list (string * entry_value)) : list Json.token :=
  match o with
  | [] => []
  | [(k, v)] => Json.TString k :: Json.Colon :: value_tokens v
  | (k, v) :: r =>
      (Json.TString k :: Json.Colon :: value_tokens v)
      ++ Json.Comma :: member_tokens r
  end.

Definition prepend (l : list Json.token) (r : result (list Json.token))
  : result (list Json.token) :=
  match r with
  | Ok ts => Ok (l ++ ts)%list
  | Throw e => Throw e
  end.

(** The members of an object after those of [o] have been defined, in
    order. *)
Definition define_all (o : list (string * entry_value))
  (acc : list (string * Json.json)) : list (string * Json.json) :=
  fold_left (fun a kv => Json.define (fst kv) (to_json (snd kv)) a) o acc.

(* ===================================================================== *)
(** ** File selection, spinners and the notification container *)
(* ===================================================================== *)

(** What [handleFileSelect] reads of a [File]: [size] in bytes and
    [type].  The files of an input are kept by name; [info] gives the
    size and the type of the file of a name. *)
Record file_info : Type := mkFile {
  file_size : N;
  file_type : string
}.

Definition validTypes : list string :=
  ["image/jpeg"; "image/png"; "image/gif"; "image/webp"].

(** [handleFileSelect(input)] (lines 426 to 460), up to the start of the
    [FileReader]; the script returns nothing, the answer here tells
    whether the reader was started.  The callback of the reader, which
    shows the preview, is not part of the embedding. *)
Definition handleFileSelect (env : platform) (info : string -> file_info)
  (input : Dom.node) : M bool :=
  match Dom.files (Dom.elem input) with
  | [] => ret false
  | file :: _ =>
      (* File size validation (5MB) *)
      if (5 * 1024 * 1024 <? file_size (info file))%N then
        showNotification "File size must be less than 5MB" "error" ;;;
        assign_value env input "" ;;;
        ret false
      (* File type validation *)
      else if negb (bool_decide (file_type (info file) ∈ validTypes)) then
        showNotification "Please select a valid image file" "error" ;;;
        assign_value env input "" ;;;
        ret false
      else ret true
  end.

(** The node that [showLoading] builds: the [div] of class
    [loading-spinner] with the icon that its markup creates. *)
Definition spinner_html : string :=
  "<i class=" ++ dquote ++ "fas fa-spinner fa-spin" ++ dquote ++ "></i>".

Definition spinner_node (h icon : nat) : Dom.node :=
  Dom.Node h (Dom.created "div" ["loading-spinner"] spinner_html)
    [Dom.Node icon (Dom.created "i" ["fas"; "fa-spinner"; "fa-spin"] "") []].

(** [window.showLoading(element)] (lines 180 to 185). *)
Definition showLoading (element : nat) : M unit :=
  spinner <- createElement ;;
  icon <- createElement ;;
  modify_document (List.map (Dom.append element (spinner_node spinner icon))).

(** [window.hideLoading(element)] (lines 187 to 192): the first spinner
    under the element, if any, is removed.  An element outside the
    document has nothing of the document under it. *)
Definition hideLoading (element : nat) : M unit :=
  st <- get ;;
  match Dom.lookup element (document st) with
  | Some n =>
      match List.find (Dom.has_class "loading-spinner") (Dom.descendants n)
      with
      | Some spinner => modify_document (Dom.prune_forest (Dom.handle spinner))
      | None => ret tt
      end
  | None => ret tt
  end.

(** [document.body]: the first [body] or [frameset] child of the [html]
    element that is the root of the document. *)
Definition document_body (doc : list Dom.node) : option Dom.node :=
  match doc with
  | root :: _ =>
      if Str.eqb (Dom.localName (Dom.elem root)) "html" then
        List.find
          (fun k => bool_decide
                      (Dom.localName (Dom.elem k) ∈ ["body"; "frameset"]))
          (Dom.children root)
      else None
  | [] => None
  end.

Definition container_node (h : nat) : Dom.node :=
  Dom.Node h (Dom.created "div" ["notifications-container"] "") [].

(** [getNotificationContainer()] (lines 587 to 595); the answer is the
    handle of the container. *)
Definition getNotificationContainer : M nat :=
  st <- get ;;
  match List.find (Dom.has_class "notifications-container")
          (Dom.preorder (document st)) with
  | Some container => ret (Dom.handle container)
  | None =>
      container <- createElement ;;
      match document_body (document st) with
      | Some body =>
          modify_document
            (List.map (Dom.append (Dom.handle body) (container_node container)))
          ;;; ret container
      | None => throw TypeError
      end
  end.

(* ===================================================================== *)
(** ** Throttling and the search box *)
(* ===================================================================== *)



Section Throttle.
Context {A W : Type}.
Variable func : A -> W -> W * result unit.






End Throttle.


(** [performSearch(query)] (lines 696 to 702). *)
Definition performSearch (query : string) : M unit :=
  console_log ("Searching for: " ++ query).

(** The input listener of [initSearch] (lines 683 to 692) on a search
    box: the pending searches are kept with the box they belong to and
    the query they will run with. *)
Definition search_input (input : Dom.node) (pending : list (nat * string))
  : list (nat * string) :=
  let cleared :=
    List.filter (fun t => negb (Nat.eqb (fst t) (Dom.handle input))) pending in
  let query := Str.trim (Dom.value (Dom.elem input)) in
  if Nat.leb 3 (String.length query)
  then cleared ++ [(Dom.handle input, query)]
  else cleared.

(** The timer of a search box fires: the search runs with the query of
    the last keystroke. *)
Definition search_fires (input : nat) (pending : list (nat * string))
  : M (list (nat * string)) :=
  match List.find (fun t => Nat.eqb (fst t) input) pending with
  | Some (_, query) =>
      performSearch query ;;;
      ret (List.filter (fun t => negb (Nat.eqb (fst t) input)) pending)
  | None => ret pending
  end.

(** What happens to the search boxes: a keystroke in a box, given as the
    box with its value after the keystroke, or the end of the delay of a
    box. *)
Inductive search_event : Type :=
| Typed (input : Dom.node)
| Elapsed (input : nat).

Fixpoint search_run (es : list search_event) (pending : list (nat * string))
  : M (list (nat * string)) :=
  match es with
  | [] => ret pending
  | Typed input :: r => search_run r (search_input input pending)
  | Elapsed input :: r =>
      pending' <- search_fires input pending ;;
      search_run r pending'
  end.

(** The query of a box: its value, trimmed (line 685). *)
Definition query_of (input : Dom.node) : string :=
  Str.trim (Dom.value (Dom.elem input)).

(** Nothing happens to the box [h] among the events: no keystroke in it
    and no end of its delay. *)
Definition quiet (h : nat) (es : list search_event) : bool :=
  forallb (fun e =>
    match e with
    | Typed input => negb (Nat.eqb (Dom.handle input) h)
    | Elapsed i => negb (Nat.eqb i h)
    end) es.

(** The searches that are pending: at most one for a box, each with a
    query of three characters or more that has no white space around
    it. *)
Definition orderly (pending : list (nat * string)) : Prop :=
  NoDup (List.map fst pending) /\
  forall h q, (h, q) ∈ pending ->
    3 <= String.length q /\ exists v, q = Str.trim v.


(* ===================================================================== *)
(** ** Further observations *)
(* ===================================================================== *)

(** A ten-digit mobile number: a first digit from 6 to 9 and nine more
    digits. *)
Definition mobile_number (s : string) : bool :=
  match s with
  | String c r =>
      is_6_to_9 c && Nat.eqb (String.length r) 9
      && Str.all_chars Str.is_digit r
  | EmptyString => false
  end.

(** A part of an address: not empty, without white space and without
    [@]. *)
Definition address_part (s : string) : bool :=
  Str.truthy s && Str.all_chars not_space_at s.

(** The names that have a rule of their own. *)
Definition ruled_names : list string :=
  ["phone_number"; "password1"; "password2"; "price_per_day"].

(** The field carries the class [error]. *)
Definition marked (field : nat) (st : page) : Prop :=
  exists n,
    Dom.lookup field (document st) = Some n /\
    Dom.has_class "error" n = true.

(** Pages with one field, for the rules of the validator. *)
Module Pages.

Definition phone (v : string) : page :=
  Sample.one_form None [Sample.input "phone_number" "tel" v false].

Definition address (v : string) : page :=
  Sample.one_form None [Sample.input "contact" "email" v false].

Definition password (v : string) : page :=
  Sample.one_form None [Sample.input "password1" "password" v false].

Definition notes (v : string) : page :=
  Sample.one_form None [Sample.input "notes" "text" v false].

End Pages.

(** Two states of the page that differ at most in the document and in
    the pending timers. *)
Definition same_records (st st' : page) : Prop :=
  localStorage st' = localStorage st /\
  console st' = console st /\
  notifications st' = notifications st /\
  listeners st' = listeners st /\
  fresh st' = fresh st.

(** The search of [path_to] among the trees of a forest. *)
Definition path_in (h : nat) : list Dom.node -> option (list nat) :=
  fix first (l : list Dom.node) : option (list nat) :=
    match l with
    | [] => None
    | k :: r =>
        match path_to h k with
        | Some p => Some p
        | None => first r
        end
    end.

(** The debounce timers that are pending for a form. *)
Definition pending_saves (form : nat) (st : page) : list (nat * string) :=
  List.filter (fun t => Nat.eqb (fst t) form) (timers st).

(** A page whose only field is filled in by the server, with a draft
    that holds an empty value for it and a value for a field that the
    form does not have. *)
Definition prefilled : page :=
  set_localStorage
    (<[storage_key "profile" :=
         JSON_stringify [("name", EString ""); ("nick", EString "Al")]]> ∅)
    (Sample.one_form (Some "profile")
       [Sample.input "name" "text" "Bob" true]).

(** A visit in which a name and an address are typed, and the page as
    it is when it is loaded again with the store that the visit left. *)
Definition visit : page :=
  Sample.one_form (Some "signup")
    [Sample.input "name" "text" "Alice" true;
     Sample.input "email" "email" "a@b" false].

Definition revisit : page :=
  fst (initFormValidation
         (set_localStorage
            (localStorage (fst (saveFormData Sample.browser 0 "signup" visit)))
            (Sample.one_form (Some "signup")
               [Sample.input "name" "text" "" true;
                Sample.input "email" "email" "" false]))).

(** A listing form with a file input and a chosen file, and the sizes
    and types of the files of the samples. *)
Definition upload (files : list string) : page :=
  Sample.one_form None [Sample.file_input "photo" files].

Definition sample_info (name : string) : file_info :=
  if Str.eqb name "big.png" then mkFile 5242881 "image/png"
  else if Str.eqb name "edge.png" then mkFile 5242880 "image/png"
  else if Str.eqb name "notes.pdf" then mkFile 1024 "application/pdf"
  else mkFile 2048 "image/jpeg".

(** A lone confirmation field that is an email input. *)
Definition lone_email_password2 : page :=
  Sample.one_form None [Sample.input "password2" "email" "secret12" false].

(** A control that a script made and marked, and that has no parent
    element. *)
Definition orphan : page :=
  mkPage
    [Dom.Node 0 (Dom.add_class "error"
                   (Sample.input "price_per_day" "text" "" true)) []]
    1 ∅ [] [] [] [].

(** A document with a body that holds a form. *)
Definition with_body : page :=
  mkPage
    [Dom.Node 0 (Dom.created "html" [] "")
       [Dom.Node 1 (Dom.created "head" [] "") [];
        Dom.Node 2 (Dom.created "body" [] "")
          [Dom.Node 3 (Sample.form None)
             [Dom.Node 4 (Sample.input "title" "text" "Flat" false) []]]]]
    5 ∅ [] [] [] [].

(* ===================================================================== *)
(** ** Whole-form validation *)
(* ===================================================================== *)

(** What the six blocks of [validateField] read of the field. *)
Definition reads (e : Dom.element)
  : string * string * string * string * bool :=
  (Dom.name e, Dom.id e, Dom.type e, Dom.value e, Dom.required e).

(** The value that the confirmation block compares with. *)
Definition password1_value (doc : list Dom.node) : option string :=
  option_map (fun n => Dom.value (Dom.elem n))
    (document_querySelector_name "password1" doc).

(** The verdict of the six blocks on the field of a handle. *)
Definition passes (st : page) (field : nat) : bool :=
  match Dom.lookup field (document st) with
  | Some n => fst (checkField (document st) (Dom.elem n))
  | None => true
  end.

(** Every control of the list is in the document and has a container. *)
Definition placed (inputs : list nat) (doc : list Dom.node) : Prop :=
  forall j, j ∈ inputs ->
    exists n p, Dom.lookup j doc = Some n /\ Dom.parent j doc = Some p.

(** No control of the list and no element named [password1] is an error
    node or lies in one. *)
Definition guarded (inputs : list nat) (doc : list Dom.node) : Prop :=
  forall d x,
    d ∈ Dom.preorder doc -> is_err d = true -> x ∈ Dom.subtree d ->
    (Dom.handle x ∉ inputs) /\ Dom.has_name "password1" x = false.

(** The names of the controls of the list are text, so that every
    message of the validator is and the node built for it is the one
    that the markup creates. *)
Definition textual (inputs : list nat) (doc : list Dom.node) : Prop :=
  forall j n, j ∈ inputs -> Dom.lookup j doc = Some n ->
    Str.is_text (field_name (Dom.elem n)) = true.

Definition sound (inputs : list nat) (doc : list Dom.node) (fresh : nat)
  : Prop :=
  Dom.wf doc fresh /\ placed inputs doc /\ guarded inputs doc.

(** The document [doc'] holds the controls of the list as [doc] does,
    but for the properties of the control [i], which [g] has rewritten,
    and the same password. *)
Definition carries (inputs : list nat) (doc doc' : list Dom.node) (i : nat)
  (g : Dom.element -> Dom.element) : Prop :=
  password1_value doc' = password1_value doc /\
  forall j, j ∈ inputs ->
    option_map Dom.elem (Dom.lookup j doc') =
    option_map (fun n => if Nat.eqb j i then g (Dom.elem n) else Dom.elem n)
      (Dom.lookup j doc).

(** A booking form whose two controls lie side by side in the form: a
    required name left empty and a phone number. *)
Definition booking : page :=
  Sample.one_form None
    [Sample.input "name" "text" "" true;
     Sample.input "phone_number" "tel" "9876543210" false].

(* ===================================================================== *)
(** ** The navigation menu *)
(* ===================================================================== *)

(** [document.getElementById(k)]: the first element, in document order,
    that has this id. *)
Definition getElementById (k : string) (doc : list Dom.node)
  : option Dom.node :=
  List.find (fun n => Str.eqb (Dom.id (Dom.elem n)) k) (Dom.preorder doc).

(** The two elements that [initNavigation] looks for (lines 28 and 29). *)
Definition nav_elements (doc : list Dom.node) : option nat * option nat :=
  (option_map Dom.handle (getElementById "navToggle" doc),
   option_map Dom.handle (getElementById "navMenu" doc)).

(** [classList.toggle(c)]. *)
Definition toggle_class (c : string) (e : Dom.element) : Dom.element :=
  if bool_decide (c ∈ Dom.classList e) then Dom.remove_class c e
  else Dom.add_class c e.

(** [element.querySelector('i')] on the element of a handle. *)
Definition first_icon (h : nat) (doc : list Dom.node) : option Dom.node :=
  match Dom.lookup h doc with
  | Some n =>
      List.find (fun x => Str.eqb (Dom.localName (Dom.elem x)) "i")
        (Dom.descendants n)
  | None => None
  end.

(** [a.contains(target)]: the target is the element or lies in it. *)
Definition contains (a target : nat) (doc : list Dom.node) : bool :=
  Nat.eqb a target || bool_decide (a ∈ ancestors target doc).

(** [icon.classList.remove(off); icon.classList.add(on)]. *)
Definition swap_class (icon : nat) (off on : string) : M unit :=
  modify_document (List.map (Dom.update icon (Dom.remove_class off))) ;;;
  modify_document (List.map (Dom.update icon (Dom.add_class on))).

(** The click listener of the toggle (lines 33 to 45); [navToggle] and
    [navMenu] are the elements that [initNavigation] found. *)
Definition toggle_click (navToggle navMenu : nat) : M unit :=
  modify_document (List.map (Dom.update navMenu (toggle_class "active"))) ;;;
  (* Animate hamburger icon *)
  st <- get ;;
  let icon := first_icon navToggle (document st) in
  menu <- element_of navMenu ;;
  match icon with
  | Some i =>
      if bool_decide ("active" ∈ Dom.classList menu)
      then swap_class (Dom.handle i) "fa-bars" "fa-times"
      else swap_class (Dom.handle i) "fa-times" "fa-bars"
  | None => throw TypeError
  end.

(** The click listener of the document (lines 49 to 58); an element that
    [initNavigation] did not find is [None]. *)
Definition document_click (navToggle navMenu : option nat) (target : nat)
  : M unit :=
  st <- get ;;
  let inside (a : option nat) :=
    match a with
    | Some h => contains h target (document st)
    | None => false
    end in
  if negb (inside navToggle) && negb (inside navMenu) then
    match navMenu with
    | Some m =>
        modify_document (List.map (Dom.update m (Dom.remove_class "active")))
    | None => ret tt
    end ;;;
    st1 <- get ;;
    match navToggle with
    | Some t =>
        match first_icon t (document st1) with
        | Some i => swap_class (Dom.handle i) "fa-times" "fa-bars"
        | None => ret tt
        end
    | None => ret tt
    end
  else ret tt.

(** A click on the element [target]: the listener of the toggle, which
    is registered when both elements were found, runs when the click is
    on the toggle or in it; then the event reaches the document.  An
    exception in the first listener does not stop the second. *)
Definition click (navToggle navMenu : option nat) (target : nat)
  : page -> page :=
  fun st =>
    let st1 :=
      match navToggle, navMenu with
      | Some t, Some m =>
          if contains t target (document st) then fst (toggle_click t m st)
          else st
      | _, _ => st
      end in
    fst (document_click navToggle navMenu target st1).

Definition clicks (navToggle navMenu : option nat) (targets : list nat)
  : page -> page :=
  fun st => fold_left (fun s t => click navToggle navMenu t s) targets st.

(** The menu is open. *)
Definition is_open (navMenu : nat) (st : page) : bool :=
  match Dom.lookup navMenu (document st) with
  | Some m => Dom.has_class "active" m
  | None => false
  end.

(** The menu and the icon of the toggle are in the document, and the
    icon is not the menu. *)
Definition nav_ready (navToggle navMenu : nat) (st : page) : Prop :=
  exists m i,
    Dom.lookup navMenu (document st) = Some m /\
    first_icon navToggle (document st) = Some i /\
    Dom.handle i <> navMenu.

(** The icon shows the cross when the menu is open and the bars when it
    is closed. *)
Definition in_sync (navToggle navMenu : nat) (st : page) : Prop :=
  exists i,
    first_icon navToggle (document st) = Some i /\
    Dom.has_class "fa-times" i = is_open navMenu st /\
    Dom.has_class "fa-bars" i = negb (is_open navMenu st).

(** A page with a navigation bar: the toggle with its icon, and the
    menu with a link. *)
Definition nav_page : page :=
  mkPage
    [Dom.Node 0 (Dom.created "html" [] "")
       [Dom.Node 1 (Dom.created "body" [] "")
          [Dom.Node 2
             (Dom.mkElement "button" "" "navToggle" "" "" false [] "" None
                false false [] [])
             [Dom.Node 3 (Dom.created "i" ["fas"; "fa-bars"] "") []];
           Dom.Node 4
             (Dom.mkElement "ul" "" "navMenu" "" "" false [] "" None
                false false [] [])
             [Dom.Node 5 (Dom.created "a" ["nav-link"] "") []];
           Dom.Node 6 (Dom.created "main" [] "") []]]]
    7 ∅ [] [] [] [].

(* ===================================================================== *)
(** * Properties *)
(* ===================================================================== *)

Example email_ok : Regex.test emailRegex "a@b.co" = true.
Proof. reflexivity. Qed.
Example email_no_dot : Regex.test emailRegex "a@b" = false.
Proof. reflexivity. Qed.
Example email_no_at : Regex.test emailRegex "a.com" = false.
Proof. reflexivity. Qed.
Example phone_ok : Regex.test phoneRegex "9876543210" = true.
Proof. reflexivity. Qed.
Example phone_bad_first : Regex.test phoneRegex "1876543210" = false.
Proof. reflexivity. Qed.
Example phone_short : Regex.test phoneRegex "987654321" = false.
Proof. reflexivity. Qed.

Example parseFloat_examples :
  Num.parseFloat "199.99" = Num.Finite false /\
  Num.parseFloat "0" = Num.Zero false /\
  Num.parseFloat "-5" = Num.Finite true /\
  Num.parseFloat "abc" = Num.NaN /\
  Num.parseFloat "12abc" = Num.Finite false /\
  Num.parseFloat ".5e1" = Num.Finite false /\
  Num.parseFloat "5.e" = Num.Finite false /\
  Num.parseFloat "." = Num.NaN /\
  Num.parseFloat "-0.0" = Num.Zero true /\
  Num.parseFloat "Infinity" = Num.Infinity false /\
  Num.parseFloat "1e400" = Num.Infinity false /\
  Num.parseFloat "1e-400" = Num.Zero false /\
  Num.parseFloat "5e-324" = Num.Finite false /\
  Num.parseFloat "2e-324" = Num.Zero false /\
  Num.parseFloat "1.7976931348623157e308" = Num.Finite false /\
  Num.parseFloat "1.7976931348623159e308" = Num.Infinity false.
Proof. vm_compute. repeat split. Qed.
(* ===================================================================== *)
(** ** The pattern matcher *)
(* ===================================================================== *)

Module RegexFacts.
Import Regex.

Lemma append_empty (a b : string) : (a +:+ b)%string = "" -> a = "" /\ b = "".
Proof. destruct a; simpl; [auto|discriminate]. Qed.

Lemma nullable_matches r : nullable r = true <-> matches r "".
Proof.
  split.
  - induction r; simpl; intros H; try discriminate.
    + constructor.
    + apply andb_true_iff in H as [H1 H2].
      change "" with ("" +:+ "")%string. constructor; auto.
    + apply orb_true_iff in H as [H|H];
        [apply m_alt_l|apply m_alt_r]; auto.
    + constructor.
  - remember "" as w eqn:E. induction 1; simpl; try reflexivity;
      try discriminate.
    + apply append_empty in E as [-> ->]. now rewrite IHmatches1, IHmatches2.
    + rewrite IHmatches by exact E. reflexivity.
    + rewrite IHmatches by exact E. apply orb_true_r.
Qed.

Lemma deriv_sound c r : forall s, matches (deriv c r) s -> matches r (String c s).
Proof.
  induction r; simpl; intros s H.
  - inversion H.
  - inversion H.
  - destruct (p c) eqn:E; inversion H; subst. now constructor.
  - destruct (nullable r1) eqn:N.
    + inversion H as [| | |? ? ? H'| ? ? ? H'| |]; subst.
      * inversion H' as [| |? ? s1 s2 Ha Hb| | | |]; subst.
        change (String c (s1 +:+ s2)) with (String c s1 +:+ s2)%string.
        constructor; auto.
      * change (String c s) with ("" +:+ String c s)%string.
        constructor; [now apply nullable_matches|auto].
    + inversion H as [| |? ? s1 s2 Ha Hb| | | |]; subst.
      change (String c (s1 +:+ s2)) with (String c s1 +:+ s2)%string.
      constructor; auto.
  - inversion H; subst; [apply m_alt_l|apply m_alt_r]; auto.
  - inversion H as [| |? ? s1 s2 Ha Hb| | | |]; subst.
    change (String c (s1 +:+ s2)) with (String c s1 +:+ s2)%string.
    constructor; auto.
Qed.

Lemma deriv_complete c r w :
  matches r w -> forall s, w = String c s -> matches (deriv c r) s.
Proof.
  induction 1 as [|p c0 Hp|a b s1 t Ha IHa Hb IHb|a b s1 Ha IHa
                  |a b s1 Hb IHb|a|a s1 t Ha IHa Hs IHs];
    intros s E; simpl.
  - discriminate.
  - injection E as -> <-. rewrite Hp. constructor.
  - destruct s1 as [|x s1'].
    + change ("" +:+ t)%string with t in E. subst t.
      rewrite (proj2 (nullable_matches a) Ha). apply m_alt_r. now apply IHb.
    + change (String x s1' +:+ t)%string with (String x (s1' +:+ t)) in E.
      injection E as -> <-.
      assert (H1 : matches (Seq (deriv c a) b) (s1' +:+ t)%string)
        by (constructor; auto).
      destruct (nullable a); [now apply m_alt_l|exact H1].
  - apply m_alt_l. now apply IHa.
  - apply m_alt_r. now apply IHb.
  - discriminate.
  - destruct s1 as [|x s1'].
    + change ("" +:+ t)%string with t in E. now apply IHs.
    + change (String x s1' +:+ t)%string with (String x (s1' +:+ t)) in E.
      injection E as -> <-. constructor; auto.
Qed.

(** The matcher decides the meaning of the pattern. *)
Theorem test_matches r s : test r s = true <-> matches r s.
Proof.
  revert r. induction s as [|c s IH]; intros r; simpl.
  - apply nullable_matches.
  - rewrite IH. split.
    + apply deriv_sound.
    + intros H. now apply (deriv_complete c r (String c s)).
Qed.

End RegexFacts.

(* ===================================================================== *)
(** ** The rules of the validator *)
(* ===================================================================== *)

Lemma isNaN_le_zero (x : Num.number) :
  Num.isNaN x || Num.le_zero x = negb (Num.gt_zero x).
Proof. destruct x as [|[]|[]|[]]; reflexivity. Qed.

Lemma eqb_true (a b : string) : Str.eqb a b = true <-> a = b.
Proof. unfold Str.eqb. apply bool_decide_eq_true. Qed.

Lemma eqb_false (a b : string) : Str.eqb a b = false <-> a <> b.
Proof. unfold Str.eqb. apply bool_decide_eq_false. Qed.

Lemma eqb_refl (a : string) : Str.eqb a a = true.
Proof. apply eqb_true. reflexivity. Qed.

Lemma truthy_false (s : string) : Str.truthy s = false <-> s = "".
Proof. destruct s; simpl; split; congruence. Qed.

Lemma truthy_true (s : string) : Str.truthy s = true <-> s <> "".
Proof. destruct s; simpl; split; congruence. Qed.

(** The sequence of blocks of [validateField] keeps the message of the
    last rule that fails. *)
Lemma failures_unfold doc e :
  failures doc e =
  omap id [rule_required doc e; rule_email doc e; rule_phone doc e;
           rule_password1 doc e; rule_password2 doc e; rule_price doc e].
Proof. reflexivity. Qed.

Lemma last_cons_some {A} (x : A) (r : list A) :
  last (x :: r) = match last r with Some y => Some y | None => Some x end.
Proof.
  revert x. induction r as [|y r IH]; intros x; [reflexivity|].
  change (last (x :: y :: r)) with (last (y :: r)).
  rewrite (IH y). destruct (last r); reflexivity.
Qed.

Lemma fold_overwrite (l : list (option string)) (v : bool * string) :
  fold_left overwrite l v =
  match last (omap id l) with
  | Some m => (false, m)
  | None => v
  end.
Proof.
  revert v. induction l as [|o l IH]; intros v; [reflexivity|].
  simpl fold_left. rewrite IH. destruct o as [m|]; cbn [overwrite].
  - change (omap id (Some m :: l)) with (m :: omap id l).
    rewrite last_cons_some. destruct (last (omap id l)); reflexivity.
  - reflexivity.
Qed.

Lemma block_guarded (c t : bool) (m : string) (v : bool * string) :
  (if c then if t then (false, m) else v else v) =
  overwrite v (if c && t then Some m else None).
Proof. destruct c, t; reflexivity. Qed.

Lemma block_plain (c : bool) (m : string) (v : bool * string) :
  (if c then (false, m) else v) = overwrite v (if c then Some m else None).
Proof. destruct c; reflexivity. Qed.

Lemma checkField_blocks doc e :
  checkField doc e =
  fold_left overwrite
    [rule_required doc e; rule_email doc e; rule_phone doc e;
     rule_password1 doc e; rule_password2 doc e; rule_price doc e]
    (true, "").
Proof.
  unfold checkField, rule_required, rule_email, rule_phone, rule_password1,
    rule_password2, rule_price, field_value, field_name.
  rewrite isNaN_le_zero. cbv zeta. cbn [fold_left].
  rewrite !block_guarded, block_plain.
  destruct (Str.eqb (Dom.name e) "password2" &&
            Str.truthy (Str.trim (Dom.value e))); [|reflexivity].
  destruct (document_querySelector_name "password1" doc) as [p1|];
    [|reflexivity].
  rewrite block_plain. reflexivity.
Qed.

Lemma checkField_last_failing doc e :
  checkField doc e = last_failing doc e.
Proof.
  rewrite checkField_blocks, fold_overwrite.
  unfold last_failing. rewrite failures_unfold. reflexivity.
Qed.

(* ===================================================================== *)
(** ** The document tree *)
(* ===================================================================== *)

Module DomFacts.
Import Dom.
Local Open Scope list_scope.

(** Induction on forests: a node is reached after its children and after
    the trees that follow it. *)
Lemma forest_ind (P : list node -> Prop) :
  P [] ->
  (forall h e ks f, P ks -> P f -> P (Node h e ks :: f)) ->
  forall f, P f.
Proof.
  intros Hnil Hcons.
  assert (aux : forall n f, P f -> P (n :: f)).
  { fix aux 1. intros [h e ks] f Pf. apply Hcons; [|exact Pf].
    induction ks as [|k r IH]; [exact Hnil|]. apply aux. exact IH. }
  intros f. induction f as [|n r IH]; [exact Hnil|]. now apply aux.
Qed.

Lemma preorder_cons h e ks f :
  preorder (Node h e ks :: f) = Node h e ks :: preorder ks ++ preorder f.
Proof. reflexivity. Qed.

Lemma preorder_app f g : preorder (f ++ g) = preorder f ++ preorder g.
Proof. unfold preorder. apply flat_map_app. Qed.

Lemma descendants_preorder n : descendants n = preorder (children n).
Proof. destruct n; reflexivity. Qed.

Lemma handles_cons h e ks f :
  handles (Node h e ks :: f) = h :: handles ks ++ handles f.
Proof. unfold handles. rewrite preorder_cons. simpl. now rewrite map_app. Qed.

Lemma handles_app f g : handles (f ++ g) = handles f ++ handles g.
Proof. unfold handles. now rewrite preorder_app, map_app. Qed.

(** *** Sub-forests *)

Lemma children_in_preorder n f :
  n ∈ preorder f -> forall k, k ∈ children n -> k ∈ preorder f.
Proof.
  revert n. induction f as [|h e ks f IHks IHf] using forest_ind; intros n Hn k Hk.
  - inversion Hn.
  - rewrite preorder_cons in *.
    apply elem_of_cons in Hn as [->|Hn].
    + simpl in Hk. apply elem_of_cons. right. apply elem_of_app. left.
      clear -Hk. induction ks as [|x ks IH]; [inversion Hk|].
      apply elem_of_cons in Hk as [->|Hk]; destruct x; rewrite preorder_cons.
      * apply elem_of_cons; now left.
      * apply elem_of_cons; right. apply elem_of_app; right. auto.
    + apply elem_of_cons. right. apply elem_of_app.
      apply elem_of_app in Hn as [Hn|Hn]; [left|right]; eauto.
Qed.

(** The subtree of a node of a forest is a segment of its document
    order. *)
Lemma subtree_segment n f :
  n ∈ preorder f ->
  exists l1 l2, preorder f = l1 ++ subtree n ++ l2.
Proof.
  induction f as [|h e ks f IHks IHf] using forest_ind; intros Hn.
  - inversion Hn.
  - rewrite preorder_cons in *.
    apply elem_of_cons in Hn as [->|Hn].
    + exists [], (preorder f). reflexivity.
    + apply elem_of_app in Hn as [Hn|Hn].
      * destruct (IHks Hn) as (l1 & l2 & E).
        exists (Node h e ks :: l1), (l2 ++ preorder f).
        rewrite E. cbn [app]. rewrite <- ?app_assoc. reflexivity.
      * destruct (IHf Hn) as (l1 & l2 & E).
        exists (Node h e ks :: preorder ks ++ l1), l2.
        rewrite E. cbn [app]. rewrite <- ?app_assoc. reflexivity.
Qed.

Lemma subtree_incl n f m :
  n ∈ preorder f -> m ∈ subtree n -> m ∈ preorder f.
Proof.
  intros Hn Hm. destruct (subtree_segment n f Hn) as (l1 & l2 & ->).
  apply elem_of_app. right. apply elem_of_app. now left.
Qed.

Lemma subtree_NoDup n f :
  NoDup (handles f) -> n ∈ preorder f -> NoDup (List.map handle (subtree n)).
Proof.
  intros ND Hn. destruct (subtree_segment n f Hn) as (l1 & l2 & E).
  unfold handles in ND. rewrite E, !map_app in ND.
  apply NoDup_app in ND as (_ & _ & ND).
  apply NoDup_app in ND as (ND & _ & _). exact ND.
Qed.

Lemma elem_of_map {A B} (g : A -> B) (l : list A) (x : A) :
  x ∈ l -> g x ∈ List.map g l.
Proof. rewrite !list_elem_of_In. apply in_map. Qed.

Lemma elem_of_map_inv {A B} (g : A -> B) (l : list A) (y : B) :
  y ∈ List.map g l -> exists x, g x = y /\ x ∈ l.
Proof.
  rewrite list_elem_of_In, in_map_iff. intros (x & E & H).
  exists x. now rewrite list_elem_of_In.
Qed.

(** Two nodes of a well-formed forest with the same handle are the same
    node. *)
Lemma handle_inj f n m :
  NoDup (handles f) -> n ∈ preorder f -> m ∈ preorder f ->
  handle n = handle m -> n = m.
Proof.
  unfold handles. generalize (preorder f). intros l ND.
  induction l as [|x l IH]; intros Hn Hm E; [inversion Hn|].
  simpl in ND. apply NoDup_cons in ND as [Hx ND].
  apply elem_of_cons in Hn as [->|Hn]; apply elem_of_cons in Hm as [->|Hm];
    auto.
  - exfalso. apply Hx. rewrite E. now apply elem_of_map.
  - exfalso. apply Hx. rewrite <- E. now apply elem_of_map.
Qed.

(** *** Searching in document order *)

Lemma find_app {A} (P : A -> bool) (l1 l2 : list A) :
  List.find P (l1 ++ l2) =
  match List.find P l1 with
  | Some x => Some x
  | None => List.find P l2
  end.
Proof.
  induction l1 as [|x l1 IH]; [reflexivity|].
  simpl. destruct (P x); [reflexivity|apply IH].
Qed.

Lemma find_map {A B} (P : B -> bool) (g : A -> B) (l : list A) :
  List.find P (List.map g l) = option_map g (List.find (fun x => P (g x)) l).
Proof.
  induction l as [|x l IH]; [reflexivity|].
  simpl. destruct (P (g x)); [reflexivity|apply IH].
Qed.

Lemma find_ext {A} (P Q : A -> bool) (l : list A) :
  (forall x, x ∈ l -> P x = Q x) -> List.find P l = List.find Q l.
Proof.
  induction l as [|x l IH]; intros H; [reflexivity|].
  simpl. rewrite (H x) by (apply elem_of_cons; now left).
  destruct (Q x); [reflexivity|].
  apply IH. intros y Hy. apply H. apply elem_of_cons. now right.
Qed.

Lemma find_none {A} (P : A -> bool) (l : list A) :
  (forall x, x ∈ l -> P x = false) -> List.find P l = None.
Proof.
  induction l as [|x l IH]; intros H; [reflexivity|].
  simpl. rewrite (H x) by (apply elem_of_cons; now left).
  apply IH. intros y Hy. apply H. apply elem_of_cons. now right.
Qed.

Lemma find_some {A} (P : A -> bool) (l : list A) (x : A) :
  List.find P l = Some x -> x ∈ l /\ P x = true.
Proof.
  intros H. apply List.find_some in H as [H1 H2].
  split; [now apply list_elem_of_In|exact H2].
Qed.

Lemma find_none_inv {A} (P : A -> bool) (l : list A) (x : A) :
  List.find P l = None -> x ∈ l -> P x = false.
Proof.
  intros H Hx. apply list_elem_of_In in Hx.
  exact (List.find_none P l H x Hx).
Qed.

(** In a list without two elements of the same key, the search for a key
    finds any element that has it. *)
Lemma find_unique {A} (key : A -> nat) (l : list A) (x : A) :
  NoDup (List.map key l) -> x ∈ l ->
  List.find (fun y => Nat.eqb (key y) (key x)) l = Some x.
Proof.
  induction l as [|y l IH]; intros ND Hx; [inversion Hx|].
  simpl in ND. apply NoDup_cons in ND as [Hy ND]. simpl.
  apply elem_of_cons in Hx as [->|Hx].
  - now rewrite Nat.eqb_refl.
  - destruct (Nat.eqb (key y) (key x)) eqn:E; [|now apply IH].
    apply Nat.eqb_eq in E. exfalso. apply Hy. rewrite E.
    now apply elem_of_map.
Qed.

(** *** [update] keeps the shape of the document *)

Section Update.
Variables (x : nat) (g : element -> element).
Let u := update x g.

Lemma update_handle n : handle (u n) = handle n.
Proof. destruct n; reflexivity. Qed.

Lemma update_children n : children (u n) = List.map u (children n).
Proof. destruct n; reflexivity. Qed.

Lemma preorder_update f : preorder (List.map u f) = List.map u (preorder f).
Proof.
  induction f as [|h e ks f IHks IHf] using forest_ind; [reflexivity|].
  simpl List.map at 1. unfold u at 1. simpl update. fold u.
  rewrite !preorder_cons, IHks, IHf. simpl. now rewrite map_app.
Qed.

Lemma descendants_update n : descendants (u n) = List.map u (descendants n).
Proof.
  rewrite !descendants_preorder, update_children. apply preorder_update.
Qed.

Lemma handles_update f : handles (List.map u f) = handles f.
Proof.
  unfold handles. rewrite preorder_update, List.map_map.
  apply List.map_ext. apply update_handle.
Qed.

Lemma lookup_update h f :
  lookup h (List.map u f) = option_map u (lookup h f).
Proof.
  unfold lookup. rewrite preorder_update, find_map. f_equal.
  apply find_ext. intros n _. now rewrite update_handle.
Qed.

Lemma has_child_update h n :
  existsb (fun k => Nat.eqb (handle k) h) (children (u n)) =
  existsb (fun k => Nat.eqb (handle k) h) (children n).
Proof.
  rewrite update_children. induction (children n) as [|k l IH];
    [reflexivity|].
  simpl. now rewrite update_handle, IH.
Qed.

Lemma parent_update h f :
  parent h (List.map u f) = option_map u (parent h f).
Proof.
  unfold parent. rewrite preorder_update, find_map. f_equal.
  apply find_ext. intros n _. apply has_child_update.
Qed.

End Update.

(** *** [prune] *)

Section Prune.
Variable d : nat.
Let pr := prune d.

Lemma prune_handle n : handle (pr n) = handle n.
Proof. destruct n; reflexivity. Qed.

Lemma prune_elem n : elem (pr n) = elem n.
Proof. destruct n; reflexivity. Qed.

Lemma prune_children n : children (pr n) = prune_forest d (children n).
Proof. destruct n; reflexivity. Qed.

Lemma prune_forest_cons h e ks f :
  prune_forest d (Node h e ks :: f) =
  if Nat.eqb h d then prune_forest d f
  else Node h e (prune_forest d ks) :: prune_forest d f.
Proof.
  unfold prune_forest. simpl. destruct (Nat.eqb h d); reflexivity.
Qed.

Lemma descendants_prune n :
  descendants (pr n) = preorder (prune_forest d (children n)).
Proof. now rewrite descendants_preorder, prune_children. Qed.

(** What is left after pruning comes from what was there, and nothing
    left has the pruned handle. *)
Lemma prune_origin f m :
  m ∈ preorder (prune_forest d f) ->
  exists m0, m0 ∈ preorder f /\ handle m0 <> d /\ m = pr m0.
Proof.
  revert m. induction f as [|h e ks f IHks IHf] using forest_ind; intros m Hm.
  - inversion Hm.
  - rewrite prune_forest_cons in Hm. rewrite preorder_cons.
    destruct (Nat.eqb h d) eqn:E.
    + destruct (IHf m Hm) as (m0 & H0 & H1 & H2). exists m0.
      split; [|auto]. apply elem_of_cons. right. apply elem_of_app. now right.
    + rewrite preorder_cons in Hm. apply Nat.eqb_neq in E.
      apply elem_of_cons in Hm as [->|Hm].
      * exists (Node h e ks). split; [apply elem_of_cons; now left|].
        split; [exact E|reflexivity].
      * apply elem_of_app in Hm as [Hm|Hm].
        -- destruct (IHks m Hm) as (m0 & H0 & H1 & H2). exists m0.
           split; [|auto]. apply elem_of_cons. right.
           apply elem_of_app. now left.
        -- destruct (IHf m Hm) as (m0 & H0 & H1 & H2). exists m0.
           split; [|auto]. apply elem_of_cons. right.
           apply elem_of_app. now right.
Qed.

Lemma handles_prune_sublist f :
  sublist (handles (prune_forest d f)) (handles f).
Proof.
  induction f as [|h e ks f IHks IHf] using forest_ind; [constructor|].
  rewrite prune_forest_cons, handles_cons.
  destruct (Nat.eqb h d).
  - apply sublist_cons. now apply sublist_inserts_l.
  - rewrite handles_cons. apply sublist_skip. now apply sublist_app.
Qed.

(** A search is not disturbed by the pruning when it looks for a
    property that pruning keeps and that no node of a pruned subtree
    has. *)
Lemma find_prune (Q : node -> bool) f :
  (forall m, Q (pr m) = Q m) ->
  (forall m, m ∈ preorder f -> handle m = d ->
     forall x, x ∈ subtree m -> Q x = false) ->
  List.find Q (preorder (prune_forest d f)) =
  option_map pr (List.find Q (preorder f)).
Proof.
  intros Hinv.
  induction f as [|h e ks f IHks IHf] using forest_ind; intros Hout;
    [reflexivity|].
  assert (Hks : forall m, m ∈ preorder ks -> handle m = d ->
             forall x, x ∈ subtree m -> Q x = false).
  { intros m Hm. apply Hout. rewrite preorder_cons. apply elem_of_cons.
    right. apply elem_of_app. now left. }
  assert (Hf : forall m, m ∈ preorder f -> handle m = d ->
             forall x, x ∈ subtree m -> Q x = false).
  { intros m Hm. apply Hout. rewrite preorder_cons. apply elem_of_cons.
    right. apply elem_of_app. now right. }
  rewrite prune_forest_cons, preorder_cons.
  destruct (Nat.eqb h d) eqn:E.
  - apply Nat.eqb_eq in E.
    assert (Hsub : forall x, x ∈ subtree (Node h e ks) -> Q x = false).
    { apply Hout; [|exact E]. rewrite preorder_cons. apply elem_of_cons.
      now left. }
    rewrite IHf by exact Hf.
    change (Node h e ks :: preorder ks ++ preorder f)
      with (subtree (Node h e ks) ++ preorder f).
    rewrite find_app, (find_none Q (subtree (Node h e ks)) Hsub).
    reflexivity.
  - rewrite preorder_cons. simpl List.find.
    change (Node h e (prune_forest d ks)) with (pr (Node h e ks)).
    rewrite Hinv. destruct (Q (Node h e ks)); [reflexivity|].
    rewrite !find_app, IHks, IHf by assumption.
    destruct (List.find Q (preorder ks)); reflexivity.
Qed.

End Prune.

(** *** [append] *)

Section Append.
Variables (h : nat) (c : node).
Let a := append h c.

Lemma append_handle n : handle (a n) = handle n.
Proof. destruct n; reflexivity. Qed.

Lemma append_elem n : elem (a n) = elem n.
Proof. destruct n; reflexivity. Qed.

Lemma append_children n :
  children (a n) =
  List.map a (children n) ++ (if Nat.eqb (handle n) h then [c] else []).
Proof. destruct n; reflexivity. Qed.

Lemma append_forest_cons g e ks f :
  List.map a (Node g e ks :: f) =
  Node g e (List.map a ks ++ (if Nat.eqb g h then [c] else []))
  :: List.map a f.
Proof. reflexivity. Qed.

(** Where the handle does not occur nothing is appended. *)
Lemma append_id f : h ∉ handles f -> List.map a f = f.
Proof.
  induction f as [|g e ks f IHks IHf] using forest_ind; intros H;
    [reflexivity|].
  rewrite handles_cons in H.
  apply not_elem_of_cons in H as [H1 H2].
  apply not_elem_of_app in H2 as [H2 H3].
  rewrite append_forest_cons, IHks, IHf by assumption.
  rewrite (proj2 (Nat.eqb_neq g h)) by congruence.
  now rewrite app_nil_r.
Qed.

Lemma find_append (Q : node -> bool) f :
  (forall m, Q (a m) = Q m) ->
  (forall x, x ∈ subtree c -> Q x = false) ->
  List.find Q (preorder (List.map a f)) =
  option_map a (List.find Q (preorder f)).
Proof.
  intros Hinv Hc.
  induction f as [|g e ks f IHks IHf] using forest_ind; [reflexivity|].
  rewrite append_forest_cons, !preorder_cons, preorder_app.
  simpl List.find.
  change (Node g e (List.map a ks ++ (if Nat.eqb g h then [c] else [])))
    with (a (Node g e ks)).
  rewrite Hinv. destruct (Q (Node g e ks)); [reflexivity|].
  rewrite !find_app, IHks, IHf.
  destruct (List.find Q (preorder ks)); [reflexivity|].
  simpl option_map.
  assert (E : List.find Q (preorder (if Nat.eqb g h then [c] else [])) = None).
  { destruct (Nat.eqb g h); [|reflexivity].
    apply find_none. intros x Hx. apply Hc.
    unfold preorder in Hx. simpl in Hx. now rewrite app_nil_r in Hx. }
  now rewrite E.
Qed.

(** The handles after an append: those of before, and those of the new
    subtree for every occurrence of the target. *)
Lemma handles_append f :
  handles (List.map a f) ≡ₚ
  handles f ++
  flat_map (fun x => if Nat.eqb x h then List.map handle (subtree c) else [])
    (handles f).
Proof.
  induction f as [|g e ks f IHks IHf] using forest_ind; [reflexivity|].
  rewrite append_forest_cons, !handles_cons, handles_app, IHks, IHf.
  simpl. apply Permutation_cons; [reflexivity|].
  rewrite flat_map_app.
  set (A := handles ks). set (B := handles f).
  set (FA := flat_map _ A). set (FB := flat_map _ B).
  assert (EX : handles (if Nat.eqb g h then [c] else []) =
               if Nat.eqb g h then List.map handle (subtree c) else []).
  { destruct (Nat.eqb g h); [|reflexivity].
    unfold handles, preorder. simpl. now rewrite app_nil_r. }
  rewrite EX. set (X := if Nat.eqb g h then _ else _).
  rewrite <- !app_assoc.
  apply Permutation_app_head.
  rewrite (Permutation_app_swap_app FA X).
  rewrite (Permutation_app_swap_app FA B).
  rewrite (Permutation_app_swap_app X B).
  reflexivity.
Qed.

Lemma flat_map_once (C : list nat) (l : list nat) :
  NoDup l ->
  flat_map (fun x => if Nat.eqb x h then C else []) l =
  if bool_decide (h ∈ l) then C else [].
Proof.
  induction l as [|x l IH]; intros ND; [reflexivity|].
  apply NoDup_cons in ND as [Hx ND]. simpl. rewrite IH by exact ND.
  destruct (Nat.eqb x h) eqn:E.
  - apply Nat.eqb_eq in E. subst x.
    rewrite (bool_decide_eq_false_2 (h ∈ l)) by exact Hx.
    rewrite bool_decide_eq_true_2 by (apply elem_of_cons; now left).
    apply app_nil_r.
  - apply Nat.eqb_neq in E. simpl.
    destruct (bool_decide (h ∈ l)) eqn:D.
    + apply bool_decide_eq_true in D.
      rewrite bool_decide_eq_true_2 by (apply elem_of_cons; now right).
      reflexivity.
    + apply bool_decide_eq_false in D.
      rewrite bool_decide_eq_false_2; [reflexivity|].
      intros H. apply elem_of_cons in H as [H|H]; congruence.
Qed.

End Append.

(** *** A field, its container and the other nodes *)

Lemma lookup_some h f n :
  lookup h f = Some n -> n ∈ preorder f /\ handle n = h.
Proof.
  intros H. apply find_some in H as [H1 H2].
  split; [exact H1|now apply Nat.eqb_eq].
Qed.

Lemma parent_some h f p :
  parent h f = Some p ->
  p ∈ preorder f /\ exists k, k ∈ children p /\ handle k = h.
Proof.
  intros H. apply find_some in H as [H1 H2]. split; [exact H1|].
  apply existsb_exists in H2 as (k & Hk & E).
  exists k. split; [now apply list_elem_of_In|now apply Nat.eqb_eq].
Qed.

Lemma lookup_unique f n :
  NoDup (handles f) -> n ∈ preorder f -> lookup (handle n) f = Some n.
Proof. intros ND Hn. now apply (find_unique handle). Qed.

(** The field is one of the children of its container. *)
Lemma field_in_container f field n p :
  NoDup (handles f) ->
  lookup field f = Some n -> parent field f = Some p ->
  n ∈ children p.
Proof.
  intros ND Hn Hp.
  apply lookup_some in Hn as [Hn En].
  apply parent_some in Hp as (Hp & k & Hk & Ek).
  assert (k = n) as <-; [|exact Hk].
  apply (handle_inj f); auto; [|congruence].
  eapply children_in_preorder; eauto.
Qed.

Lemma subtree_in_subtree n m x :
  m ∈ subtree n -> x ∈ subtree m -> x ∈ subtree n.
Proof.
  intros Hm Hx.
  assert (E : preorder [n] = subtree n).
  { unfold preorder, subtree. simpl. now rewrite app_nil_r. }
  rewrite <- E in *. eapply subtree_incl; eauto.
Qed.

(** A node under the container, other than the field, has the field
    nowhere in its subtree. *)
Lemma field_apart f field n p m :
  NoDup (handles f) ->
  lookup field f = Some n -> parent field f = Some p ->
  m ∈ descendants p -> m <> n ->
  forall x, x ∈ subtree m -> handle x <> field.
Proof.
  intros ND Hn Hp Hm Hne x Hx.
  pose proof (field_in_container f field n p ND Hn Hp) as Hin.
  apply lookup_some in Hn as [Hn En].
  apply parent_some in Hp as (Hp & _).
  pose proof (subtree_NoDup p f ND Hp) as NDp.
  unfold subtree in NDp. simpl in NDp. apply NoDup_cons in NDp as [_ NDp].
  rewrite descendants_preorder in NDp, Hm.
  apply list_elem_of_split in Hin as (c1 & c2 & Ec). rewrite Ec in *.
  rewrite preorder_app in NDp, Hm.
  destruct n as [g e ks]. rewrite preorder_cons in NDp, Hm.
  simpl in En. subst g.
  rewrite map_app in NDp. apply NoDup_app in NDp as (_ & D1 & NDp).
  simpl in NDp. apply NoDup_cons in NDp as [D2 _].
  rewrite map_app in D2. apply not_elem_of_app in D2 as [D2 D3].
  apply elem_of_app in Hm as [Hm|Hm].
  - intros E. apply (D1 field).
    + rewrite <- E. apply elem_of_map. eapply subtree_incl; eauto.
    + simpl. apply elem_of_cons. now left.
  - apply elem_of_cons in Hm as [Hm|Hm]; [congruence|].
    apply elem_of_app in Hm as [Hm|Hm].
    + intros E. apply D2. rewrite <- E. apply elem_of_map.
      eapply subtree_incl; eauto.
    + intros E. apply D3. rewrite <- E. apply elem_of_map.
      eapply subtree_incl; eauto.
Qed.

End DomFacts.

(* ===================================================================== *)
(** ** Error annotations *)
(* ===================================================================== *)

Module Annotation.
Import Dom DomFacts.
Local Open Scope list_scope.

Lemma remove_class_keeps e :
  bool_decide ("field-error" ∈ classList (remove_class "error" e)) =
  bool_decide ("field-error" ∈ classList e).
Proof.
  apply bool_decide_ext. unfold remove_class. simpl.
  rewrite !list_elem_of_In, filter_In, negb_true_iff, bool_decide_eq_false.
  intuition congruence.
Qed.

Lemma add_class_keeps e :
  bool_decide ("field-error" ∈ classList (add_class "error" e)) =
  bool_decide ("field-error" ∈ classList e).
Proof.
  apply bool_decide_ext. unfold add_class. simpl.
  destruct (bool_decide ("error" ∈ classList e)); [reflexivity|].
  rewrite elem_of_app, list_elem_of_singleton. intuition congruence.
Qed.

Lemma is_err_update field g n :
  (forall e, bool_decide ("field-error" ∈ classList (g e)) =
             bool_decide ("field-error" ∈ classList e)) ->
  is_err (update field g n) = is_err n.
Proof.
  intros H. destruct n as [h e ks]. unfold is_err, has_class. simpl.
  destruct (Nat.eqb h field); [apply H|reflexivity].
Qed.

Lemma field_name_update field g n :
  (forall e, field_name (g e) = field_name e) ->
  field_name (elem (update field g n)) = field_name (elem n).
Proof.
  intros H. destruct n as [h e ks]. simpl.
  destruct (Nat.eqb h field); [apply H|reflexivity].
Qed.

Lemma errors_in_update field g p :
  (forall e, bool_decide ("field-error" ∈ classList (g e)) =
             bool_decide ("field-error" ∈ classList e)) ->
  errors_in (update field g p) = List.map (update field g) (errors_in p).
Proof.
  intros H. unfold errors_in. rewrite descendants_update.
  fold is_err. induction (descendants p) as [|x l IH]; [reflexivity|].
  simpl. rewrite is_err_update by exact H.
  destruct (is_err x); simpl; now rewrite IH.
Qed.

Lemma find_filter {A} (P : A -> bool) (l : list A) :
  List.find P l = head (List.filter P l).
Proof.
  induction l as [|x l IH]; [reflexivity|].
  simpl. destruct (P x); [reflexivity|exact IH].
Qed.

(** What [clearFieldError] computes for a field that has a container. *)
Lemma clearFieldError_run field st p :
  parent field (document st) = Some p ->
  clearFieldError field st =
  (set_document
     (match List.find is_err (descendants p) with
      | Some d =>
          prune_forest (handle d)
            (List.map (update field (remove_class "error")) (document st))
      | None => List.map (update field (remove_class "error")) (document st)
      end) st, Ok tt).
Proof.
  intros Hp. unfold clearFieldError, bind, modify_document, modify,
    parentElement. simpl.
  rewrite parent_update, Hp. simpl.
  rewrite descendants_update, find_map.
  rewrite (find_ext _ is_err).
  2:{ intros x _. apply is_err_update, remove_class_keeps. }
  destruct (List.find is_err (descendants p)) as [d|]; simpl.
  - unfold modify_document, modify. simpl. now rewrite update_handle.
  - reflexivity.
Qed.

(** Without a container the call throws. *)
Lemma clearFieldError_detached field st :
  parent field (document st) = None ->
  snd (clearFieldError field st) = Throw TypeError.
Proof.
  intros Hp. unfold clearFieldError, bind, modify_document, modify,
    parentElement. simpl. rewrite parent_update, Hp. reflexivity.
Qed.

Lemma filter_none {A} (P : A -> bool) (l : list A) :
  (forall x, x ∈ l -> P x = false) -> List.filter P l = [].
Proof.
  induction l as [|x l IH]; intros H; [reflexivity|].
  simpl. rewrite (H x) by (apply elem_of_cons; now left).
  apply IH. intros y Hy. apply H. apply elem_of_cons. now right.
Qed.

Lemma has_child_prune d field m :
  field <> d ->
  existsb (fun k => Nat.eqb (handle k) field) (children (prune d m)) =
  existsb (fun k => Nat.eqb (handle k) field) (children m).
Proof.
  intros Hne. rewrite prune_children. unfold prune_forest.
  induction (children m) as [|k l IH]; [reflexivity|].
  simpl. rewrite prune_handle.
  destruct (Nat.eqb (handle k) d) eqn:E; simpl.
  - apply Nat.eqb_eq in E.
    rewrite (proj2 (Nat.eqb_neq (handle k) field)) by congruence.
    exact IH.
  - now rewrite prune_handle, IH.
Qed.

Lemma is_err_prune d m : is_err (prune d m) = is_err m.
Proof. unfold is_err, has_class. now rewrite prune_elem. Qed.

(** Pruning a node that lies under the container of a field, and is not
    the field, keeps the field and its container. *)
Lemma prune_keeps_field f field n p dn :
  NoDup (handles f) ->
  lookup field f = Some n -> parent field f = Some p ->
  dn ∈ descendants p -> dn <> n ->
  lookup field (prune_forest (handle dn) f) = Some (prune (handle dn) n) /\
  parent field (prune_forest (handle dn) f) = Some (prune (handle dn) p).
Proof.
  intros ND Hn Hp Hd Hne.
  pose proof (field_apart f field n p dn ND Hn Hp Hd Hne) as Hapart.
  assert (Hdf : dn ∈ preorder f).
  { apply parent_some in Hp as [Hp _]. eapply subtree_incl; eauto.
    unfold subtree. apply elem_of_cons. now right. }
  assert (Hsame : forall m, m ∈ preorder f -> handle m = handle dn -> m = dn).
  { intros m Hm E. now apply (handle_inj f). }
  assert (Hfd : field <> handle dn).
  { intros E. apply (Hapart dn); [|congruence].
    unfold subtree. apply elem_of_cons. now left. }
  split.
  - unfold lookup. rewrite find_prune.
    + fold (lookup field f). now rewrite Hn.
    + intros m. now rewrite prune_handle.
    + intros m Hm E x Hx. rewrite (Hsame m Hm E) in Hx.
      apply Nat.eqb_neq. now apply Hapart.
  - unfold parent. rewrite find_prune.
    + fold (parent field f). now rewrite Hp.
    + intros m. now apply has_child_prune.
    + intros m Hm E x Hx. rewrite (Hsame m Hm E) in Hx.
      destruct (existsb _ (children x)) eqn:Ex; [|reflexivity].
      apply existsb_exists in Ex as (k & Hk & Ek).
      apply Nat.eqb_eq in Ek. exfalso.
      apply (Hapart k); [|exact Ek].
      apply (subtree_in_subtree dn x); [exact Hx|].
      unfold subtree. apply elem_of_cons. right.
      rewrite descendants_preorder.
      apply list_elem_of_In in Hk.
      destruct (list_elem_of_split _ _ Hk) as (l1 & l2 & ->).
      rewrite preorder_app. apply elem_of_app. right.
      destruct k. rewrite preorder_cons. apply elem_of_cons. now left.
Qed.

(** After the only error node of a container is pruned, none is left. *)
Lemma prune_last_error p d0 :
  errors_in p = [d0] -> errors_in (prune (handle d0) p) = [].
Proof.
  intros E. unfold errors_in. apply filter_none. intros m Hm.
  rewrite descendants_prune in Hm.
  apply prune_origin in Hm as (m0 & H0 & H1 & ->).
  fold is_err. rewrite is_err_prune.
  destruct (is_err m0) eqn:Em; [|reflexivity].
  exfalso. apply H1.
  assert (Hin : m0 ∈ errors_in p).
  { unfold errors_in. apply list_elem_of_In, filter_In.
    split; [|exact Em].
    apply list_elem_of_In. now rewrite descendants_preorder. }
  rewrite E in Hin. apply list_elem_of_singleton in Hin. now subst.
Qed.

Lemma wf_update f fresh field g :
  wf f fresh -> wf (List.map (update field g) f) fresh.
Proof. unfold wf. now rewrite handles_update. Qed.

Lemma wf_prune f fresh d : wf f fresh -> wf (prune_forest d f) fresh.
Proof.
  intros [ND B]. pose proof (handles_prune_sublist d f) as S. split.
  - eapply sublist_NoDup; eauto.
  - rewrite Forall_forall in *. intros x Hx. apply B.
    eapply elem_of_sublist; eauto.
Qed.

Lemma errors_singleton p d0 :
  List.find is_err (descendants p) = Some d0 ->
  length (errors_in p) <= 1 -> errors_in p = [d0].
Proof.
  rewrite find_filter. unfold errors_in. fold is_err.
  destruct (List.filter is_err (descendants p)) as [|x [|y l]]; simpl;
    intros H L; [discriminate|congruence|lia].
Qed.

(** [clearFieldError] on a tidy field returns, leaves the field tidy and
    leaves no error node in its container. *)
Lemma clearFieldError_tidy field st :
  tidy field st ->
  exists st',
    clearFieldError field st = (st', Ok tt) /\
    tidy field st' /\
    field_errors field st' = [] /\
    unmarked field st' /\
    fresh st' = fresh st /\
    localStorage st' = localStorage st /\
    listeners st' = listeners st /\
    notifications st' = notifications st.
Proof.
  intros (Hwf & n & p & Hn & Hc & Hp & Hlen & Htxt).
  rewrite (clearFieldError_run field st p Hp).
  assert (Hu : has_class "error" (update field (remove_class "error") n)
               = false).
  { apply lookup_some in Hn as [_ En]. destruct n as [h e ks].
    simpl in En. subst h. unfold has_class. simpl. rewrite Nat.eqb_refl.
    simpl. apply bool_decide_eq_false.
    rewrite list_elem_of_In, filter_In, negb_true_iff, bool_decide_eq_false.
    intuition congruence. }
  set (u := update field (remove_class "error")).
  pose proof (wf_update _ _ field (remove_class "error") Hwf) as Hwf1.
  fold u in Hwf1.
  assert (Hn1 : lookup field (List.map u (document st)) = Some (u n))
    by (unfold u; now rewrite lookup_update, Hn).
  assert (Hp1 : parent field (List.map u (document st)) = Some (u p))
    by (unfold u; now rewrite parent_update, Hp).
  assert (He1 : errors_in (u p) = List.map u (errors_in p))
    by (apply errors_in_update, remove_class_keeps).
  assert (Hc1 : is_err (u n) = false).
  { unfold u. rewrite is_err_update by apply remove_class_keeps. exact Hc. }
  destruct (List.find is_err (descendants p)) as [d0|] eqn:Ef.
  - pose proof (errors_singleton p d0 Ef Hlen) as Es.
    apply find_some in Ef as [Hd0 Ed0].
    assert (Hdn : u d0 ∈ descendants (u p)).
    { unfold u. rewrite descendants_update. now apply elem_of_map. }
    assert (Hne : u d0 <> u n).
    { intros E. rewrite <- E in Hc1. unfold u in Hc1.
      rewrite is_err_update in Hc1 by apply remove_class_keeps. congruence. }
    destruct (prune_keeps_field _ field (u n) (u p) (u d0)
                (proj1 Hwf1) Hn1 Hp1 Hdn Hne) as [Hn2 Hp2].
    assert (Eh : handle (u d0) = handle d0) by apply update_handle.
    rewrite Eh in Hn2, Hp2.
    assert (Ee : errors_in (prune (handle d0) (u p)) = []).
    { rewrite <- Eh. apply prune_last_error. now rewrite He1, Es. }
    eexists. split; [reflexivity|]. split; [|split].
    + split; [apply wf_prune; exact Hwf1|].
      exists (prune (handle d0) (u n)), (prune (handle d0) (u p)).
      simpl. split; [exact Hn2|]. split; [now rewrite is_err_prune|].
      split; [exact Hp2|]. split; [rewrite Ee; simpl; lia|].
      rewrite prune_elem. unfold u. now rewrite field_name_update.
    + unfold field_errors. simpl. rewrite Hp2, Ee. reflexivity.
    + split; [|simpl; auto].
      exists (prune (handle d0) (u n)). simpl. split; [exact Hn2|].
      unfold has_class in *. now rewrite prune_elem.
  - assert (Ee : errors_in (u p) = []).
    { rewrite He1. unfold errors_in. fold is_err.
      rewrite find_filter in Ef.
      destruct (List.filter is_err (descendants p)); [reflexivity|discriminate]. }
    eexists. split; [reflexivity|]. split; [|split].
    + split; [exact Hwf1|]. exists (u n), (u p). simpl.
      split; [exact Hn1|]. split; [exact Hc1|]. split; [exact Hp1|].
      split; [rewrite Ee; simpl; lia|].
      unfold u. now rewrite field_name_update.
    + unfold field_errors. simpl. rewrite Hp1, Ee. reflexivity.
    + split; [|simpl; auto]. exists (u n). simpl. split; [exact Hn1|exact Hu].
Qed.

Lemma has_child_append h c field m :
  handle c <> field ->
  existsb (fun k => Nat.eqb (handle k) field) (children (append h c m)) =
  existsb (fun k => Nat.eqb (handle k) field) (children m).
Proof.
  intros Hne. rewrite append_children, existsb_app.
  assert (E : existsb (fun k => Nat.eqb (handle k) field)
                (if Nat.eqb (handle m) h then [c] else []) = false).
  { destruct (Nat.eqb (handle m) h); [|reflexivity]. simpl.
    rewrite (proj2 (Nat.eqb_neq (handle c) field)) by exact Hne.
    reflexivity. }
  rewrite E, orb_false_r.
  induction (children m) as [|k l IH]; [reflexivity|].
  simpl. now rewrite append_handle, IH.
Qed.

(** Appending a new leaf-like subtree under the container keeps the
    field and its container. *)
Lemma append_keeps_field f field h c :
  (forall x, x ∈ subtree c -> handle x <> field) ->
  lookup field (List.map (append h c) f) =
    option_map (append h c) (lookup field f) /\
  parent field (List.map (append h c) f) =
    option_map (append h c) (parent field f).
Proof.
  intros Hc.
  assert (Hcf : handle c <> field).
  { apply Hc. unfold subtree. apply elem_of_cons. now left. }
  split.
  - unfold lookup. apply find_append.
    + intros m. now rewrite append_handle.
    + intros x Hx. apply Nat.eqb_neq. now apply Hc.
  - unfold parent. apply find_append.
    + intros m. now apply has_child_append.
    + intros x Hx.
      destruct (existsb _ (children x)) eqn:Ex; [|reflexivity].
      apply existsb_exists in Ex as (k & Hk & Ek).
      apply Nat.eqb_eq in Ek. exfalso. apply (Hc k); [|exact Ek].
      apply (subtree_in_subtree c x); [exact Hx|].
      unfold subtree. apply elem_of_cons. right.
      rewrite descendants_preorder. apply list_elem_of_In in Hk.
      destruct (list_elem_of_split _ _ Hk) as (l1 & l2 & ->).
      rewrite preorder_app. apply elem_of_app. right.
      destruct k. rewrite preorder_cons. apply elem_of_cons. now left.
Qed.

(** The descendants of the container after the append. *)
Lemma descendants_append f p c :
  NoDup (handles f) -> p ∈ preorder f ->
  children (append (handle p) c p) = children p ++ [c] /\
  descendants (append (handle p) c p) = descendants p ++ subtree c.
Proof.
  intros ND Hp.
  pose proof (subtree_NoDup p f ND Hp) as NDp.
  unfold subtree in NDp. simpl in NDp. apply NoDup_cons in NDp as [Hh _].
  rewrite descendants_preorder in Hh.
  assert (E : children (append (handle p) c p) = children p ++ [c]).
  { rewrite append_children, Nat.eqb_refl.
    now rewrite (append_id (handle p) c (children p) Hh). }
  split; [exact E|].
  rewrite !descendants_preorder, E, preorder_app.
  f_equal. unfold preorder, subtree. simpl. now rewrite app_nil_r.
Qed.

Lemma wf_append f fresh h c :
  wf f fresh ->
  List.map handle (subtree c) = [fresh; S fresh] ->
  wf (List.map (append h c) f) (S (S fresh)).
Proof.
  intros [ND B] Ec.
  pose proof (handles_append h c f) as P.
  rewrite (flat_map_once h _ _ ND), Ec in P.
  assert (B' : Forall (fun x => x < S (S fresh)) (handles f)).
  { eapply Forall_impl; [exact B|]. simpl. intros. lia. }
  destruct (bool_decide (h ∈ handles f)).
  - split.
    + rewrite P. apply NoDup_app. split; [exact ND|]. split.
      * intros x Hx Hx'. rewrite Forall_forall in B. specialize (B x Hx).
        apply elem_of_cons in Hx' as [->|Hx']; [lia|].
        apply list_elem_of_singleton in Hx'. lia.
      * apply NoDup_cons. split; [|apply NoDup_singleton].
        rewrite list_elem_of_singleton. lia.
    + rewrite P. apply Forall_app. split; [exact B'|].
      repeat constructor; lia.
  - rewrite app_nil_r in P. split; rewrite P; assumption.
Qed.

Lemma handle_below f fresh h n :
  wf f fresh -> lookup h f = Some n -> h < fresh.
Proof.
  intros [_ B] Hn. apply lookup_some in Hn as [Hn <-].
  rewrite Forall_forall in B. apply B. now apply elem_of_map.
Qed.

(** [showFieldError] on a tidy field returns, leaves the field tidy and
    leaves exactly its annotation, as the last child of the container. *)
Lemma showFieldError_tidy field message st :
  tidy field st ->
  exists st',
    showFieldError field message st = (st', Ok tt) /\
    tidy field st' /\
    field_errors field st' = [error_html message] /\
    last_sibling field st' =
      Some (error_node (fresh st) (S (fresh st)) message) /\
    localStorage st' = localStorage st /\
    listeners st' = listeners st /\
    notifications st' = notifications st.
Proof.
  intros Ht.
  destruct (clearFieldError_tidy field st Ht)
    as (st1 & Hrun & (Hwf & n & p & Hn & Hc & Hp & Hlen & Htxt) & Herr & _
        & Hfr & Hls & Hli & Hno).
  unfold field_errors in Herr. rewrite Hp in Herr.
  assert (He : errors_in p = []).
  { destruct (errors_in p); [reflexivity|discriminate]. }
  clear Herr Hlen.
  set (m := update field (add_class "error")).
  set (c := error_node (fresh st1) (S (fresh st1)) message).
  pose proof (wf_update _ _ field (add_class "error") Hwf) as Hwf2.
  fold m in Hwf2.
  assert (Hn2 : lookup field (List.map m (document st1)) = Some (m n))
    by (unfold m; now rewrite lookup_update, Hn).
  assert (Hp2 : parent field (List.map m (document st1)) = Some (m p))
    by (unfold m; now rewrite parent_update, Hp).
  assert (He2 : errors_in (m p) = []).
  { unfold m. rewrite errors_in_update by apply add_class_keeps.
    now rewrite He. }
  assert (Hc2 : is_err (m n) = false).
  { unfold m. rewrite is_err_update by apply add_class_keeps. exact Hc. }
  assert (Hlt : field < fresh st1) by (eapply handle_below; eauto).
  assert (Hcs : forall x, x ∈ subtree c -> handle x <> field).
  { intros x Hx. unfold c, subtree, error_node in Hx. simpl in Hx.
    apply elem_of_cons in Hx as [->|Hx]; [simpl; lia|].
    apply list_elem_of_singleton in Hx. subst x. simpl. lia. }
  destruct (append_keeps_field (List.map m (document st1)) field
              (handle (m p)) c Hcs) as [Hn3 Hp3].
  rewrite Hn2 in Hn3. rewrite Hp2 in Hp3. simpl in Hn3, Hp3.
  assert (Hpin : m p ∈ preorder (List.map m (document st1))).
  { apply parent_some in Hp2 as [H _]. exact H. }
  destruct (descendants_append _ (m p) c (proj1 Hwf2) Hpin) as [Ek Ed].
  assert (Hwf3 : wf (List.map (append (handle (m p)) c)
                       (List.map m (document st1))) (S (S (fresh st1)))).
  { apply wf_append; [exact Hwf2|reflexivity]. }
  assert (He3 : errors_in (append (handle (m p)) c (m p)) = [c]).
  { unfold errors_in. rewrite Ed, List.filter_app. fold is_err.
    change (List.filter is_err (descendants (m p))) with (errors_in (m p)).
    rewrite He2. reflexivity. }
  exists (set_document
            (List.map (append (handle (m p)) c) (List.map m (document st1)))
            (set_fresh (S (S (fresh st1))) st1)).
  split.
  { unfold showFieldError, bind. rewrite Hrun.
    unfold createElement, modify_document, modify, parentElement. simpl.
    fold m. rewrite Hp2. reflexivity. }
  split.
  { split; [exact Hwf3|].
    exists (append (handle (m p)) c (m n)),
           (append (handle (m p)) c (m p)).
    simpl. split; [exact Hn3|].
    split; [unfold is_err, has_class in *; now rewrite append_elem|].
    split; [exact Hp3|]. split; [rewrite He3; simpl; lia|].
    rewrite append_elem. unfold m. now rewrite field_name_update. }
  split.
  { unfold field_errors. simpl. rewrite Hp3, He3. reflexivity. }
  split.
  { unfold last_sibling. simpl. rewrite Hp3, Ek, last_snoc.
    unfold c. now rewrite Hfr. }
  simpl. auto.
Qed.

(** [validateField] on a tidy field returns the verdict of the six
    blocks and leaves the message of that verdict as the only annotation
    of the field. *)
Lemma validateField_tidy field st n :
  tidy field st ->
  lookup field (document st) = Some n ->
  exists st',
    validateField field st =
      (st', Ok (fst (checkField (document st) (elem n)))) /\
    tidy field st' /\
    field_errors field st' =
      (if fst (checkField (document st) (elem n)) then []
       else [error_html (snd (checkField (document st) (elem n)))]) /\
    localStorage st' = localStorage st /\
    listeners st' = listeners st.
Proof.
  intros Ht Hn. unfold validateField, bind, element_of, get. rewrite Hn.
  destruct (checkField (document st) (elem n)) as [isValid msg]. simpl.
  destruct isValid; simpl.
  - destruct (clearFieldError_tidy field st Ht)
      as (st' & -> & Ht' & He & _ & _ & Hs & Hl & _).
    exists st'. auto.
  - destruct (showFieldError_tidy field msg st Ht)
      as (st' & -> & Ht' & He & _ & Hs & Hl & _).
    exists st'. auto.
Qed.

(** The sample pages are tidy for their first fields. *)
Ltac tidy_sample :=
  split;
  [ split; [apply (bool_decide_unpack _); vm_compute; exact I
           |apply (bool_decide_unpack _); vm_compute; exact I]
  | eexists _, _; split; [reflexivity|]; split; [reflexivity|];
    split; [reflexivity|]; split; [vm_compute; lia|reflexivity] ].

Lemma tidy_empty_price : tidy 1 Sample.empty_price.
Proof. tidy_sample. Qed.

Lemma tidy_email_phone : tidy 1 Sample.email_phone.
Proof. tidy_sample. Qed.

Lemma tidy_price v : tidy 1 (Sample.price v).
Proof. tidy_sample. Qed.

Lemma tidy_lone_password2 : tidy 1 Sample.lone_password2.
Proof. tidy_sample. Qed.

Lemma tidy_passwords p1 p2 : tidy 2 (Sample.passwords p1 p2).
Proof. tidy_sample. Qed.

Lemma tidy_two_forms : tidy 4 Sample.two_forms.
Proof. tidy_sample. Qed.

(** *** The discipline of the annotations *)

Lemma update_id f field g :
  (forall m, m ∈ preorder f -> handle m = field -> g (elem m) = elem m) ->
  List.map (update field g) f = f.
Proof.
  induction f as [|h e ks f IHks IHf] using forest_ind; intros H;
    [reflexivity|].
  simpl. f_equal.
  - f_equal.
    + destruct (Nat.eqb h field) eqn:E; [|reflexivity].
      apply Nat.eqb_eq in E.
      apply (H (Node h e ks)); [|exact E].
      rewrite preorder_cons. apply elem_of_cons. now left.
    + apply IHks. intros m Hm. apply H. rewrite preorder_cons.
      apply elem_of_cons. right. apply elem_of_app. now left.
  - apply IHf. intros m Hm. apply H. rewrite preorder_cons.
    apply elem_of_cons. right. apply elem_of_app. now right.
Qed.

Lemma filter_all {A} (P : A -> bool) (l : list A) :
  (forall x, x ∈ l -> P x = true) -> List.filter P l = l.
Proof.
  induction l as [|x l IH]; intros H; [reflexivity|].
  simpl. rewrite (H x) by (apply elem_of_cons; now left).
  f_equal. apply IH. intros y Hy. apply H. apply elem_of_cons. now right.
Qed.

Lemma remove_class_id e :
  "error" ∉ classList e -> remove_class "error" e = e.
Proof.
  intros H. destruct e. unfold remove_class. simpl in *. f_equal.
  apply filter_all. intros x Hx. apply negb_true_iff, bool_decide_eq_false.
  intros ->. contradiction.
Qed.

Lemma set_document_same st : set_document (document st) st = st.
Proof. destruct st; reflexivity. Qed.

(** On a field that is clear, [clearFieldError] changes nothing. *)
Lemma clearFieldError_noop field st :
  tidy field st -> field_errors field st = [] -> unmarked field st ->
  clearFieldError field st = (st, Ok tt).
Proof.
  intros (Hwf & n & p & Hn & Hc & Hp & Hlen & Htxt) He (n' & Hn' & Hu).
  rewrite Hn in Hn'. injection Hn' as <-.
  rewrite (clearFieldError_run field st p Hp).
  unfold field_errors in He. rewrite Hp in He.
  assert (Ee : errors_in p = [])
    by (destruct (errors_in p); [reflexivity|discriminate]).
  rewrite find_filter.
  change (List.filter is_err (descendants p)) with (errors_in p).
  rewrite Ee. simpl.
  rewrite update_id; [now rewrite set_document_same|].
  intros m Hm Em. apply remove_class_id.
  apply lookup_some in Hn as [Hn <-].
  rewrite (handle_inj _ m n (proj1 Hwf) Hm Hn Em).
  unfold has_class in Hu. now apply bool_decide_eq_false in Hu.
Qed.

Lemma tidy_at_most_one field st :
  tidy field st -> length (field_errors field st) <= 1.
Proof.
  intros (_ & n & p & _ & _ & Hp & Hlen & _).
  unfold field_errors. rewrite Hp. now rewrite length_map.
Qed.

(** C9: from a state where the container of the field holds at most one
    error node (and the field is not one), every sequence of
    [showFieldError] and [clearFieldError] calls on the field, with
    messages that are text, returns and leaves at most one error node;
    after a [showFieldError] it is the node of the new message, appended
    as the last child of the container; after a [clearFieldError] there
    is none; and a second [clearFieldError] changes nothing and
    returns. *)
Theorem annotation_discipline field st :
  tidy field st ->
  (forall calls, Forall text_call calls -> exists st',
     run_calls field calls st = (st', Ok tt) /\
     tidy field st' /\
     length (field_errors field st') <= 1 /\
     match last calls with
     | Some (Show message) =>
         field_errors field st' = [error_html message] /\
         exists h icon,
           last_sibling field st' = Some (error_node h icon message)
     | Some Clear => field_errors field st' = []
     | None => True
     end) /\
  (exists st1,
     clearFieldError field st = (st1, Ok tt) /\
     clearFieldError field st1 = (st1, Ok tt)).
Proof.
  intros Ht. split.
  - intros calls _. revert st Ht.
    induction calls as [|c r IH]; intros st Ht.
    + exists st. split; [reflexivity|]. split; [exact Ht|].
      split; [now apply tidy_at_most_one|exact I].
    + assert (Hc : exists st1,
                run_call field c st = (st1, Ok tt) /\ tidy field st1 /\
                match c with
                | Show message =>
                    field_errors field st1 = [error_html message] /\
                    exists h icon,
                      last_sibling field st1 =
                        Some (error_node h icon message)
                | Clear => field_errors field st1 = []
                end).
      { destruct c as [message|]; simpl.
        - destruct (showFieldError_tidy field message st Ht)
            as (st1 & Hr & Ht1 & He & Hl & _).
          exists st1. split; [exact Hr|]. split; [exact Ht1|].
          split; [exact He|]. eexists _, _. exact Hl.
        - destruct (clearFieldError_tidy field st Ht)
            as (st1 & Hr & Ht1 & He & _).
          exists st1. auto. }
      destruct Hc as (st1 & Hr & Ht1 & Hpost).
      destruct (IH st1 Ht1) as (st' & Hr' & Ht' & Hlen & Hlast).
      exists st'. split.
      { unfold run_calls in *. simpl. unfold bind. now rewrite Hr. }
      split; [exact Ht'|]. split; [exact Hlen|].
      destruct r as [|c' r'].
      * unfold run_calls in Hr'. simpl in Hr'. injection Hr' as <-.
        exact Hpost.
      * change (last (c :: c' :: r')) with (last (c' :: r')). exact Hlast.
  - destruct (clearFieldError_tidy field st Ht)
      as (st1 & Hr & Ht1 & He & Hu & _).
    exists st1. split; [exact Hr|].
    now apply clearFieldError_noop.
Qed.

Lemma annotation_discipline_witness :
  exists st',
    run_calls 1 [Show "one"; Clear; Clear; Show "two"] Sample.empty_price =
      (st', Ok tt) /\
    field_errors 1 st' = [error_html "two"].
Proof.
  destruct (annotation_discipline 1 Sample.empty_price tidy_empty_price)
    as [H _].
  destruct (H [Show "one"; Clear; Clear; Show "two"])
    as (st' & Hr & _ & _ & He & _).
  { repeat constructor. }
  exists st'. split; [exact Hr|exact He].
Defined.

End Annotation.

(* ===================================================================== *)
(** ** The verdicts of the validator *)
(* ===================================================================== *)

Module Validator.
Import DomFacts Annotation.

Lemma rule_required_off doc e :
  field_value e <> "" -> rule_required doc e = None.
Proof.
  intros H. unfold rule_required.
  rewrite (proj2 (truthy_true _) H). now rewrite andb_false_r.
Qed.

Lemma rule_email_off doc e : Dom.type e <> "email" -> rule_email doc e = None.
Proof.
  intros H. unfold rule_email. now rewrite (proj2 (eqb_false _ _) H).
Qed.

Lemma rule_phone_off doc e :
  Dom.name e <> "phone_number" -> rule_phone doc e = None.
Proof.
  intros H. unfold rule_phone. now rewrite (proj2 (eqb_false _ _) H).
Qed.

Lemma rule_password1_off doc e :
  Dom.name e <> "password1" -> rule_password1 doc e = None.
Proof.
  intros H. unfold rule_password1. now rewrite (proj2 (eqb_false _ _) H).
Qed.

Lemma rule_password2_off doc e :
  Dom.name e <> "password2" -> rule_password2 doc e = None.
Proof.
  intros H. unfold rule_password2. now rewrite (proj2 (eqb_false _ _) H).
Qed.

Lemma rule_price_off doc e :
  Dom.name e <> "price_per_day" -> rule_price doc e = None.
Proof.
  intros H. unfold rule_price. now rewrite (proj2 (eqb_false _ _) H).
Qed.

(** With an empty value only the first rule can fail. *)
Lemma failures_empty_value doc e :
  field_value e = "" -> failures doc e = omap id [rule_required doc e].
Proof.
  intros H. rewrite failures_unfold.
  unfold rule_email, rule_phone, rule_password1, rule_password2, rule_price.
  rewrite H. simpl Str.truthy. rewrite !andb_false_r.
  destruct (rule_required doc e); reflexivity.
Qed.

(** *** The price rule *)

Lemma checkField_price doc e :
  Dom.name e = "price_per_day" -> Dom.type e <> "email" ->
  field_value e <> "" ->
  checkField doc e =
  if Num.gt_zero (Num.parseFloat (field_value e)) then (true, "")
  else (false, "Please enter a valid price").
Proof.
  intros Hn Ht Hv. rewrite checkField_last_failing.
  unfold last_failing. rewrite failures_unfold.
  rewrite rule_required_off, rule_email_off, rule_phone_off,
    rule_password1_off, rule_password2_off by (rewrite ?Hn; done).
  unfold rule_price. rewrite Hn, eqb_refl, (proj2 (truthy_true _) Hv).
  destruct (Num.gt_zero _); reflexivity.
Qed.

(** C3, as the code has it: a non-empty [price_per_day] field (not an
    email input) passes exactly when [parseFloat] of its trimmed value,
    which reads the longest numeric prefix, is a number greater than 0;
    [Infinity] is such a number.  Otherwise the message is "Please enter
    a valid price".  The values 0, -5 and abc fail and 199.99 passes. *)
Theorem price_rule st field n :
  tidy field st ->
  Dom.lookup field (document st) = Some n ->
  Dom.name (Dom.elem n) = "price_per_day" ->
  Dom.type (Dom.elem n) <> "email" ->
  field_value (Dom.elem n) <> "" ->
  (exists st',
     validateField field st =
       (st', Ok (Num.gt_zero (Num.parseFloat (field_value (Dom.elem n))))) /\
     field_errors field st' =
       if Num.gt_zero (Num.parseFloat (field_value (Dom.elem n))) then []
       else [error_html "Please enter a valid price"]) /\
  Num.gt_zero (Num.parseFloat "0") = false /\
  Num.gt_zero (Num.parseFloat "-5") = false /\
  Num.gt_zero (Num.parseFloat "abc") = false /\
  Num.gt_zero (Num.parseFloat "199.99") = true.
Proof.
  intros Ht Hl Hn Hty Hv. split; [|repeat split; reflexivity].
  destruct (validateField_tidy field st n Ht Hl) as (st' & Hr & _ & He & _).
  rewrite (checkField_price _ _ Hn Hty Hv) in Hr, He.
  exists st'. destruct (Num.gt_zero _); simpl in *; auto.
Qed.

Lemma price_rule_witness :
  exists st',
    validateField 1 (Sample.price "0") = (st', Ok false) /\
    field_errors 1 st' = [error_html "Please enter a valid price"].
Proof.
  destruct (price_rule (Sample.price "0") 1
              (Dom.Node 1 (Sample.input "price_per_day" "text" "0" false) [])
              (tidy_price "0") eq_refl eq_refl) as [H _];
    [discriminate|discriminate|exact H].
Defined.

(** C3, as stated, fails: the value "Infinity" passes although it is
    not a finite number. *)
Lemma price_infinity_passes :
  snd (validateField 1 (Sample.price "Infinity")) = Ok true /\
  field_errors 1 (fst (validateField 1 (Sample.price "Infinity"))) = [] /\
  Num.is_finite (Num.parseFloat "Infinity") = false.
Proof. vm_compute. repeat split. Qed.

(** *** The required rule *)

Lemma checkField_required doc e :
  Dom.required e = true -> field_value e = "" ->
  checkField doc e =
  (false, Str.replace_first "_" " " (field_name e) ++ " is required").
Proof.
  intros Hr Hv. rewrite checkField_last_failing.
  unfold last_failing. rewrite (failures_empty_value _ _ Hv).
  unfold rule_required. rewrite Hr, Hv. reflexivity.
Qed.

(** A required field left empty fails, and the message carries the field
    name with its first underscore replaced. *)
Lemma required_rule st field n :
  tidy field st ->
  Dom.lookup field (document st) = Some n ->
  Dom.required (Dom.elem n) = true ->
  field_value (Dom.elem n) = "" ->
  exists st',
    validateField field st = (st', Ok false) /\
    field_errors field st' =
      [error_html (Str.replace_first "_" " " (field_name (Dom.elem n))
                   ++ " is required")].
Proof.
  intros Ht Hl Hr Hv.
  destruct (validateField_tidy field st n Ht Hl) as (st' & Hrun & _ & He & _).
  rewrite (checkField_required _ _ Hr Hv) in Hrun, He.
  exists st'. auto.
Qed.

(** C4 at the failing input: the required field [price_per_day], left
    empty, fails with "price per_day is required"; only the first
    underscore is replaced, where the documented message is "price per
    day is required". *)
Theorem required_message_keeps_later_underscores :
  snd (validateField 1 Sample.empty_price) = Ok false /\
  field_errors 1 (fst (validateField 1 Sample.empty_price)) =
    [error_html "price per_day is required"] /\
  Str.replace_all "_" " " "price_per_day" ++ " is required" =
    "price per day is required" /\
  Str.replace_first "_" " " "price_per_day" ++ " is required" <>
    Str.replace_all "_" " " "price_per_day" ++ " is required".
Proof.
  split; [reflexivity|]. split; [reflexivity|]. split; [reflexivity|].
  vm_compute. discriminate.
Qed.

(** *** The confirmation rule *)

Lemma checkField_password2 doc e :
  Dom.name e = "password2" -> Dom.type e <> "email" ->
  field_value e <> "" ->
  checkField doc e =
  match document_querySelector_name "password1" doc with
  | Some password1 =>
      if Str.eqb (field_value e) (Dom.value (Dom.elem password1))
      then (true, "") else (false, "Passwords do not match")
  | None => (true, "")
  end.
Proof.
  intros Hn Ht Hv. rewrite checkField_last_failing.
  unfold last_failing. rewrite failures_unfold.
  rewrite rule_required_off, rule_email_off, rule_phone_off,
    rule_password1_off, rule_price_off by (rewrite ?Hn; done).
  unfold rule_password2. rewrite Hn, eqb_refl, (proj2 (truthy_true _) Hv).
  simpl andb. cbv iota.
  destruct (document_querySelector_name "password1" doc) as [p1|];
    [|reflexivity].
  destruct (Str.eqb _ _); reflexivity.
Qed.

(** Without an element named [password1], only the address rule can
    fail a non-empty [password2] field, whatever its type. *)
Lemma checkField_lone_password2 doc e :
  Dom.name e = "password2" -> field_value e <> "" ->
  document_querySelector_name "password1" doc = None ->
  rule_password2 doc e = None /\
  checkField doc e =
  if negb (Str.eqb (Dom.type e) "email")
     || Regex.test emailRegex (field_value e)
  then (true, "") else (false, "Please enter a valid email address").
Proof.
  intros Hn Hv Hq.
  assert (H2 : rule_password2 doc e = None).
  { unfold rule_password2. rewrite Hq. destruct (_ && _); reflexivity. }
  split; [exact H2|]. rewrite checkField_last_failing.
  unfold last_failing. rewrite failures_unfold.
  rewrite H2, rule_required_off, rule_phone_off, rule_password1_off,
    rule_price_off by (rewrite ?Hn; done).
  unfold rule_email. rewrite (proj2 (truthy_true _) Hv), andb_true_r.
  destruct (Str.eqb (Dom.type e) "email"); [|reflexivity]. simpl.
  destruct (Regex.test _ _); reflexivity.
Qed.

(** C10, as the code has it: when the document has no element named
    [password1], the confirmation rule does not fail a non-empty
    [password2] field, of whatever type; the verdict is left to the
    address rule, the only other rule that can apply to it: the field
    passes, and nothing is annotated, unless it is an email input whose
    value is not an address. *)
Theorem password2_without_password1 st field n :
  tidy field st ->
  Dom.lookup field (document st) = Some n ->
  Dom.name (Dom.elem n) = "password2" ->
  field_value (Dom.elem n) <> "" ->
  document_querySelector_name "password1" (document st) = None ->
  rule_password2 (document st) (Dom.elem n) = None /\
  exists st',
    validateField field st =
      (st', Ok (negb (Str.eqb (Dom.type (Dom.elem n)) "email")
                || Regex.test emailRegex (field_value (Dom.elem n)))) /\
    field_errors field st' =
      if negb (Str.eqb (Dom.type (Dom.elem n)) "email")
         || Regex.test emailRegex (field_value (Dom.elem n))
      then [] else [error_html "Please enter a valid email address"].
Proof.
  intros Ht Hl Hn Hv Hq.
  destruct (checkField_lone_password2 _ _ Hn Hv Hq) as [H2 Hc].
  split; [exact H2|].
  destruct (validateField_tidy field st n Ht Hl)
    as (st' & Hrun & _ & He & _).
  rewrite Hc in Hrun, He.
  exists st'. destruct (_ || _); simpl in *; auto.
Qed.

Lemma password2_without_password1_witness :
  rule_password2 (document Sample.lone_password2)
    (Sample.input "password2" "password" "secret12" false) = None /\
  exists st',
    validateField 1 Sample.lone_password2 = (st', Ok true) /\
    field_errors 1 st' = [].
Proof.
  apply (password2_without_password1 Sample.lone_password2 1
           (Dom.Node 1 (Sample.input "password2" "password" "secret12" false)
              []) tidy_lone_password2 eq_refl eq_refl);
    [discriminate|reflexivity].
Defined.

(** C10, as stated, fails: an email input named [password2], alone in a
    document without [password1], is refused for its value, which is not
    an address. *)
Lemma password2_of_type_email :
  (exists this,
     Dom.lookup 1 (document lone_email_password2) = Some this /\
     Dom.name (Dom.elem this) = "password2" /\
     Dom.value (Dom.elem this) = "secret12") /\
  document_querySelector_name "password1" (document lone_email_password2) =
    None /\
  snd (validateField 1 lone_email_password2) = Ok false /\
  field_errors 1 (fst (validateField 1 lone_email_password2)) =
    [error_html "Please enter a valid email address"].
Proof.
  split; [eexists; repeat split; reflexivity|].
  repeat split; reflexivity.
Qed.

(** C2, as the code has it: a non-empty [password2] field (not an email
    input, no surrounding white space) is compared with the value that the
    first element named [password1] of the whole document has when the
    check runs; it passes exactly when the two are equal and otherwise
    fails with "Passwords do not match". *)
Theorem password2_rule st field n password1 :
  tidy field st ->
  Dom.lookup field (document st) = Some n ->
  Dom.name (Dom.elem n) = "password2" ->
  Dom.type (Dom.elem n) <> "email" ->
  Dom.value (Dom.elem n) <> "" ->
  Str.trim (Dom.value (Dom.elem n)) = Dom.value (Dom.elem n) ->
  document_querySelector_name "password1" (document st) = Some password1 ->
  exists st',
    validateField field st =
      (st', Ok (bool_decide
                  (Dom.value (Dom.elem n) = Dom.value (Dom.elem password1))))
    /\
    field_errors field st' =
      if bool_decide (Dom.value (Dom.elem n) = Dom.value (Dom.elem password1))
      then [] else [error_html "Passwords do not match"].
Proof.
  intros Ht Hl Hn Hty Hv Htrim Hq.
  assert (Hv' : field_value (Dom.elem n) <> "")
    by (unfold field_value; now rewrite Htrim).
  destruct (validateField_tidy field st n Ht Hl) as (st' & Hrun & _ & He & _).
  rewrite (checkField_password2 _ _ Hn Hty Hv'), Hq in Hrun, He.
  unfold field_value, Str.eqb in Hrun, He. rewrite Htrim in Hrun, He.
  exists st'. destruct (bool_decide _); simpl in *; auto.
Qed.

Lemma password2_rule_witness :
  exists st',
    validateField 2 (Sample.passwords "secret12" "secret13") = (st', Ok false)
    /\ field_errors 2 st' = [error_html "Passwords do not match"].
Proof.
  apply (password2_rule (Sample.passwords "secret12" "secret13") 2
           (Dom.Node 2 (Sample.input "password2" "password" "secret13" false)
              [])
           (Dom.Node 1 (Sample.input "password1" "password" "secret12" false)
              [])
           (tidy_passwords _ _) eq_refl eq_refl);
    [discriminate|discriminate|reflexivity|reflexivity].
Defined.

(** C2, as stated, fails: on a page with two forms the confirmation is
    compared with the [password1] of the first form of the document, so a
    [password2] equal to the [password1] of its own form is rejected. *)
Lemma password2_of_second_form :
  (exists own,
     field_of_form 2 "password1" (document Sample.two_forms) = Some own /\
     Dom.value (Dom.elem own) = "bbbbbbbb") /\
  (exists this,
     Dom.lookup 4 (document Sample.two_forms) = Some this /\
     Dom.name (Dom.elem this) = "password2" /\
     Dom.value (Dom.elem this) = "bbbbbbbb") /\
  snd (validateField 4 Sample.two_forms) = Ok false /\
  field_errors 4 (fst (validateField 4 Sample.two_forms)) =
    [error_html "Passwords do not match"].
Proof.
  split; [eexists; split; reflexivity|].
  split; [eexists; repeat split; reflexivity|].
  split; reflexivity.
Qed.

(** *** The order of the rules *)

Lemma verdict_agrees doc e :
  fst (last_failing doc e) = fst (first_failing doc e).
Proof.
  unfold last_failing, first_failing.
  destruct (failures doc e) as [|m l]; [reflexivity|].
  rewrite last_cons_some. destruct (last l); reflexivity.
Qed.

Lemma single_failure doc e :
  length (failures doc e) <= 1 -> last_failing doc e = first_failing doc e.
Proof.
  unfold last_failing, first_failing.
  destruct (failures doc e) as [|m [|m' l]]; simpl; intros H;
    [reflexivity|reflexivity|lia].
Qed.

(** Unless the field is an email input, at most one rule can fail: the
    first rule needs an empty value, the others a non-empty one, and the
    names of the last four exclude each other. *)
Lemma failures_at_most_one doc e :
  Dom.type e <> "email" -> length (failures doc e) <= 1.
Proof.
  intros Ht.
  destruct (decide (field_value e = "")) as [Hv|Hv].
  { rewrite (failures_empty_value _ _ Hv).
    destruct (rule_required doc e); simpl; lia. }
  rewrite failures_unfold, rule_required_off, rule_email_off by assumption.
  destruct (decide (Dom.name e = "phone_number")) as [Hn|Hn1].
  { rewrite rule_password1_off, rule_password2_off, rule_price_off
      by (rewrite Hn; done).
    destruct (rule_phone doc e); simpl; lia. }
  rewrite rule_phone_off by assumption.
  destruct (decide (Dom.name e = "password1")) as [Hn|Hn2].
  { rewrite rule_password2_off, rule_price_off by (rewrite Hn; done).
    destruct (rule_password1 doc e); simpl; lia. }
  rewrite rule_password1_off by assumption.
  destruct (decide (Dom.name e = "password2")) as [Hn|Hn3].
  { rewrite rule_price_off by (rewrite Hn; done).
    destruct (rule_password2 doc e); simpl; lia. }
  rewrite rule_password2_off by assumption.
  destruct (rule_price doc e); simpl; lia.
Qed.

(** C1, as the code has it: [validateField] runs the six rules in the
    fixed order and does not stop at a failure.  The field is invalid
    exactly when some rule fails, and the message shown is that of the
    LAST rule that fails.  It is the message of the first failing rule
    whenever at most one rule fails, which is always so for a field that
    is not an email input. *)
Theorem last_failing_rule_wins st field n :
  tidy field st ->
  Dom.lookup field (document st) = Some n ->
  (exists st',
     validateField field st =
       (st', Ok (fst (last_failing (document st) (Dom.elem n)))) /\
     field_errors field st' =
       if fst (last_failing (document st) (Dom.elem n)) then []
       else [error_html (snd (last_failing (document st) (Dom.elem n)))]) /\
  fst (last_failing (document st) (Dom.elem n)) =
    fst (first_failing (document st) (Dom.elem n)) /\
  (Dom.type (Dom.elem n) <> "email" ->
   last_failing (document st) (Dom.elem n) =
     first_failing (document st) (Dom.elem n)).
Proof.
  intros Ht Hl. split; [|split].
  - destruct (validateField_tidy field st n Ht Hl)
      as (st' & Hrun & _ & He & _).
    rewrite checkField_last_failing in Hrun, He. exists st'. auto.
  - apply verdict_agrees.
  - intros Hty. apply single_failure, failures_at_most_one, Hty.
Qed.

Lemma last_failing_rule_wins_witness :
  exists st',
    validateField 1 Sample.email_phone = (st', Ok false) /\
    field_errors 1 st' =
      [error_html "Please enter a valid 10-digit mobile number"].
Proof.
  destruct (last_failing_rule_wins Sample.email_phone 1
              (Dom.Node 1 (Sample.input "phone_number" "email" "abc" false) [])
              tidy_email_phone eq_refl) as [H _].
  exact H.
Defined.

(** C1, as stated, fails: on an email input named [phone_number] with
    the value abc the first failing rule is the email rule, and the
    message shown is that of the phone rule. *)
Lemma first_failing_rule_loses :
  first_failing (document Sample.email_phone)
    (Sample.input "phone_number" "email" "abc" false) =
    (false, "Please enter a valid email address") /\
  snd (validateField 1 Sample.email_phone) = Ok false /\
  field_errors 1 (fst (validateField 1 Sample.email_phone)) =
    [error_html "Please enter a valid 10-digit mobile number"].
Proof. repeat split; reflexivity. Qed.

End Validator.

(* ===================================================================== *)
(** ** What the validator leaves alone *)
(* ===================================================================== *)

Module Frame.

Lemma keeps_ret {A} (a : A) : keeps (ret a).
Proof. intros st. split; reflexivity. Qed.

Lemma keeps_throw {A} e : keeps (throw (A := A) e).
Proof. intros st. split; reflexivity. Qed.

Lemma keeps_bind {A B} (c : M A) (k : A -> M B) :
  keeps c -> (forall a, keeps (k a)) -> keeps (bind c k).
Proof.
  intros Hc Hk st. unfold bind. specialize (Hc st).
  destruct (c st) as [st' [a|e]]; simpl in *.
  - destruct (Hk a st') as [H1 H2]. destruct Hc as [H3 H4].
    split; [now rewrite H1|now rewrite H2].
  - exact Hc.
Qed.

Lemma keeps_get : keeps get.
Proof. intros st. split; reflexivity. Qed.

Lemma keeps_modify_document f : keeps (modify_document f).
Proof. intros st. split; reflexivity. Qed.

Lemma keeps_element_of h : keeps (element_of h).
Proof.
  intros st. unfold element_of. destruct (Dom.lookup _ _); split; reflexivity.
Qed.

Lemma keeps_parentElement h : keeps (parentElement h).
Proof.
  intros st. unfold parentElement.
  destruct (Dom.parent _ _); split; reflexivity.
Qed.

Lemma keeps_createElement : keeps createElement.
Proof. intros st. split; reflexivity. Qed.

Lemma keeps_showNotification m t : keeps (showNotification m t).
Proof. intros st. split; reflexivity. Qed.

Lemma keeps_debounce_restart f i : keeps (debounce_restart f i).
Proof. intros st. split; reflexivity. Qed.

Lemma keeps_clearFieldError field : keeps (clearFieldError field).
Proof.
  unfold clearFieldError.
  apply keeps_bind; [apply keeps_modify_document|]. intros _.
  apply keeps_bind; [apply keeps_parentElement|]. intros p.
  destruct (List.find _ _); [apply keeps_modify_document|apply keeps_ret].
Qed.

Lemma keeps_showFieldError field message :
  keeps (showFieldError field message).
Proof.
  unfold showFieldError.
  apply keeps_bind; [apply keeps_clearFieldError|]. intros _.
  apply keeps_bind; [apply keeps_createElement|]. intros d.
  apply keeps_bind; [apply keeps_createElement|]. intros i.
  apply keeps_bind; [apply keeps_modify_document|]. intros _.
  apply keeps_bind; [apply keeps_parentElement|]. intros p.
  apply keeps_modify_document.
Qed.

Lemma keeps_validateField field : keeps (validateField field).
Proof.
  unfold validateField.
  apply keeps_bind; [apply keeps_element_of|]. intros e.
  apply keeps_bind; [apply keeps_get|]. intros st.
  destruct (checkField _ _) as [isValid msg].
  apply keeps_bind; [|intros; apply keeps_ret].
  destruct (negb isValid);
    [apply keeps_showFieldError|apply keeps_clearFieldError].
Qed.

Lemma keeps_validate_inputs inputs isValid :
  keeps (validate_inputs inputs isValid).
Proof.
  revert isValid. induction inputs as [|i r IH]; intros isValid; simpl.
  - apply keeps_ret.
  - apply keeps_bind; [apply keeps_validateField|]. intros ok. apply IH.
Qed.

Lemma keeps_submit_validation inputs : keeps (submit_validation inputs).
Proof.
  unfold submit_validation.
  apply keeps_bind; [apply keeps_validate_inputs|]. intros v.
  destruct (negb v); [|apply keeps_ret].
  apply keeps_bind; [apply keeps_showNotification|]. intros _.
  apply keeps_ret.
Qed.

End Frame.

(* ===================================================================== *)
(** ** Events and the store *)
(* ===================================================================== *)

Module Events.
Import Frame.

Lemma run_listener_listeners this l st :
  listeners (fst (run_listener this l st)) = listeners st.
Proof.
  destruct l; simpl.
  - apply (keeps_bind _ _ (keeps_validateField this)
             (fun _ => keeps_ret false)).
  - apply (keeps_bind _ _ (keeps_clearFieldError this)
             (fun _ => keeps_ret false)).
  - apply keeps_submit_validation.
  - reflexivity.
  - reflexivity.
Qed.

(** No listener writes to the store: a key that is absent stays absent. *)
Lemma run_listener_absent this l st k :
  localStorage st !! k = None ->
  localStorage (fst (run_listener this l st)) !! k = None.
Proof.
  intros H. destruct l; simpl.
  - rewrite (proj1 (keeps_bind _ _ (keeps_validateField this)
                      (fun _ => keeps_ret false) st)). exact H.
  - rewrite (proj1 (keeps_bind _ _ (keeps_clearFieldError this)
                      (fun _ => keeps_ret false) st)). exact H.
  - rewrite (proj1 (keeps_submit_validation inputs st)). exact H.
  - exact H.
  - unfold clearFormData, bind, modify, console_log. simpl.
    destruct (decide (storage_key formId = k)) as [<-|Hne].
    + apply lookup_delete_eq.
    + rewrite lookup_delete_ne by exact Hne. exact H.
Qed.

Lemma run_listener_clears this formId st :
  localStorage (fst (run_listener this (OnSubmitAutosave formId) st))
    !! storage_key formId = None.
Proof.
  unfold run_listener, clearFormData, bind, modify, console_log. simpl.
  apply lookup_delete_eq.
Qed.

Lemma run_listeners_absent ls prevented st k :
  localStorage st !! k = None ->
  localStorage (fst (run_listeners ls prevented st)) !! k = None.
Proof.
  revert prevented st. induction ls as [|[this l] r IH]; intros pv st H.
  - exact H.
  - simpl. pose proof (run_listener_absent this l st k H) as H1.
    destruct (run_listener this l st) as [st' [p|e]]; simpl in H1;
      now apply IH.
Qed.

(** Once the autosave listener of a form is among the listeners that
    run, the payload of the form is gone when they are done, whatever the
    other listeners do and whether or not the default was prevented. *)
Lemma run_listeners_clears ls prevented st this formId :
  (this, OnSubmitAutosave formId) ∈ ls ->
  localStorage (fst (run_listeners ls prevented st))
    !! storage_key formId = None.
Proof.
  revert prevented st. induction ls as [|[this' l] r IH]; intros pv st Hin.
  - inversion Hin.
  - simpl. apply elem_of_cons in Hin as [E|Hin].
    + injection E as <- <-.
      pose proof (run_listener_clears this formId st) as H1.
      destruct (run_listener this (OnSubmitAutosave formId) st)
        as [st' [p|e]]; simpl in H1; now apply run_listeners_absent.
    + destruct (run_listener this' l st) as [st' [p|e]]; now apply IH.
Qed.

Lemma listeners_of_elem h ty l st :
  (h, ty, l) ∈ listeners st -> l ∈ listeners_of h ty st.
Proof.
  unfold listeners_of. induction (listeners st) as [|[[h' ty'] l'] r IH];
    intros Hin; [inversion Hin|].
  simpl. apply elem_of_cons in Hin as [E|Hin].
  - injection E as <- <- <-. rewrite Nat.eqb_refl.
    rewrite bool_decide_eq_true_2 by reflexivity. simpl.
    apply elem_of_cons. now left.
  - apply elem_of_app. right. now apply IH.
Qed.

(** A listener registered on the target of an event runs when the event
    is dispatched. *)
Lemma dispatch_clears target st formId :
  (target, Submit, OnSubmitAutosave formId) ∈ listeners st ->
  localStorage (fst (dispatchEvent target Submit st))
    !! storage_key formId = None.
Proof.
  intros Hin. unfold dispatchEvent.
  apply (run_listeners_clears _ _ _ target). simpl.
  apply elem_of_app. left.
  apply (DomFacts.elem_of_map (fun l => (target, l))).
  now apply listeners_of_elem.
Qed.

End Events.

(* ===================================================================== *)
(** ** Page load *)
(* ===================================================================== *)

Module Load.
Local Open Scope list_scope.

Section Preserves.
Context {X : Type} (proj : page -> X).

Lemma preserves_ret {A} (a : A) : preserves proj (ret a).
Proof. intros st. reflexivity. Qed.

Lemma preserves_throw {A} e : preserves proj (throw (A := A) e).
Proof. intros st. reflexivity. Qed.

Lemma preserves_get : preserves proj get.
Proof. intros st. reflexivity. Qed.

Lemma preserves_bind {A B} (c : M A) (k : A -> M B) :
  preserves proj c -> (forall a, preserves proj (k a)) ->
  preserves proj (bind c k).
Proof.
  intros Hc Hk st. unfold bind. specialize (Hc st).
  destruct (c st) as [st' [a|e]]; simpl in *.
  - now rewrite (Hk a st').
  - exact Hc.
Qed.



End Preserves.

Lemma keeps_listeners {A} (c : M A) : keeps c -> preserves listeners c.
Proof. intros H st. apply H. Qed.

Lemma run_listeners_listeners ls prevented st :
  listeners (fst (run_listeners ls prevented st)) = listeners st.
Proof.
  revert prevented st. induction ls as [|[this l] r IH]; intros pv st;
    [reflexivity|].
  simpl. pose proof (Events.run_listener_listeners this l st) as H.
  destruct (run_listener this l st) as [st' [p|e]]; simpl in H;
    rewrite IH; exact H.
Qed.

Lemma dispatch_listeners target ty st :
  listeners (fst (dispatchEvent target ty st)) = listeners st.
Proof. apply run_listeners_listeners. Qed.

Section WithBrowser.
Variable env : platform.

Local Abbreviation load := (loadFormData env).
Local Abbreviation restore_entry := (restore env).
Local Abbreviation init := (initFormEnhancements env).


Lemma form_querySelector_name_state form key st :
  fst (form_querySelector_name env form key st) = st.
Proof.
  unfold form_querySelector_name.
  destruct (Dom.lookup form (document st)); [|reflexivity].
  destruct (plain_key key); [reflexivity|].
  destruct (selector_query env _ _); reflexivity.
Qed.





(** *** Registration of the listeners *)

Lemma bind_get {A} (k : page -> M A) (st : page) : bind get k st = k st st.
Proof. reflexivity. Qed.









End WithBrowser.

End Load.

(* ===================================================================== *)
(** ** Objects *)
(* ===================================================================== *)

Module JsonFacts.
Import Json.
Local Open Scope list_scope.

Section Properties.
Context {V : Type}.
Implicit Types (o : list (string * V)) (k : string) (v : V).

Lemma get_nil k : get k (@nil (string * V)) = None.
Proof. reflexivity. Qed.

Lemma get_cons k k' v o :
  get k ((k', v) :: o) = if Str.eqb k' k then Some v else get k o.
Proof. unfold get. simpl. destruct (Str.eqb k' k); reflexivity. Qed.

Lemma get_insert_key k v o k' :
  get k o = None ->
  get k' (insert_key k v o) = if Str.eqb k k' then Some v else get k' o.
Proof.
  induction o as [|[k0 v0] o IH]; intros Hnone.
  - simpl. now rewrite get_cons.
  - rewrite get_cons in Hnone.
    destruct (Str.eqb k0 k) eqn:E0; [discriminate|].
    simpl.
    destruct (array_index k) as [i|]; [destruct (array_index k0) as [j|]|].
    + destruct (i <? j)%N; rewrite !get_cons; [reflexivity|].
      rewrite IH by exact Hnone.
      destruct (Str.eqb k0 k') eqn:E1; [|reflexivity].
      apply eqb_true in E1. subst k'. now rewrite (proj2 (eqb_false k k0))
        by (apply eqb_false in E0; congruence).
    + now rewrite !get_cons.
    + rewrite !get_cons, IH by exact Hnone.
      destruct (Str.eqb k0 k') eqn:E1; [|reflexivity].
      apply eqb_true in E1. subst k'. now rewrite (proj2 (eqb_false k k0))
        by (apply eqb_false in E0; congruence).
Qed.

Lemma get_replace_key k v o k' :
  get k' (replace_key k v o) =
  if Str.eqb k k' then option_map (fun _ => v) (get k o) else get k' o.
Proof.
  induction o as [|[k0 v0] o IH]; simpl.
  - destruct (Str.eqb k k'); reflexivity.
  - destruct (Str.eqb k0 k) eqn:E0; rewrite !get_cons.
    + rewrite E0. apply eqb_true in E0. subst k0.
      destruct (Str.eqb k k'); reflexivity.
    + rewrite E0, IH.
      destruct (Str.eqb k0 k') eqn:E1; [|reflexivity].
      apply eqb_true in E1. subst k'. now rewrite (proj2 (eqb_false k k0))
        by (apply eqb_false in E0; congruence).
Qed.

(** [define] gives the key its new value and leaves the other keys. *)
Lemma get_define k v o k' :
  get k' (define k v o) = if Str.eqb k k' then Some v else get k' o.
Proof.
  unfold define. destruct (get k o) as [v0|] eqn:E.
  - rewrite get_replace_key, E. reflexivity.
  - now apply get_insert_key.
Qed.

(** An assignment gives the key its new value, unless the key is
    [__proto__], and leaves the other keys. *)
Lemma get_set k v o k' :
  get k' (set k v o) =
  if Str.eqb k k' && negb (Str.eqb k "__proto__") then Some v else get k' o.
Proof.
  unfold set. destruct (Str.eqb k "__proto__"); simpl.
  - now rewrite andb_false_r.
  - rewrite andb_true_r. apply get_define.
Qed.

End Properties.

(** *** Reading back what [JSON.stringify] wrote *)

Lemma append_assoc (a b c : string) :
  ((a +:+ b) +:+ c = a +:+ (b +:+ c))%string.
Proof.
  induction a as [|x a IH]; [reflexivity|].
  change (String x ((a +:+ b) +:+ c) = String x (a +:+ (b +:+ c))).
  now f_equal.
Qed.

Lemma length_append (a b : string) :
  String.length (a +:+ b) = String.length a + String.length b.
Proof.
  induction a as [|x a IH]; [reflexivity|].
  change (S (String.length (a +:+ b)) =
          S (String.length a) + String.length b).
  now rewrite IH.
Qed.

(** One escaped character is read back as the character. *)
Lemma read_string_char (c : ascii) (rest : string) :
  read_string (escape_char c +:+ rest) =
  cons_char c (read_string rest) (String.length (escape_char c)).
Proof.
  destruct c as [[] [] [] [] [] [] [] []]; reflexivity.
Qed.

Lemma read_string_escape (s rest : string) :
  read_string (escape s +:+ String "034" rest) =
  Ok (s, String.length (escape s) + 1).
Proof.
  induction s as [|c s IH]; [reflexivity|].
  simpl escape. rewrite append_assoc, read_string_char, IH.
  unfold cons_char. rewrite length_append. f_equal. f_equal. lia.
Qed.

Lemma lex_skip (a b : string) (n : nat) :
  lex (String.length a + n) (a +:+ b) = lex n b.
Proof. induction a as [|x a IH]; [reflexivity|exact IH]. Qed.

(** The token of a quoted string. *)
Lemma lex_quote (s rest : string) :
  lex 0 (quote s +:+ rest) = cons_token (TString s) (lex 0 rest).
Proof.
  unfold quote, dquote. rewrite !append_assoc.
  change (String "034" "" +:+ ?x)%string with (String "034" x).
  change (lex 0 (String "034" ?r))
    with (match read_string r with
          | Ok (str, n) => cons_token (TString str) (lex n r)
          | Throw e => Throw e
          end).
  change (String "034" "" +:+ rest)%string with (String "034" rest).
  rewrite read_string_escape, lex_skip. reflexivity.
Qed.

(** *** Objects of strings, written and read back *)

Lemma prepend_cons t l r : prepend (t :: l) r = cons_token t (prepend l r).
Proof. destruct r; reflexivity. Qed.

Lemma prepend_nil r : prepend [] r = r.
Proof. destruct r; reflexivity. Qed.

Lemma prepend_app l1 l2 r : prepend (l1 ++ l2) r = prepend l1 (prepend l2 r).
Proof. destruct r; simpl; [now rewrite app_assoc|reflexivity]. Qed.

Lemma lex_value v rest :
  lex 0 (stringify_value v +:+ rest) = prepend (value_tokens v) (lex 0 rest).
Proof.
  destruct v as [s|f]; simpl stringify_value; simpl value_tokens.
  - now rewrite lex_quote, prepend_cons, prepend_nil.
  - change (lex 0 ("{}" +:+ rest))
      with (cons_token LBrace (cons_token RBrace (lex 0 rest))).
    now rewrite !prepend_cons, prepend_nil.
Qed.

Lemma lex_member k v rest :
  lex 0 (quote k +:+ ":" +:+ stringify_value v +:+ rest) =
  prepend (TString k :: Colon :: value_tokens v) (lex 0 rest).
Proof.
  rewrite lex_quote.
  change (lex 0 (":" +:+ ?r)) with (cons_token Colon (lex 0 r)).
  now rewrite lex_value, !prepend_cons.
Qed.

Lemma lex_members o rest :
  lex 0 (stringify_members o +:+ rest) = prepend (member_tokens o) (lex 0 rest).
Proof.
  induction o as [|[k v] r IH]; [now rewrite prepend_nil|].
  destruct r as [|kv r'].
  - simpl stringify_members. rewrite !append_assoc. apply lex_member.
  - change (stringify_members ((k, v) :: kv :: r'))
      with (quote k +:+ ":" +:+ stringify_value v +:+ ","
            +:+ stringify_members (kv :: r'))%string.
    change (member_tokens ((k, v) :: kv :: r'))
      with ((TString k :: Colon :: value_tokens v)
            ++ Comma :: member_tokens (kv :: r')).
    rewrite !append_assoc, lex_member, prepend_app. f_equal.
    change (lex 0 ("," +:+ ?x)) with (cons_token Comma (lex 0 x)).
    now rewrite IH, prepend_cons.
Qed.

Lemma lex_stringify o :
  lex 0 (JSON_stringify o) = Ok (LBrace :: member_tokens o ++ [RBrace]).
Proof.
  unfold JSON_stringify.
  change (lex 0 ("{" +:+ ?r)) with (cons_token LBrace (lex 0 r)).
  rewrite lex_members. reflexivity.
Qed.

(** The value of a member joins the object being read. *)
Lemma run_value v acc k stack ts :
  run MValue (InMember acc k :: stack) (value_tokens v ++ ts) =
  run MNext (InObject (define k (to_json v) acc) :: stack) ts.
Proof. destruct v; reflexivity. Qed.

Lemma run_members o : o <> [] -> forall m acc stack ts,
  m = MKeyFirst \/ m = MKey ->
  run m (InObject acc :: stack) (member_tokens o ++ RBrace :: ts) =
  match complete (JObject (define_all o acc)) stack with
  | Some (m', stack') => run m' stack' ts
  | None => None
  end.
Proof.
  induction o as [|[k v] r IH]; intros Hne m acc stack ts Hm; [congruence|].
  assert (Hkey : forall ts',
            run m (InObject acc :: stack) (TString k :: Colon :: ts') =
            run MValue (InMember acc k :: stack) ts').
  { intros ts'. destruct Hm as [-> | ->]; reflexivity. }
  destruct r as [|kv r'].
  - change (member_tokens [(k, v)])
      with (TString k :: Colon :: value_tokens v).
    change ((TString k :: Colon :: value_tokens v) ++ RBrace :: ts)
      with (TString k :: Colon :: (value_tokens v ++ RBrace :: ts)).
    rewrite Hkey, run_value. reflexivity.
  - change (member_tokens ((k, v) :: kv :: r'))
      with ((TString k :: Colon :: value_tokens v)
            ++ Comma :: member_tokens (kv :: r')).
    rewrite <- app_assoc.
    change ((TString k :: Colon :: value_tokens v) ++ ?l)
      with (TString k :: Colon :: (value_tokens v ++ l)).
    rewrite Hkey, run_value.
    change (run MNext (InObject ?a :: stack) ((Comma :: ?l) ++ ?t))
      with (run MKey (InObject a :: stack) (l ++ t)).
    rewrite IH; [reflexivity|congruence|now right].
Qed.

(** [JSON.parse] reads what [JSON.stringify] wrote for the entries of a
    draft: an object with a member for each key. *)
Lemma parse_stringify o :
  parse (JSON_stringify o) = Ok (JObject (define_all o [])).
Proof.
  unfold parse. rewrite lex_stringify.
  destruct o as [|kv r]; [reflexivity|].
  change (run MValue [] (LBrace :: ?l))
    with (run MKeyFirst [InObject []] l).
  rewrite run_members; [reflexivity|congruence|now left].
Qed.

(** *** The members of an object made by [define] *)

Section Members.
Context {V : Type}.
Implicit Types (o : list (string * V)) (k : string) (v : V).

Lemma get_none k o : get k o = None <-> k ∉ List.map fst o.
Proof.
  induction o as [|[k0 v0] o IH]; simpl.
  - split; [intros _ H; inversion H|reflexivity].
  - rewrite get_cons, not_elem_of_cons.
    destruct (Str.eqb k0 k) eqn:E.
    + apply eqb_true in E. split; [discriminate|]. intros [H _]. congruence.
    + apply eqb_false in E. rewrite IH. intuition congruence.
Qed.

Lemma insert_key_perm k v o : insert_key k v o ≡ₚ (k, v) :: o.
Proof.
  induction o as [|[k0 v0] o IH]; [reflexivity|].
  simpl.
  destruct (array_index k) as [i|]; [destruct (array_index k0) as [j|]|].
  - destruct (i <? j)%N; [reflexivity|]. rewrite IH. apply Permutation_swap.
  - reflexivity.
  - rewrite IH. apply Permutation_swap.
Qed.

Lemma replace_key_keys k v o :
  List.map fst (replace_key k v o) = List.map fst o.
Proof.
  induction o as [|[k0 v0] o IH]; [reflexivity|].
  simpl. destruct (Str.eqb k0 k); simpl; [reflexivity|now rewrite IH].
Qed.

Lemma replace_key_in k v o k' (j : V) :
  NoDup (List.map fst o) -> k ∈ List.map fst o ->
  (k', j) ∈ replace_key k v o <->
  (k' = k /\ j = v) \/ (k' <> k /\ (k', j) ∈ o).
Proof.
  induction o as [|[k0 v0] o IH]; intros ND Hk; [inversion Hk|].
  simpl in ND, Hk. apply NoDup_cons in ND as [Hk0 ND]. simpl.
  destruct (Str.eqb k0 k) eqn:E.
  - apply eqb_true in E. subst k0. rewrite !elem_of_cons.
    split.
    + intros [H|H]; [injection H as -> ->; now left|].
      right. split; [|now right]. intros ->. apply Hk0.
      change k with (fst (k, j)). now apply DomFacts.elem_of_map.
    + intros [[-> ->]|[Hn [H|H]]]; [now left| |now right].
      injection H as -> ->. congruence.
  - apply eqb_false in E. apply elem_of_cons in Hk as [->|Hk]; [congruence|].
    rewrite !elem_of_cons, (IH ND Hk). split.
    + intros [H|[H|H]]; [injection H as -> ->|now left|].
      * right. split; [congruence|now left].
      * right. split; [tauto|]. right. tauto.
    + intros [H|[Hn [H|H]]]; [right; now left|now left|]. right. now right.
Qed.

Lemma define_keys k v o :
  NoDup (List.map fst o) -> NoDup (List.map fst (define k v o)).
Proof.
  intros ND. unfold define. destruct (get k o) as [v0|] eqn:E.
  - now rewrite replace_key_keys.
  - rewrite (insert_key_perm k v o). simpl. apply NoDup_cons.
    split; [now apply get_none|exact ND].
Qed.

Lemma define_in k v o k' (j : V) :
  NoDup (List.map fst o) ->
  (k', j) ∈ define k v o <->
  (k' = k /\ j = v) \/ (k' <> k /\ (k', j) ∈ o).
Proof.
  intros ND. unfold define. destruct (get k o) as [v0|] eqn:E.
  - apply replace_key_in; [exact ND|].
    destruct (decide (k ∈ List.map fst o)) as [H|H]; [exact H|].
    apply get_none in H. congruence.
  - apply get_none in E. rewrite (insert_key_perm k v o), elem_of_cons.
    split.
    + intros [H|H]; [injection H as -> ->; now left|].
      right. split; [|exact H]. intros ->. apply E.
      change k with (fst (k, j)). now apply DomFacts.elem_of_map.
    + intros [[-> ->]|[_ H]]; [now left|now right].
Qed.

Lemma get_member k v o :
  NoDup (List.map fst o) -> (k, v) ∈ o -> get k o = Some v.
Proof.
  induction o as [|[k0 v0] o IH]; intros ND Hin; [inversion Hin|].
  simpl in ND. apply NoDup_cons in ND as [Hk0 ND]. rewrite get_cons.
  apply elem_of_cons in Hin as [E|Hin].
  - injection E as -> ->. now rewrite eqb_refl.
  - destruct (Str.eqb k0 k) eqn:E; [|now apply IH].
    apply eqb_true in E. subst k0. exfalso. apply Hk0.
    change k with (fst (k, v)). now apply DomFacts.elem_of_map.
Qed.

Lemma set_keys k v o :
  NoDup (List.map fst o) -> NoDup (List.map fst (set k v o)).
Proof.
  intros ND. unfold set. destruct (Str.eqb k "__proto__"); [exact ND|].
  now apply define_keys.
Qed.

End Members.

(** The object read back has a member for each entry written, and no
    other, when no two entries share a key. *)
Lemma define_all_in o : NoDup (List.map fst o) -> forall acc,
  NoDup (List.map fst acc) ->
  NoDup (List.map fst (define_all o acc)) /\
  forall k j,
    (k, j) ∈ define_all o acc <->
    (exists v, (k, v) ∈ o /\ j = to_json v) \/
    ((k ∉ List.map fst o) /\ (k, j) ∈ acc).
Proof.
  induction o as [|[k0 v0] r IH]; intros ND acc NDacc.
  - split; [exact NDacc|]. intros k j. simpl. split.
    + intros H. right. split; [intros H'; inversion H'|exact H].
    + intros [(v & H & _)|[_ H]]; [inversion H|exact H].
  - simpl in ND. apply NoDup_cons in ND as [Hk0 ND].
    destruct (IH ND (define k0 (to_json v0) acc) (define_keys _ _ _ NDacc))
      as [ND' Hin].
    split; [exact ND'|]. intros k j.
    change (define_all ((k0, v0) :: r) acc)
      with (define_all r (define k0 (to_json v0) acc)).
    rewrite Hin, (define_in _ _ _ _ _ NDacc). simpl.
    rewrite not_elem_of_cons. split.
    + intros [(v & H & E)|[Hk [[-> ->]|[Hn H]]]].
      * left. exists v. split; [apply elem_of_cons; now right|exact E].
      * left. exists v0. split; [apply elem_of_cons; now left|reflexivity].
      * right. tauto.
    + intros [(v & H & E)|[[Hn Hk] H]].
      * apply elem_of_cons in H as [H|H].
        -- injection H as -> ->. right. split; [exact Hk0|now left].
        -- left. now exists v.
      * right. split; [exact Hk|]. right. tauto.
Qed.

End JsonFacts.

(* ===================================================================== *)
(** ** Edits of the document *)
(* ===================================================================== *)

Module Edits.
Import Dom.
Local Open Scope list_scope.

Lemma alike_refl e : alike e e.
Proof. unfold alike. auto. Qed.

Lemma alike_trans e1 e2 e3 : alike e1 e2 -> alike e2 e3 -> alike e1 e3.
Proof.
  unfold alike. intros (A1 & A2 & A3 & A4 & A5) (B1 & B2 & B3 & B4 & B5).
  repeat split; congruence.
Qed.

Lemma alike_with_value v e : alike e (with_value v e).
Proof. unfold alike. auto. Qed.

Lemma alike_remove_class e : alike e (remove_class "error" e).
Proof.
  unfold alike. repeat split. apply Annotation.remove_class_keeps.
Qed.

Lemma update_elem h g n :
  elem (update h g n) = if Nat.eqb (handle n) h then g (elem n) else elem n.
Proof. destruct n; reflexivity. Qed.

Lemma edit_id : edit (fun n => n).
Proof.
  split; [reflexivity| |intros n; apply alike_refl].
  intros n. now rewrite List.map_id.
Qed.

Lemma edit_compose T U : edit T -> edit U -> edit (fun n => U (T n)).
Proof.
  intros [T1 T2 T3] [U1 U2 U3]. split.
  - intros n. now rewrite U1, T1.
  - intros n. now rewrite U2, T2, List.map_map.
  - intros n. eapply alike_trans; [apply T3|apply U3].
Qed.

Lemma edit_update h g : (forall e, alike e (g e)) -> edit (update h g).
Proof.
  intros Hg. split.
  - apply DomFacts.update_handle.
  - apply DomFacts.update_children.
  - intros n. rewrite update_elem.
    destruct (Nat.eqb (handle n) h); [apply Hg|apply alike_refl].
Qed.

Section Edit.
Variable T : node -> node.
Hypothesis HT : edit T.

Lemma preorder_edit f : preorder (List.map T f) = List.map T (preorder f).
Proof.
  induction f as [|h e ks f IHks IHf] using DomFacts.forest_ind;
    [reflexivity|].
  simpl List.map at 1.
  pose proof (edit_children T HT (Node h e ks)) as Hc. simpl in Hc.
  destruct (T (Node h e ks)) as [h' e' ks'] eqn:E. simpl in Hc. subst ks'.
  rewrite !DomFacts.preorder_cons, IHks, IHf. simpl.
  now rewrite E, map_app.
Qed.

Lemma descendants_edit n : descendants (T n) = List.map T (descendants n).
Proof.
  rewrite !DomFacts.descendants_preorder, (edit_children T HT).
  apply preorder_edit.
Qed.

Lemma lookup_edit h f : lookup h (List.map T f) = option_map T (lookup h f).
Proof.
  unfold lookup. rewrite preorder_edit, DomFacts.find_map. f_equal.
  apply DomFacts.find_ext. intros n _. now rewrite (edit_handle T HT).
Qed.

Lemma find_name_edit k l :
  List.find (has_name k) (List.map T l) =
  option_map T (List.find (has_name k) l).
Proof.
  rewrite DomFacts.find_map. f_equal. apply DomFacts.find_ext.
  intros n _. unfold has_name.
  destruct (edit_elem T HT n) as (_ & -> & _). reflexivity.
Qed.

Lemma no_errors_edit f :
  (forall n, n ∈ preorder f -> has_class "field-error" n = false) ->
  forall n, n ∈ preorder (List.map T f) ->
    has_class "field-error" n = false.
Proof.
  intros H n Hn. rewrite preorder_edit in Hn.
  apply DomFacts.elem_of_map_inv in Hn as (m & <- & Hm).
  unfold has_class. destruct (edit_elem T HT m) as (_ & _ & _ & _ & ->).
  now apply H.
Qed.

End Edit.

End Edits.

(* ===================================================================== *)
(** ** The autosave store *)
(* ===================================================================== *)

Module Store.






(** *** What [saveFormData] persists *)

Section Save.
Variable env : platform.
Local Open Scope list_scope.

Lemma entries_key e k v :
  (k, v) ∈ entries_of e -> k = Dom.name e /\ Str.truthy (Dom.name e) = true.
Proof.
  unfold entries_of.
  destruct (Dom.disabled e); simpl; [inversion 1|].
  destruct (Str.truthy (Dom.name e)); simpl; [|inversion 1].
  intros H. split; [|reflexivity]. revert H.
  repeat match goal with
         | |- context [if ?b then _ else _] => destruct b
         | |- context [match Dom.files e with _ => _ end] =>
             destruct (Dom.files e)
         end; intros H;
    repeat match goal with
           | H : _ ∈ [] |- _ => inversion H
           | H : _ ∈ _ :: _ |- _ => apply elem_of_cons in H as [H|H]
           | H : (_, _) = (_, _) |- _ => injection H as -> ->
           end; try reflexivity.
  all: apply DomFacts.elem_of_map_inv in H as (x & E & _);
       now injection E as ->.
Qed.

Lemma entries_not_file e k v :
  Dom.type e <> "file" -> (k, v) ∈ entries_of e -> entries_of e = [(k, v)].
Proof.
  intros Ht. unfold entries_of.
  rewrite (proj2 (eqb_false _ _) Ht).
  repeat match goal with
         | |- context [if ?b then _ else _] => destruct b
         end; intros H;
    repeat match goal with
           | H : _ ∈ [] |- _ => inversion H
           | H : _ ∈ _ :: _ |- _ => apply elem_of_cons in H as [H|H]
           | H : (_, _) = (_, _) |- _ => injection H as -> ->
           end; reflexivity.
Qed.

(** With distinct names, the search by name finds the element itself. *)
Lemma find_by_name l x :
  NoDup (List.map (fun n => Dom.name (Dom.elem n)) (List.filter named l)) ->
  x ∈ l -> named x = true ->
  List.find (Dom.has_name (Dom.name (Dom.elem x))) l = Some x.
Proof.
  induction l as [|y l IH]; intros ND Hx Hn; [inversion Hx|].
  simpl. unfold Dom.has_name at 1.
  destruct (bool_decide (Dom.name (Dom.elem y) = Dom.name (Dom.elem x)))
    eqn:E.
  - apply bool_decide_eq_true in E.
    apply elem_of_cons in Hx as [->|Hx]; [reflexivity|].
    exfalso. simpl in ND.
    assert (Hy : named y = true) by (unfold named in *; now rewrite E).
    rewrite Hy in ND. simpl in ND. apply NoDup_cons in ND as [Hnot _].
    apply Hnot. rewrite E.
    apply (DomFacts.elem_of_map (fun n => Dom.name (Dom.elem n))).
    apply list_elem_of_In, filter_In. split; [now apply list_elem_of_In|].
    exact Hn.
  - apply bool_decide_eq_false in E.
    apply elem_of_cons in Hx as [->|Hx]; [congruence|].
    apply IH; [|exact Hx|exact Hn].
    simpl in ND. destruct (named y); [|exact ND].
    simpl in ND. now apply NoDup_cons in ND as [_ ND].
Qed.

(** The loop of [saveFormData] when every key is plain and names an
    element of the form. *)
Lemma collect_fold form f es data st :
  Dom.lookup form (document st) = Some f ->
  (forall k v, (k, v) ∈ es ->
     plain_key k = true /\
     is_Some (List.find (Dom.has_name k) (Dom.descendants f))) ->
  collect env form es data st =
    (st, Ok (fold_left (assign f) es data)).
Proof.
  intros Hf. revert data.
  induction es as [|[k v] r IH]; intros data H; [reflexivity|].
  destruct (H k v) as [Hp [t Ht]]; [apply elem_of_cons; now left|].
  simpl. unfold bind, form_querySelector_name. rewrite Hf, Hp, Ht.
  unfold assign at 2, keeps_key. simpl. rewrite Ht.
  destruct (negb _); apply IH; intros k' v' Hin; apply (H k' v');
    apply elem_of_cons; now right.
Qed.

(** The value that the loop leaves under a key: that of the last entry
    of the key that is kept. *)
Lemma get_fold f es data k :
  k <> "__proto__" ->
  Json.get k (fold_left (assign f) es data) =
  match last (omap (fun kv : string * entry_value =>
                      if Str.eqb (fst kv) k && keeps_key f (fst kv)
                      then Some (snd kv) else None) es) with
  | Some v => Some v
  | None => Json.get k data
  end.
Proof.
  intros Hk. revert data. induction es as [|[k0 v0] r IH]; intros data;
    [reflexivity|].
  simpl fold_left. rewrite IH. cbn [omap list_omap fst snd].
  unfold assign. simpl fst. simpl snd.
  destruct (keeps_key f k0) eqn:Ek; [|now rewrite andb_false_r].
  rewrite andb_true_r, JsonFacts.get_set.
  destruct (Str.eqb k0 k) eqn:E0; simpl.
  - apply eqb_true in E0. subst k0.
    rewrite (proj2 (eqb_false _ _) Hk). simpl.
    change (omap ?g r) with (list_omap _ _ g r).
    rewrite last_cons_some.
    destruct (last _); reflexivity.
  - reflexivity.
Qed.

Lemma get_fold_proto f es data :
  Json.get "__proto__" (fold_left (assign f) es data) =
  Json.get "__proto__" data.
Proof.
  revert data. induction es as [|[k0 v0] r IH]; intros data; [reflexivity|].
  simpl fold_left. rewrite IH. unfold assign. simpl.
  destruct (keeps_key f k0); [|reflexivity].
  rewrite JsonFacts.get_set.
  destruct (Str.eqb k0 "__proto__"); reflexivity.
Qed.

Lemma last_omap_same {A B} (g : A -> option B) (l : list A) (v : B) :
  (forall a, a ∈ l -> g a = Some v \/ g a = None) ->
  (exists a, a ∈ l /\ g a = Some v) ->
  last (omap g l) = Some v.
Proof.
  induction l as [|x l IH]; intros Hall (a & Ha & Ea); [inversion Ha|].
  assert (Hall' : forall a, a ∈ l -> g a = Some v \/ g a = None).
  { intros b Hb. apply Hall. apply elem_of_cons. now right. }
  cbn [omap list_omap].
  destruct (Hall x) as [Ex|Ex]; [apply elem_of_cons; now left| |];
    rewrite Ex.
  - change (list_omap _ _ g l) with (omap g l). rewrite last_cons_some.
    destruct (last (omap g l)) as [y|] eqn:El; [|reflexivity].
    apply last_Some_elem_of, list_elem_of_omap in El as (b & Hb & Eb).
    destruct (Hall' b Hb) as [E|E]; congruence.
  - apply IH; [exact Hall'|].
    apply elem_of_cons in Ha as [->|Ha]; [congruence|]. eauto.
Qed.

Lemma omap_all_none {A B} (g : A -> option B) (l : list A) :
  (forall a, a ∈ l -> g a = None) -> omap g l = [].
Proof.
  induction l as [|x l IH]; intros H; [reflexivity|].
  cbn [omap list_omap]. rewrite (H x) by (apply elem_of_cons; now left).
  apply IH. intros a Ha. apply H. apply elem_of_cons. now right.
Qed.

Lemma FormData_entry f k v :
  (k, v) ∈ FormData f ->
  exists x, x ∈ Dom.descendants f /\ (k, v) ∈ entries_of (Dom.elem x).
Proof.
  unfold FormData. rewrite list_elem_of_In, in_flat_map.
  intros (x & Hx & Hin). exists x. now rewrite !list_elem_of_In.
Qed.

Lemma FormData_of_element f x k v :
  x ∈ Dom.descendants f -> (k, v) ∈ entries_of (Dom.elem x) ->
  (k, v) ∈ FormData f.
Proof.
  unfold FormData. rewrite !list_elem_of_In, in_flat_map.
  intros Hx Hin. exists x. now split.
Qed.

(** With names that a selector reads as they are, every key that
    [FormData] lists names an element of the form: the loop of
    [saveFormData] ends and the payload is stored. *)
Lemma find_named (l : list Dom.node) x :
  x ∈ l -> is_Some (List.find (Dom.has_name (Dom.name (Dom.elem x))) l).
Proof.
  induction l as [|y l IH]; intros Hx; [inversion Hx|].
  simpl. destruct (Dom.has_name _ y) eqn:E; [eauto|].
  apply elem_of_cons in Hx as [->|Hx]; [|now apply IH].
  unfold Dom.has_name in E. now rewrite bool_decide_eq_true_2 in E.
Qed.

Lemma saveFormData_stores f form formId st :
  plain_names f ->
  Dom.lookup form (document st) = Some f ->
  saveFormData env form formId st =
    (set_console (console st ++ ["Form data saved: " +:+ formId])
       (set_localStorage
          (<[storage_key formId := JSON_stringify (payload f)]>
             (localStorage st))
          st), Ok tt).
Proof.
  intros Hp Hf. unfold saveFormData. rewrite Load.bind_get, Hf. unfold bind.
  rewrite (collect_fold form f); [reflexivity|exact Hf|].
  intros k v Hin. apply FormData_entry in Hin as (x & Hx & Hin).
  apply entries_key in Hin as [-> Hn].
  split; [now apply Hp|now apply find_named].
Qed.

(** A name whose first element in the form is a file input has no entry
    in the payload. *)
Lemma payload_skips f k :
  k <> "__proto__" -> keeps_key f k = false ->
  Json.get k (payload f) = None.
Proof.
  intros Hk Hs. unfold payload. rewrite get_fold by exact Hk.
  rewrite omap_all_none; [reflexivity|].
  intros [k' v] _. simpl.
  destruct (Str.eqb k' k) eqn:E; [|reflexivity].
  apply eqb_true in E. subst k'. now rewrite Hs.
Qed.

Lemma payload_keys f : NoDup (List.map fst (payload f)).
Proof.
  unfold payload. generalize (NoDup_nil_2 (A := string)).
  change (@nil string) with (List.map fst (@nil (string * entry_value))).
  generalize (@nil (string * entry_value)).
  induction (FormData f) as [|kv r IH]; intros data ND; [exact ND|].
  simpl. apply IH. unfold assign.
  destruct (keeps_key f (fst kv)); [now apply JsonFacts.set_keys|exact ND].
Qed.

(** *** The payload of a form with distinct names *)

Section Payload.
Variable f : Dom.node.
Hypothesis Hd : distinct_names f.
Hypothesis Hp : plain_names f.

Lemma find_own x :
  x ∈ Dom.descendants f -> named x = true ->
  List.find (Dom.has_name (Dom.name (Dom.elem x))) (Dom.descendants f) =
  Some x.
Proof. intros Hx Hn. now apply find_by_name. Qed.

Lemma entry_owner x k v :
  (k, v) ∈ entries_of (Dom.elem x) ->
  k = Dom.name (Dom.elem x) /\ named x = true.
Proof. intros Hin. now apply entries_key in Hin. Qed.

Lemma payload_file x :
  x ∈ Dom.descendants f -> named x = true ->
  Dom.type (Dom.elem x) = "file" ->
  Json.get (Dom.name (Dom.elem x)) (payload f) = None.
Proof.
  intros Hx Hn Ht. unfold payload.
  rewrite get_fold by (now apply Hp).
  assert (Hk : keeps_key f (Dom.name (Dom.elem x)) = false).
  { unfold keeps_key. rewrite (find_own x Hx Hn), Ht. reflexivity. }
  rewrite omap_all_none; [reflexivity|].
  intros [k v] _. simpl.
  destruct (Str.eqb k _) eqn:E; [|reflexivity].
  apply eqb_true in E. subst k. now rewrite Hk.
Qed.

Lemma payload_other x k v :
  x ∈ Dom.descendants f -> Dom.type (Dom.elem x) <> "file" ->
  (k, v) ∈ entries_of (Dom.elem x) ->
  Json.get k (payload f) = Some v.
Proof.
  intros Hx Ht Hin. unfold payload.
  destruct (entry_owner x k v Hin) as [-> Hn].
  rewrite get_fold by (now apply Hp).
  assert (Hk : keeps_key f (Dom.name (Dom.elem x)) = true).
  { unfold keeps_key. rewrite (find_own x Hx Hn).
    now rewrite (proj2 (eqb_false _ _) Ht). }
  rewrite (last_omap_same _ _ v); [reflexivity| |].
  - intros [k' v'] Hin'. simpl.
    destruct (Str.eqb k' _) eqn:E; [|now right].
    apply eqb_true in E. subst k'. rewrite Hk. simpl. left.
    apply FormData_entry in Hin' as (y & Hy & Hin').
    destruct (entry_owner y _ _ Hin') as [Ey Hny].
    assert (y = x) as ->.
    { pose proof (find_own y Hy Hny) as F. rewrite <- Ey in F.
      rewrite (find_own x Hx Hn) in F. congruence. }
    rewrite (entries_not_file _ _ _ Ht Hin) in Hin'.
    apply list_elem_of_singleton in Hin'. congruence.
  - exists (Dom.name (Dom.elem x), v). split.
    + eapply FormData_of_element; eauto.
    + simpl. now rewrite eqb_refl, Hk.
Qed.

Lemma payload_only k v :
  Json.get k (payload f) = Some v ->
  exists x, x ∈ Dom.descendants f /\
    Dom.type (Dom.elem x) <> "file" /\
    (k, v) ∈ entries_of (Dom.elem x).
Proof.
  unfold payload. intros Hg.
  destruct (decide (k = "__proto__")) as [->|Hk].
  { rewrite get_fold_proto in Hg. discriminate. }
  rewrite get_fold in Hg by exact Hk.
  destruct (last _) as [w|] eqn:El; [|discriminate].
  injection Hg as ->.
  apply last_Some_elem_of, list_elem_of_omap in El
    as ([k' v'] & Hin & E). simpl in E.
  destruct (Str.eqb k' k) eqn:E1; [|discriminate].
  destruct (keeps_key f k') eqn:E2; [|discriminate].
  simpl in E. injection E as ->. apply eqb_true in E1. subst k'.
  apply FormData_entry in Hin as (x & Hx & Hin).
  destruct (entry_owner x _ _ Hin) as [Ex Hn].
  exists x. split; [exact Hx|]. split; [|exact Hin].
  unfold keeps_key in E2. rewrite Ex, (find_own x Hx Hn) in E2.
  apply negb_true_iff, eqb_false in E2. exact E2.
Qed.

Lemma entries_string e k ev :
  Dom.type e <> "file" -> (k, ev) ∈ entries_of e -> exists v, ev = EString v.
Proof.
  intros Ht. unfold entries_of.
  rewrite (proj2 (eqb_false _ _) Ht).
  repeat match goal with
         | |- context [if ?b then _ else _] => destruct b
         end; intros H;
    repeat match goal with
           | H : _ ∈ [] |- _ => inversion H
           | H : _ ∈ _ :: _ |- _ => apply elem_of_cons in H as [H|H]
           | H : (_, _) = (_, _) |- _ => injection H as -> ->
           end; eauto.
Qed.

Lemma fold_assign_keys es : forall data,
  NoDup (List.map fst data) ->
  NoDup (List.map fst (fold_left (assign f) es data)).
Proof.
  induction es as [|kv r IH]; intros data ND; [exact ND|].
  simpl. apply IH. unfold assign.
  destruct (keeps_key f (fst kv)); [now apply JsonFacts.set_keys|exact ND].
Qed.

(** The payload is a draft of strings: one member for each control that
    [FormData] lists and that is no file input. *)
Lemma payload_draft :
  exists data,
    payload f = draft data /\
    NoDup (List.map fst data) /\
    forall k v,
      (k, v) ∈ data <->
      exists x, x ∈ Dom.descendants f /\
        Dom.type (Dom.elem x) <> "file" /\
        (k, EString v) ∈ entries_of (Dom.elem x).
Proof.
  pose proof (fold_assign_keys (FormData f) [] (NoDup_nil_2 (A := string)))
    as ND. fold (payload f) in ND.
  assert (Hstr : forall kv, kv ∈ payload f ->
            exists v, snd kv = EString v /\
              Json.get (fst kv) (payload f) = Some (EString v)).
  { intros [k ev] Hin. simpl.
    pose proof (JsonFacts.get_member k ev _ ND Hin) as Hg.
    destruct (payload_only k ev Hg) as (x & _ & Ht & Hx).
    destruct (entries_string _ _ _ Ht Hx) as [v ->]. eauto. }
  set (text := fun ev => match ev with EString s => s | EFile _ => "" end).
  exists (List.map (fun kv => (fst kv, text (snd kv))) (payload f)).
  split; [|split].
  - unfold draft. rewrite List.map_map. symmetry.
    rewrite <- (List.map_id (payload f)) at 2.
    apply List.map_ext_in. intros [k ev] Hin. simpl.
    apply list_elem_of_In, Hstr in Hin as (v & E & _). simpl in E.
    now subst ev.
  - now rewrite List.map_map.
  - intros k v. split.
    + intros Hin. apply DomFacts.elem_of_map_inv in Hin as ([k' ev] & E & Hin).
      injection E as -> <-.
      destruct (Hstr _ Hin) as (v & E & Hg). simpl in E, Hg. subst ev.
      now apply payload_only.
    + intros (x & Hx & Ht & Hin).
      pose proof (payload_other x k _ Hx Ht Hin) as Hg.
      unfold Json.get in Hg.
      destruct (List.find _ (payload f)) as [[k' ev]|] eqn:Hfind;
        [|discriminate].
      simpl in Hg. injection Hg as ->.
      apply DomFacts.find_some in Hfind as [Hmem E]. simpl in E.
      apply eqb_true in E. subst k'.
      change (k, v) with ((fun kv => (fst kv, text (snd kv))) (k, EString v)).
      now apply DomFacts.elem_of_map.
Qed.

End Payload.

(** What is persisted for a form whose elements have pairwise distinct
    names (that a selector reads as they are, none being [__proto__]):
    [saveFormData] returns and stores the serialisation of a payload
    that has no entry under the name of a file input, has the entry of
    every other control that [FormData] lists, and has no other
    entry. *)
Theorem persisted_payload form formId st f :
  Dom.lookup form (document st) = Some f ->
  distinct_names f ->
  plain_names f ->
  exists data,
    saveFormData env form formId st =
      (set_console (console st ++ ["Form data saved: " +:+ formId])
         (set_localStorage
            (<[storage_key formId := JSON_stringify data]> (localStorage st))
            st), Ok tt) /\
    (forall x, x ∈ Dom.descendants f -> named x = true ->
       Dom.type (Dom.elem x) = "file" ->
       Json.get (Dom.name (Dom.elem x)) data = None) /\
    (forall x k v, x ∈ Dom.descendants f ->
       Dom.type (Dom.elem x) <> "file" ->
       (k, v) ∈ entries_of (Dom.elem x) ->
       Json.get k data = Some v) /\
    (forall k v, Json.get k data = Some v ->
       exists x, x ∈ Dom.descendants f /\
         Dom.type (Dom.elem x) <> "file" /\
         (k, v) ∈ entries_of (Dom.elem x)).
Proof.
  intros Hf Hd Hp. exists (payload f).
  split; [now apply saveFormData_stores|]. split; [|split].
  - now apply payload_file.
  - now apply payload_other.
  - now apply payload_only.
Qed.

End Save.

Lemma persisted_payload_witness :
  exists data,
    localStorage
      (fst (saveFormData Sample.browser 0 "listing" Sample.listing))
      !! storage_key "listing" = Some (JSON_stringify data) /\
    Json.get "photo" data = None /\
    Json.get "title" data = Some (EString "Flat").
Proof.
  destruct (persisted_payload Sample.browser 0 "listing"
              Sample.listing
              (Dom.Node 0 (Sample.form (Some "listing"))
                 [Dom.Node 1 (Sample.input "title" "text" "Flat" false) [];
                  Dom.Node 2 (Sample.file_input "photo" ["a.png"]) []])
              eq_refl) as (data & Hrun & Hfile & Hother & _).
  - apply (bool_decide_unpack _). vm_compute. exact I.
  - intros x Hx _.
    repeat (apply elem_of_cons in Hx as [->|Hx]);
      [split; [reflexivity|discriminate]..|inversion Hx].
  - exists data. rewrite Hrun. split; [apply lookup_insert_eq|]. split.
    + apply (Hfile (Dom.Node 2 (Sample.file_input "photo" ["a.png"]) []));
        [apply elem_of_cons; right; apply elem_of_cons; now left
        |reflexivity|reflexivity].
    + apply (Hother (Dom.Node 1 (Sample.input "title" "text" "Flat" false)
                       []));
        [apply elem_of_cons; now left|discriminate
        |apply elem_of_cons; now left].
Defined.

(** C8 at the failing input: a text field and a file field of a form
    share the name [doc].  The test of line 488 reads the type of the
    first element of that name, the text field, for the entry of the
    file input too: the [File] is written under the key (as [{}]) in
    place of the text, where no entry of a file input is to be
    persisted. *)
Theorem file_entry_is_persisted :
  (exists x, Dom.lookup 2 (document Sample.shared_name) = Some x /\
     Dom.name (Dom.elem x) = "doc" /\ Dom.type (Dom.elem x) = "file") /\
  snd (collect Sample.browser 0
         (FormData (Dom.Node 0 (Sample.form (Some "listing"))
            [Dom.Node 1 (Sample.input "doc" "text" "deed" false) [];
             Dom.Node 2 (Sample.file_input "doc" ["scan.png"]) []]))
         [] Sample.shared_name) = Ok [("doc", EFile "scan.png")] /\
  localStorage
    (fst (saveFormData Sample.browser 0 "listing" Sample.shared_name))
    !! storage_key "listing" =
    Some (JSON_stringify [("doc", EFile "scan.png")]).
Proof.
  split; [eexists; repeat split; reflexivity|].
  split; vm_compute; reflexivity.
Qed.

(** *** Rehydration *)

Section Rehydrate.
Variable env : platform.
Local Open Scope list_scope.

(** On a page without error nodes [clearFieldError] only takes the class
    [error] off the field, also when it throws. *)
Lemma clearFieldError_loading this st :
  (forall n, n ∈ Dom.preorder (document st) ->
     Dom.has_class "field-error" n = false) ->
  fst (clearFieldError this st) =
  set_document
    (List.map (Dom.update this (Dom.remove_class "error")) (document st)) st.
Proof.
  intros H.
  destruct (Dom.parent this (document st)) as [p|] eqn:Hp.
  - rewrite (Annotation.clearFieldError_run this st p Hp).
    rewrite DomFacts.find_none; [reflexivity|].
    intros x Hx. apply H.
    apply DomFacts.parent_some in Hp as [Hp _].
    eapply DomFacts.subtree_incl; eauto.
    unfold Dom.subtree. apply elem_of_cons. now right.
  - unfold clearFieldError, bind, modify_document, modify, parentElement.
    simpl. now rewrite DomFacts.parent_update, Hp.
Qed.

Lemma bind_lift_ok {A B} (a : A) (k : A -> M B) (st : page) :
  bind (lift (Ok a)) k st = k a st.
Proof. reflexivity. Qed.

Lemma bind_ok {A B} (c : M A) (k : A -> M B) (st st' : page) (a : A) :
  c st = (st', Ok a) -> bind c k st = k a st'.
Proof. intros H. unfold bind. now rewrite H. Qed.

Lemma assign_value_accepts x v st :
  accepts env (Dom.elem x) v = true ->
  assign_value env x v st =
  (set_document
     (List.map (Dom.update (Dom.handle x) (Dom.with_value v)) (document st))
     st, Ok tt).
Proof.
  unfold accepts, assign_value. intros H.
  apply andb_true_iff in H as [H1 H2]. apply negb_true_iff in H1.
  apply eqb_true in H2. now rewrite H1, H2.
Qed.

Lemma loading_with_value h v st :
  loading st ->
  loading (set_document
             (List.map (Dom.update h (Dom.with_value v)) (document st)) st).
Proof.
  intros [Hne Hls]. split; [|exact Hls].
  intros n Hn. simpl in Hn. rewrite DomFacts.preorder_update in Hn.
  apply DomFacts.elem_of_map_inv in Hn as (m & <- & Hm).
  change (is_err (Dom.update h (Dom.with_value v) m) = false).
  rewrite Annotation.is_err_update by reflexivity. now apply Hne.
Qed.

Lemma accepts_alike e e' v :
  alike e e' -> accepts env e' v = accepts env e v.
Proof.
  intros (A1 & A2 & A3 & A4 & _). unfold accepts, value_after.
  now rewrite A1, A3, A4.
Qed.

(** The listeners of an input event edit the document and keep the value
    of every element. *)
Lemma run_listeners_edit ls prevented st :
  (forall n, n ∈ Dom.preorder (document st) ->
     Dom.has_class "field-error" n = false) ->
  (forall this l, (this, l) ∈ ls ->
     l = OnInputClear \/ exists formId, l = OnInputAutosave formId) ->
  exists U,
    edit U /\ keeps_values U /\
    document (fst (run_listeners ls prevented st)) =
    List.map U (document st).
Proof.
  revert prevented st. induction ls as [|[this l] r IH];
    intros pv st Hne Hls.
  - exists (fun n => n). split; [apply Edits.edit_id|].
    split; [intros n; reflexivity|]. simpl. now rewrite List.map_id.
  - assert (Hr : forall this' l', (this', l') ∈ r ->
              l' = OnInputClear \/ exists formId, l' = OnInputAutosave formId).
    { intros this' l' Hin. apply (Hls this'). apply elem_of_cons. now right. }
    destruct (Hls this l) as [->|[formId ->]]; [apply elem_of_cons; now left| |].
    + set (u := Dom.update this (Dom.remove_class "error")).
      assert (Hu : edit u)
        by (apply Edits.edit_update, Edits.alike_remove_class).
      assert (Hstep : exists pv',
                run_listeners ((this, OnInputClear) :: r) pv st =
                run_listeners r pv'
                  (set_document (List.map u (document st)) st)).
      { simpl. pose proof (clearFieldError_loading this st Hne) as Hc.
        unfold bind. destruct (clearFieldError this st) as [st1 [[]|e]];
          simpl in Hc; subst st1; eauto. }
      destruct Hstep as [pv' ->].
      destruct (IH pv' (set_document (List.map u (document st)) st))
        as (U & HU & HV & ->); [|exact Hr|].
      { simpl. now apply Edits.no_errors_edit. }
      exists (fun n => U (u n)).
      split; [now apply Edits.edit_compose|]. split.
      * intros n. rewrite HV. unfold u. rewrite Edits.update_elem.
        now destruct (Nat.eqb (Dom.handle n) this).
      * simpl. now rewrite List.map_map.
    + simpl. unfold bind, debounce_restart, modify. simpl.
      match goal with
      | |- context [run_listeners r ?b ?s] =>
          destruct (IH b s Hne Hr) as (U & HU & HV & Hd)
      end.
      exists U. auto.
Qed.

Lemma dispatch_input_edit target st :
  loading st ->
  exists U,
    edit U /\ keeps_values U /\
    document (fst (dispatchEvent target Input st)) =
    List.map U (document st) /\
    loading (fst (dispatchEvent target Input st)).
Proof.
  intros [Hne Hls].
  destruct (run_listeners_edit
              (flat_map (fun h => List.map (fun l => (h, l))
                                    (listeners_of h Input st))
                 (target :: ancestors target (document st))) false st Hne)
    as (U & HU & HV & Hd).
  { intros this l Hin.
    apply list_elem_of_In, in_flat_map in Hin as (t & _ & Hin).
    apply in_map_iff in Hin as (l' & E & Hin). injection E as <- <-.
    unfold listeners_of in Hin.
    apply in_flat_map in Hin as ([[h' ty'] l''] & Hreg & Hin).
    destruct (Nat.eqb h' t && bool_decide (ty' = Input)) eqn:Ec;
      [|inversion Hin].
    destruct Hin as [<-|[]].
    apply andb_true_iff in Ec as [_ Ec]. apply bool_decide_eq_true in Ec.
    subst ty'. apply (Hls h'). now apply list_elem_of_In. }
  exists U. split; [exact HU|]. split; [exact HV|]. split; [exact Hd|].
  split.
  - unfold dispatchEvent. rewrite Hd. now apply Edits.no_errors_edit.
  - intros h l. rewrite Load.dispatch_listeners. apply Hls.
Qed.

Section Loop.
Variables (form : nat) (doc0 : list Dom.node) (f0 : Dom.node).
Hypothesis Hf0 : Dom.lookup form doc0 = Some f0.
Hypothesis ND0 : NoDup (Dom.handles doc0).

Let field (k : string) : option Dom.node :=
  List.find (Dom.has_name k) (Dom.descendants f0).

Lemma field_in_document k x : field k = Some x -> x ∈ Dom.preorder doc0.
Proof.
  intros Hx. apply DomFacts.find_some in Hx as [Hx _].
  apply DomFacts.lookup_some in Hf0 as [Hf _].
  eapply DomFacts.subtree_incl; eauto.
  unfold Dom.subtree. apply elem_of_cons. now right.
Qed.

Lemma field_has_name k x : field k = Some x -> Dom.name (Dom.elem x) = k.
Proof.
  intros Hx. apply DomFacts.find_some in Hx as [_ Hx].
  unfold Dom.has_name in Hx. now apply bool_decide_eq_true in Hx.
Qed.

(** One turn of the loop: the field of the key, if any, takes the value,
    and no other element changes its value. *)
Lemma restore_one T st k v :
  edit T -> document st = List.map T doc0 -> loading st ->
  restorable env f0 k v ->
  exists st' T',
    restore env form (k, Json.JString v) st = (st', Ok tt) /\
    edit T' /\ document st' = List.map T' doc0 /\ loading st' /\
    (forall x, field k = Some x -> v <> "" ->
       Dom.value (Dom.elem (T' x)) = v) /\
    (forall n, (forall x, field k = Some x -> Dom.handle x <> Dom.handle n) ->
       Dom.value (Dom.elem (T' n)) = Dom.value (Dom.elem (T n))).
Proof.
  intros HT Hd Hload [Hk Hacc].
  assert (Hq : form_querySelector_name env form k st =
               (st, Ok (option_map T (field k)))).
  { unfold form_querySelector_name.
    rewrite Hd, (Edits.lookup_edit T HT), Hf0. simpl.
    now rewrite Hk, (Edits.descendants_edit T HT),
      (Edits.find_name_edit T HT). }
  destruct (field k) as [x|] eqn:Hx;
    [change (option_map T (Some x)) with (Some (T x)) in Hq
    |change (option_map T None) with (@None Dom.node) in Hq].
  2:{ exists st, T. split.
      { unfold restore. now rewrite (bind_ok _ _ _ _ _ Hq). }
      split; [exact HT|]. split; [exact Hd|]. split; [exact Hload|].
      split; [discriminate|reflexivity]. }
  destruct (decide (v = "")) as [->|Hv].
  { exists st, T. split.
    { unfold restore. now rewrite (bind_ok _ _ _ _ _ Hq). }
    split; [exact HT|]. split; [exact Hd|]. split; [exact Hload|].
    split; [congruence|reflexivity]. }
  assert (Ha : accepts env (Dom.elem (T x)) v = true).
  { rewrite (accepts_alike _ _ _ (edit_elem T HT x)). now apply Hacc. }
  set (w := Dom.update (Dom.handle x) (Dom.with_value v)).
  set (st1 := set_document (List.map w (document st)) st).
  assert (Hrun : restore env form (k, Json.JString v) st =
                 (fst (dispatchEvent (Dom.handle x) Input st1), Ok tt)).
  { unfold restore. rewrite (bind_ok _ _ _ _ _ Hq).
    change (truthy (Json.JString v)) with (Str.truthy v).
    rewrite (proj2 (truthy_true v) Hv).
    change (to_string env (Json.JString v)) with (Ok (A := string) v).
    rewrite bind_lift_ok.
    rewrite (bind_ok _ _ _ _ tt (assign_value_accepts (T x) v st Ha)).
    now rewrite (edit_handle T HT). }
  destruct (dispatch_input_edit (Dom.handle x) st1
              (loading_with_value _ _ _ Hload))
    as (U & HU & HV & HdU & HlU).
  assert (Hw : edit w)
    by (apply Edits.edit_update; intros e; apply Edits.alike_with_value).
  exists (fst (dispatchEvent (Dom.handle x) Input st1)),
         (fun n => U (w (T n))).
  split; [exact Hrun|]. split.
  { apply (Edits.edit_compose (fun n => w (T n)) U); [|exact HU].
    now apply Edits.edit_compose. }
  split.
  { rewrite HdU. unfold st1. simpl. rewrite Hd, !List.map_map. reflexivity. }
  split; [exact HlU|]. split.
  - intros x' E _. injection E as <-. rewrite HV. unfold w.
    now rewrite Edits.update_elem, (edit_handle T HT), Nat.eqb_refl.
  - intros n Hn. rewrite HV. unfold w.
    rewrite Edits.update_elem, (edit_handle T HT).
    destruct (Nat.eqb (Dom.handle n) (Dom.handle x)) eqn:E; [|reflexivity].
    apply Nat.eqb_eq in E. exfalso. now apply (Hn x).
Qed.

(** The loop: every member with a non-empty value ends as the value of
    its field. *)
Lemma restore_all es : forall T st,
  edit T -> document st = List.map T doc0 -> loading st ->
  NoDup (List.map fst es) ->
  (forall k j, (k, j) ∈ es ->
     exists v, j = Json.JString v /\ restorable env f0 k v) ->
  exists st' T',
    forEach es (restore env form) st = (st', Ok tt) /\
    edit T' /\ document st' = List.map T' doc0 /\ loading st' /\
    (forall k v x, (k, Json.JString v) ∈ es -> v <> "" -> field k = Some x ->
       Dom.value (Dom.elem (T' x)) = v) /\
    (forall n, n ∈ Dom.preorder doc0 ->
       (forall k x, k ∈ List.map fst es -> field k = Some x ->
          Dom.handle x <> Dom.handle n) ->
       Dom.value (Dom.elem (T' n)) = Dom.value (Dom.elem (T n))).
Proof.
  induction es as [|[k1 j1] r IH]; intros T st HT Hd Hload ND Hes.
  - exists st, T. split; [reflexivity|]. split; [exact HT|].
    split; [exact Hd|]. split; [exact Hload|].
    split; [|reflexivity]. intros k v x Hin. inversion Hin.
  - simpl in ND. apply NoDup_cons in ND as [Hk1 ND].
    destruct (Hes k1 j1) as (v1 & -> & Hres1); [apply elem_of_cons; now left|].
    destruct (restore_one T st k1 v1 HT Hd Hload Hres1)
      as (st1 & T1 & Hrun1 & HT1 & Hd1 & Hl1 & Hset1 & Hkeep1).
    destruct (IH T1 st1 HT1 Hd1 Hl1 ND) as
      (st2 & T2 & Hrun2 & HT2 & Hd2 & Hl2 & Hset2 & Hkeep2).
    { intros k j Hin. apply Hes. apply elem_of_cons. now right. }
    exists st2, T2. split.
    { simpl forEach. now rewrite (bind_ok _ _ _ _ _ Hrun1). }
    split; [exact HT2|]. split; [exact Hd2|]. split; [exact Hl2|]. split.
    + intros k v x Hin Hv Hx. apply elem_of_cons in Hin as [E|Hin].
      * injection E as -> ->. rewrite Hkeep2.
        -- now apply Hset1.
        -- now apply (field_in_document k1).
        -- intros k' x' Hk' Hx' E.
           apply (DomFacts.handle_inj doc0) in E;
             [|exact ND0|now apply (field_in_document k')
              |now apply (field_in_document k1)].
           subst x'. apply field_has_name in Hx, Hx'. congruence.
      * now apply (Hset2 k v x).
    + intros n Hn Hother. rewrite Hkeep2, Hkeep1; [reflexivity| |exact Hn|].
      * intros x Hx. apply (Hother k1); [|exact Hx].
        simpl. apply elem_of_cons. now left.
      * intros k x Hk Hx. apply (Hother k); [|exact Hx].
        simpl. apply elem_of_cons. now right.
Qed.

End Loop.

(** A stored object of strings: [loadFormData] returns, and every member
    with a non-empty value ends as the value of the field of its name. *)
Lemma load_object form formId st f saved P :
  Dom.wf (document st) (fresh st) ->
  loading st ->
  localStorage st !! storage_key formId = Some saved ->
  Str.truthy saved = true ->
  Json.parse saved = Ok (Json.JObject P) ->
  NoDup (List.map fst P) ->
  Dom.lookup form (document st) = Some f ->
  (forall k j, (k, j) ∈ P ->
     exists v, j = Json.JString v /\ restorable env f k v) ->
  exists st',
    loadFormData env form formId st = (st', Ok tt) /\
    forall k v x,
      (k, Json.JString v) ∈ P -> v <> "" ->
      List.find (Dom.has_name k) (Dom.descendants f) = Some x ->
      exists x',
        Dom.lookup (Dom.handle x) (document st') = Some x' /\
        Dom.value (Dom.elem x') = v /\
        Dom.name (Dom.elem x') = k.
Proof.
  intros Hwf Hload Hs Hne Hparse ND Hf Hres.
  destruct (restore_all form (document st) f Hf (proj1 Hwf) P
              (fun n => n) st Edits.edit_id)
    as (st' & T' & Hrun & HT' & Hd' & _ & Hset & _);
    [now rewrite List.map_id|exact Hload|exact ND|exact Hres|].
  exists (set_console (console st' ++ ["Form data loaded: " +:+ formId]) st').
  split.
  - unfold loadFormData. rewrite Load.bind_get, Hs, Hne.
    change (negb true) with false. cbv iota.
    unfold try_catch. rewrite Hparse, bind_lift_ok.
    change (Object_entries (Json.JObject P)) with (Ok (A := list _) P).
    rewrite bind_lift_ok, (bind_ok _ _ _ _ _ Hrun). reflexivity.
  - intros k v x Hin Hv Hx. exists (T' x). split; [|split].
    + simpl. rewrite Hd', (Edits.lookup_edit T' HT').
      rewrite DomFacts.lookup_unique; [reflexivity|exact (proj1 Hwf)|].
      now apply (field_in_document form (document st) f Hf k).
    + now apply (Hset k v x).
    + destruct (edit_elem T' HT' x) as (_ & -> & _).
      now apply (field_has_name f k).
Qed.

(** The members of the object read back from a draft of strings. *)
Lemma draft_members data :
  NoDup (List.map fst data) ->
  NoDup (List.map fst (define_all (draft data) [])) /\
  forall k j,
    (k, j) ∈ define_all (draft data) [] <->
    exists v, j = Json.JString v /\ (k, v) ∈ data.
Proof.
  intros ND.
  assert (NDd : NoDup (List.map fst (draft data))).
  { unfold draft. now rewrite List.map_map. }
  destruct (JsonFacts.define_all_in (draft data) NDd []
              (NoDup_nil_2 (A := string))) as [NDP HP].
  split; [exact NDP|]. intros k j. rewrite HP. split.
  - intros [(ev & Hin & ->)|[_ Hin]]; [|inversion Hin].
    apply DomFacts.elem_of_map_inv in Hin as ([k' v] & E & Hin).
    injection E as -> <-. now exists v.
  - intros (v & -> & Hin). left. exists (EString v).
    split; [|reflexivity]. unfold draft.
    change (k, EString v) with ((fun kv => (fst kv, EString (snd kv))) (k, v)).
    now apply DomFacts.elem_of_map.
Qed.

(** A draft of strings in the store is read back by [loadFormData] on a
    freshly loaded form: for every member that maps a field name to a
    non-empty string, the field of that name ends with the saved string
    as its value.  The names are ones that a selector reads as they are,
    and the fields are controls that keep the string they are given. *)
Lemma draft_is_restored form formId st f data :
  Dom.wf (document st) (fresh st) ->
  loading st ->
  localStorage st !! storage_key formId =
    Some (JSON_stringify (draft data)) ->
  NoDup (List.map fst data) ->
  Dom.lookup form (document st) = Some f ->
  (forall k v, (k, v) ∈ data -> restorable env f k v) ->
  exists st',
    loadFormData env form formId st = (st', Ok tt) /\
    forall k v x,
      (k, v) ∈ data -> v <> "" ->
      List.find (Dom.has_name k) (Dom.descendants f) = Some x ->
      exists x',
        Dom.lookup (Dom.handle x) (document st') = Some x' /\
        Dom.value (Dom.elem x') = v /\
        Dom.name (Dom.elem x') = k.
Proof.
  intros Hwf Hload Hs ND Hf Hres.
  destruct (draft_members data ND) as [NDP HP].
  destruct (load_object form formId st f _ _ Hwf Hload Hs eq_refl
              (JsonFacts.parse_stringify _) NDP Hf) as (st' & Hrun & Hval).
  { intros k j Hin. apply HP in Hin as (v & -> & Hin).
    exists v. split; [reflexivity|now apply Hres]. }
  exists st'. split; [exact Hrun|].
  intros k v x Hin. apply Hval, HP. now exists v.
Qed.

(** X13: a draft that [saveFormData] wrote from a form with distinct
    names is read back by [loadFormData] on a freshly loaded page that
    has the store: every control that [FormData] listed with a non-empty
    value gives that value to the field of its name. *)
Theorem save_then_load source formId page0 f0 form st f :
  Dom.lookup source (document page0) = Some f0 ->
  distinct_names f0 ->
  plain_names f0 ->
  Dom.wf (document st) (fresh st) ->
  loading st ->
  localStorage st =
    localStorage (fst (saveFormData env source formId page0)) ->
  Dom.lookup form (document st) = Some f ->
  (forall x k v, x ∈ Dom.descendants f0 ->
     Dom.type (Dom.elem x) <> "file" ->
     (k, EString v) ∈ entries_of (Dom.elem x) ->
     restorable env f k v) ->
  exists st',
    loadFormData env form formId st = (st', Ok tt) /\
    forall x k v y,
      x ∈ Dom.descendants f0 ->
      Dom.type (Dom.elem x) <> "file" ->
      (k, EString v) ∈ entries_of (Dom.elem x) ->
      v <> "" ->
      List.find (Dom.has_name k) (Dom.descendants f) = Some y ->
      exists y',
        Dom.lookup (Dom.handle y) (document st') = Some y' /\
        Dom.value (Dom.elem y') = v /\
        Dom.name (Dom.elem y') = k.
Proof.
  intros Hf0 Hd Hp Hwf Hload Hstore Hf Hres.
  destruct (payload_draft f0 Hd Hp) as (data & Edata & ND & Hdata).
  rewrite (saveFormData_stores env f0 source formId page0 Hp Hf0) in Hstore.
  simpl in Hstore.
  assert (Hs : localStorage st !! storage_key formId =
               Some (JSON_stringify (draft data))).
  { rewrite Hstore, <- Edata. apply lookup_insert_eq. }
  destruct (draft_members data ND) as [NDP HP].
  destruct (load_object form formId st f _ _ Hwf Hload Hs eq_refl
              (JsonFacts.parse_stringify _) NDP Hf) as (st' & Hrun & Hval).
  { intros k j Hin. apply HP in Hin as (v & -> & Hin).
    exists v. split; [reflexivity|].
    apply Hdata in Hin as (x & Hx & Ht & Hin). now apply (Hres x). }
  exists st'. split; [exact Hrun|].
  intros x k v y Hx Ht Hin. apply Hval, HP. exists v.
  split; [reflexivity|]. apply Hdata. now exists x.
Qed.

(** C6: [saveFormData] on a form whose payload maps names to strings,
    then [loadFormData] for the same [formId] on a freshly loaded page
    that holds the store which the save left: the save returns and
    writes the payload under the key of the [formId], the load returns,
    and for every member of the payload with a non-empty string the
    field of that name in the fresh form ends with the saved string as
    its value.  The names are ones that a selector reads as they are,
    and the fields are controls that keep the string they are given. *)
Theorem autosave_round_trip source formId page0 f0 data form st f :
  Dom.lookup source (document page0) = Some f0 ->
  plain_names f0 ->
  payload f0 = draft data ->
  Dom.wf (document st) (fresh st) ->
  loading st ->
  localStorage st =
    localStorage (fst (saveFormData env source formId page0)) ->
  Dom.lookup form (document st) = Some f ->
  (forall k v, (k, v) ∈ data -> restorable env f k v) ->
  snd (saveFormData env source formId page0) = Ok tt /\
  localStorage (fst (saveFormData env source formId page0))
    !! storage_key formId = Some (JSON_stringify (draft data)) /\
  exists st',
    loadFormData env form formId st = (st', Ok tt) /\
    forall k v x,
      (k, v) ∈ data -> v <> "" ->
      List.find (Dom.has_name k) (Dom.descendants f) = Some x ->
      exists x',
        Dom.lookup (Dom.handle x) (document st') = Some x' /\
        Dom.value (Dom.elem x') = v /\
        Dom.name (Dom.elem x') = k.
Proof.
  intros Hf0 Hp Edata Hwf Hload Hstore Hf Hres.
  rewrite (saveFormData_stores env f0 source formId page0 Hp Hf0) in *.
  simpl in *. rewrite Edata in *.
  split; [reflexivity|]. split; [apply lookup_insert_eq|].
  assert (ND : NoDup (List.map fst data)).
  { pose proof (payload_keys f0) as ND. rewrite Edata in ND.
    unfold draft in ND. now rewrite List.map_map in ND. }
  assert (Hs : localStorage st !! storage_key formId =
               Some (JSON_stringify (draft data))).
  { rewrite Hstore. apply lookup_insert_eq. }
  destruct (draft_members data ND) as [NDP HP].
  destruct (load_object form formId st f _ _ Hwf Hload Hs eq_refl
              (JsonFacts.parse_stringify _) NDP Hf) as (st' & Hrun & Hval).
  { intros k j Hin. apply HP in Hin as (v & -> & Hin).
    exists v. split; [reflexivity|now apply Hres]. }
  exists st'. split; [exact Hrun|].
  intros k v x Hin. apply Hval, HP. now exists v.
Qed.

End Rehydrate.

(** A visit that types a name and an address, a write of the draft, and
    a reload of the page: the fields come back with what was typed. *)
Example draft_survives_reload :
  let visit :=
    Sample.one_form (Some "signup")
      [Sample.input "name" "text" "Alice" true;
       Sample.input "email" "email" "a@b" false] in
  let store := localStorage (fst (saveFormData Sample.browser 0 "signup" visit)) in
  let reload :=
    set_localStorage store
      (Sample.one_form (Some "signup")
         [Sample.input "name" "text" "" true;
          Sample.input "email" "email" "" false]) in
  let loaded := document (fst (initFormEnhancements Sample.browser reload)) in
  option_map (fun n => Dom.value (Dom.elem n)) (Dom.lookup 1 loaded) =
    Some "Alice" /\
  option_map (fun n => Dom.value (Dom.elem n)) (Dom.lookup 2 loaded) =
    Some "a@b".
Proof. vm_compute. split; reflexivity. Qed.

Lemma autosave_round_trip_witness :
  localStorage (fst (saveFormData Sample.browser 0 "signup" visit))
    !! storage_key "signup" =
    Some (JSON_stringify [("name", EString "Alice");
                          ("email", EString "a@b")]) /\
  exists st' x',
    loadFormData Sample.browser 0 "signup" revisit = (st', Ok tt) /\
    Dom.lookup 1 (document st') = Some x' /\
    Dom.value (Dom.elem x') = "Alice" /\
    Dom.name (Dom.elem x') = "name".
Proof.
  destruct (autosave_round_trip Sample.browser 0 "signup" visit
              (Dom.Node 0 (Sample.form (Some "signup"))
                 [Dom.Node 1 (Sample.input "name" "text" "Alice" true) [];
                  Dom.Node 2 (Sample.input "email" "email" "a@b" false) []])
              [("name", "Alice"); ("email", "a@b")]
              0 revisit
              (Dom.Node 0 (Sample.form (Some "signup"))
                 [Dom.Node 1 (Sample.input "name" "text" "" true) [];
                  Dom.Node 2 (Sample.input "email" "email" "" false) []]))
    as (_ & Hsaved & st' & Hrun & Hval).
  - reflexivity.
  - intros x Hx _.
    repeat (apply elem_of_cons in Hx as [->|Hx]);
      [split; [reflexivity|discriminate]..|inversion Hx].
  - reflexivity.
  - split; apply (bool_decide_unpack _); vm_compute; exact I.
  - split.
    + intros n Hn. apply list_elem_of_In in Hn. vm_compute in Hn.
      repeat (destruct Hn as [<-|Hn]; [reflexivity|]). destruct Hn.
    + intros h l Hin. apply list_elem_of_In in Hin. vm_compute in Hin.
      repeat (destruct Hin as [Hin|Hin];
              [first [discriminate Hin | injection Hin as <- <-; now left]|]).
      destruct Hin.
  - reflexivity.
  - reflexivity.
  - intros k v Hin. apply list_elem_of_In in Hin.
    destruct Hin as [E|[E|[]]]; injection E as <- <-;
      (split; [reflexivity|]); intros y Hy _;
      vm_compute in Hy; injection Hy as <-; reflexivity.
  - split; [exact Hsaved|].
    destruct (Hval "name" "Alice"
                (Dom.Node 1 (Sample.input "name" "text" "" true) []))
      as (x' & Hx & Hv & Hn);
      [apply elem_of_cons; now left|discriminate|reflexivity|].
    exists st', x'. auto.
Defined.

End Store.

(* ===================================================================== *)
(** ** The patterns of the validator *)
(* ===================================================================== *)

Module Patterns.
Import Regex.

Lemma test_Empty s : test Empty s = false.
Proof. induction s; [reflexivity|exact IHs]. Qed.

Lemma test_Empty_seq b s : test (Seq Empty b) s = false.
Proof. induction s; [reflexivity|exact IHs]. Qed.

Lemma test_alt a b s : test (Alt a b) s = test a s || test b s.
Proof.
  revert a b. induction s as [|c s IH]; intros a b; [reflexivity|].
  simpl. apply IH.
Qed.

Lemma test_Eps_seq b s : test (Seq Eps b) s = test b s.
Proof.
  destruct s as [|c s]; [reflexivity|].
  simpl. now rewrite test_alt, test_Empty_seq.
Qed.

Lemma test_class_seq p b c s :
  test (Seq (Class p) b) (String c s) = p c && test b s.
Proof.
  simpl. destruct (p c); [apply test_Eps_seq|apply test_Empty_seq].
Qed.

(** [c{n}] accepts the strings of [n] characters of the class. *)
Lemma test_repeat p n : forall s,
  test (Repeat n (Class p)) s =
  Nat.eqb (String.length s) n && Str.all_chars p s.
Proof.
  induction n as [|n IH]; intros [|c s].
  - reflexivity.
  - simpl. apply test_Empty.
  - reflexivity.
  - change (Repeat (S n) (Class p)) with (Seq (Class p) (Repeat n (Class p))).
    rewrite test_class_seq, IH. unfold Str.all_chars. simpl.
    destruct (p c); [reflexivity|]. simpl. now rewrite andb_false_r.
Qed.

(** The phone pattern accepts the ten-digit mobile numbers. *)
Lemma test_phone s : test phoneRegex s = mobile_number s.
Proof.
  destruct s as [|c s]; [reflexivity|].
  unfold phoneRegex. rewrite test_class_seq, test_repeat.
  simpl. now rewrite andb_assoc.
Qed.

Lemma matches_class p s :
  matches (Class p) s <-> exists c, s = String c "" /\ p c = true.
Proof.
  split.
  - inversion 1; subst. eauto.
  - intros (c & -> & H). now constructor.
Qed.

Lemma matches_star_class p s :
  matches (Star (Class p)) s <-> Str.all_chars p s = true.
Proof.
  split.
  - intros H. remember (Star (Class p)) as r eqn:E.
    induction H; try discriminate; [reflexivity|].
    injection E as ->.
    apply matches_class in H as (c & -> & Hc).
    unfold Str.all_chars in *. simpl. rewrite Hc. now apply IHmatches2.
  - induction s as [|c s IH]; intros H; [constructor|].
    unfold Str.all_chars in H. simpl in H.
    apply andb_true_iff in H as [Hc Hs].
    change (String c s) with (String c "" +:+ s)%string.
    constructor; [now constructor|now apply IH].
Qed.

Lemma matches_plus_class p s :
  matches (Plus (Class p)) s <->
  Str.truthy s = true /\ Str.all_chars p s = true.
Proof.
  unfold Plus. split.
  - inversion 1 as [| |a b s1 s2 H1 H2| | | |]; subst.
    apply matches_class in H1 as (c & -> & Hc).
    apply matches_star_class in H2.
    split; [reflexivity|]. unfold Str.all_chars in *. simpl.
    now rewrite Hc.
  - destruct s as [|c s]; intros [Hne H]; [discriminate|].
    unfold Str.all_chars in H. simpl in H.
    apply andb_true_iff in H as [Hc Hs].
    change (String c s) with (String c "" +:+ s)%string.
    constructor; [now constructor|now apply matches_star_class].
Qed.

(** The address pattern accepts the strings [a@b.c] whose three parts
    are not empty and hold neither white space nor [@]. *)
Lemma test_email s :
  test emailRegex s = true <->
  exists a b c,
    s = (a +:+ "@" +:+ b +:+ "." +:+ c)%string /\
    address_part a = true /\ address_part b = true /\
    address_part c = true.
Proof.
  rewrite RegexFacts.test_matches. unfold emailRegex, address_part. split.
  - intros H.
    inversion H as [| |r1 r2 a t1 Ha H1| | | |]; subst.
    inversion H1 as [| |r1 r2 x t2 Hx H2| | | |]; subst.
    inversion H2 as [| |r1 r2 b t3 Hb H3| | | |]; subst.
    inversion H3 as [| |r1 r2 y c Hy Hc| | | |]; subst.
    apply matches_class in Hx as (x' & -> & Ex).
    apply matches_class in Hy as (y' & -> & Ey).
    unfold is_char in Ex, Ey.
    apply bool_decide_eq_true in Ex, Ey. subst x' y'.
    apply matches_plus_class in Ha, Hb, Hc.
    exists a, b, c. split; [reflexivity|].
    rewrite !andb_true_iff. tauto.
  - intros (a & b & c & -> & Ha & Hb & Hc).
    apply andb_true_iff in Ha, Hb, Hc.
    repeat constructor; try (now apply matches_plus_class);
      apply bool_decide_eq_true; reflexivity.
Qed.

End Patterns.

(* ===================================================================== *)
(** ** More on the verdicts of the validator *)
(* ===================================================================== *)

Module Rules.
Import DomFacts Annotation.
Local Open Scope list_scope.

Lemma tidy_phone v : tidy 1 (Pages.phone v).
Proof. tidy_sample. Qed.

Lemma tidy_address v : tidy 1 (Pages.address v).
Proof. tidy_sample. Qed.

Lemma tidy_password v : tidy 1 (Pages.password v).
Proof. tidy_sample. Qed.

Lemma tidy_notes v : tidy 1 (Pages.notes v).
Proof. tidy_sample. Qed.

(** *** The phone rule *)

Lemma checkField_phone doc e :
  Dom.name e = "phone_number" -> Dom.type e <> "email" ->
  field_value e <> "" ->
  checkField doc e =
  if mobile_number (field_value e) then (true, "")
  else (false, "Please enter a valid 10-digit mobile number").
Proof.
  intros Hn Ht Hv. rewrite checkField_last_failing.
  unfold last_failing. rewrite failures_unfold.
  rewrite Validator.rule_required_off, Validator.rule_email_off,
    Validator.rule_password1_off, Validator.rule_password2_off,
    Validator.rule_price_off by (rewrite ?Hn; done).
  unfold rule_phone.
  rewrite Hn, eqb_refl, (proj2 (truthy_true _) Hv), Patterns.test_phone.
  destruct (mobile_number _); reflexivity.
Qed.

(** X1: a non-empty [phone_number] field (not an email input) passes
    exactly when its trimmed value is a ten-digit mobile number, that is
    a digit from 6 to 9 followed by nine digits; otherwise the message
    is "Please enter a valid 10-digit mobile number". *)
Theorem phone_rule st field n :
  tidy field st ->
  Dom.lookup field (document st) = Some n ->
  Dom.name (Dom.elem n) = "phone_number" ->
  Dom.type (Dom.elem n) <> "email" ->
  field_value (Dom.elem n) <> "" ->
  exists st',
    validateField field st =
      (st', Ok (mobile_number (field_value (Dom.elem n)))) /\
    field_errors field st' =
      if mobile_number (field_value (Dom.elem n)) then []
      else [error_html "Please enter a valid 10-digit mobile number"].
Proof.
  intros Ht Hl Hn Hty Hv.
  destruct (validateField_tidy field st n Ht Hl) as (st' & Hr & _ & He & _).
  rewrite (checkField_phone _ _ Hn Hty Hv) in Hr, He.
  exists st'. destruct (mobile_number _); simpl in *; auto.
Qed.

Lemma phone_rule_witness :
  exists st',
    validateField 1 (Pages.phone " 98765 43210 ") = (st', Ok false) /\
    field_errors 1 st' =
      [error_html "Please enter a valid 10-digit mobile number"].
Proof.
  apply (phone_rule (Pages.phone " 98765 43210 ") 1
           (Dom.Node 1 (Sample.input "phone_number" "tel" " 98765 43210 "
                          false) [])
           (tidy_phone _) eq_refl eq_refl); discriminate.
Defined.

(** *** The address rule *)

Lemma checkField_email doc e :
  Dom.type e = "email" -> Dom.name e ∉ ruled_names ->
  field_value e <> "" ->
  checkField doc e =
  if Regex.test emailRegex (field_value e) then (true, "")
  else (false, "Please enter a valid email address").
Proof.
  intros Ht Hn Hv. unfold ruled_names in Hn.
  rewrite !not_elem_of_cons in Hn. destruct Hn as (N1 & N2 & N3 & N4 & _).
  rewrite checkField_last_failing.
  unfold last_failing. rewrite failures_unfold.
  rewrite Validator.rule_required_off, Validator.rule_phone_off,
    Validator.rule_password1_off, Validator.rule_password2_off,
    Validator.rule_price_off by assumption.
  unfold rule_email.
  rewrite Ht, eqb_refl, (proj2 (truthy_true _) Hv).
  destruct (Regex.test _ _); reflexivity.
Qed.

(** X2: a non-empty email input, whose name has no rule of its own,
    passes exactly when its trimmed value has the shape [a@b.c] with
    three parts that are not empty and hold neither white space nor
    [@]; otherwise the message is "Please enter a valid email
    address". *)
Theorem email_rule st field n :
  tidy field st ->
  Dom.lookup field (document st) = Some n ->
  Dom.type (Dom.elem n) = "email" ->
  Dom.name (Dom.elem n) ∉ ruled_names ->
  field_value (Dom.elem n) <> "" ->
  (exists st',
     validateField field st =
       (st', Ok (Regex.test emailRegex (field_value (Dom.elem n)))) /\
     field_errors field st' =
       if Regex.test emailRegex (field_value (Dom.elem n)) then []
       else [error_html "Please enter a valid email address"]) /\
  (Regex.test emailRegex (field_value (Dom.elem n)) = true <->
   exists a b c,
     field_value (Dom.elem n) = (a +:+ "@" +:+ b +:+ "." +:+ c)%string /\
     address_part a = true /\ address_part b = true /\
     address_part c = true).
Proof.
  intros Ht Hl Hty Hn Hv. split; [|apply Patterns.test_email].
  destruct (validateField_tidy field st n Ht Hl) as (st' & Hr & _ & He & _).
  rewrite (checkField_email _ _ Hty Hn Hv) in Hr, He.
  exists st'. destruct (Regex.test _ _); simpl in *; auto.
Qed.

Lemma email_rule_witness :
  exists st',
    validateField 1 (Pages.address "a@b@c.org") = (st', Ok false) /\
    field_errors 1 st' = [error_html "Please enter a valid email address"].
Proof.
  destruct (email_rule (Pages.address "a@b@c.org") 1
              (Dom.Node 1 (Sample.input "contact" "email" "a@b@c.org" false)
                 [])
              (tidy_address _) eq_refl eq_refl) as [H _];
    [apply (bool_decide_unpack _); vm_compute; exact I
    |discriminate|exact H].
Defined.

(** *** The password rule *)

Lemma checkField_password1 doc e :
  Dom.name e = "password1" -> Dom.type e <> "email" ->
  field_value e <> "" ->
  checkField doc e =
  if Nat.leb 8 (String.length (field_value e)) then (true, "")
  else (false, "Password must be at least 8 characters long").
Proof.
  intros Hn Ht Hv. rewrite checkField_last_failing.
  unfold last_failing. rewrite failures_unfold.
  rewrite Validator.rule_required_off, Validator.rule_email_off,
    Validator.rule_phone_off, Validator.rule_password2_off,
    Validator.rule_price_off by (rewrite ?Hn; done).
  unfold rule_password1.
  rewrite Hn, eqb_refl, (proj2 (truthy_true _) Hv). simpl andb.
  rewrite Nat.ltb_antisym.
  destruct (Nat.leb 8 _); reflexivity.
Qed.

(** X3: a non-empty [password1] field (not an email input) passes
    exactly when its value has at least 8 characters once the white
    space around it is trimmed; otherwise the message is "Password must
    be at least 8 characters long". *)
Theorem password1_rule st field n :
  tidy field st ->
  Dom.lookup field (document st) = Some n ->
  Dom.name (Dom.elem n) = "password1" ->
  Dom.type (Dom.elem n) <> "email" ->
  field_value (Dom.elem n) <> "" ->
  exists st',
    validateField field st =
      (st', Ok (Nat.leb 8 (String.length (Str.trim (Dom.value (Dom.elem n)))))) /\
    field_errors field st' =
      if Nat.leb 8 (String.length (Str.trim (Dom.value (Dom.elem n))))
      then []
      else [error_html "Password must be at least 8 characters long"].
Proof.
  intros Ht Hl Hn Hty Hv.
  destruct (validateField_tidy field st n Ht Hl) as (st' & Hr & _ & He & _).
  rewrite (checkField_password1 _ _ Hn Hty Hv) in Hr, He.
  unfold field_value in Hr, He.
  exists st'. destruct (Nat.leb 8 _); simpl in *; auto.
Qed.

Lemma password1_rule_witness :
  exists st',
    validateField 1 (Pages.password "  secret1  ") = (st', Ok false) /\
    field_errors 1 st' =
      [error_html "Password must be at least 8 characters long"].
Proof.
  apply (password1_rule (Pages.password "  secret1  ") 1
           (Dom.Node 1 (Sample.input "password1" "password" "  secret1  "
                          false) [])
           (tidy_password _) eq_refl eq_refl); discriminate.
Defined.

(** *** Optional fields and the mark of the field *)

Lemma checkField_optional doc e :
  Dom.required e = false -> field_value e = "" ->
  checkField doc e = (true, "").
Proof.
  intros Hr Hv. rewrite checkField_last_failing.
  unfold last_failing. rewrite (Validator.failures_empty_value _ _ Hv).
  unfold rule_required. now rewrite Hr.
Qed.

(** X4: a field that is not required and whose value is empty or white
    space passes, whatever its name and type; its annotation and the
    class [error] are taken away. *)
Theorem optional_empty_passes st field n :
  tidy field st ->
  Dom.lookup field (document st) = Some n ->
  Dom.required (Dom.elem n) = false ->
  Str.trim (Dom.value (Dom.elem n)) = "" ->
  exists st',
    validateField field st = (st', Ok true) /\
    field_errors field st' = [] /\
    unmarked field st'.
Proof.
  intros Ht Hn Hr Hv.
  unfold validateField, bind, element_of, get. rewrite Hn.
  rewrite (checkField_optional _ _ Hr Hv). simpl.
  destruct (clearFieldError_tidy field st Ht)
    as (st' & -> & _ & He & Hu & _).
  exists st'. auto.
Qed.

Lemma optional_empty_passes_witness :
  exists st',
    validateField 1 (Pages.phone "   ") = (st', Ok true) /\
    field_errors 1 st' = [] /\
    unmarked 1 st'.
Proof.
  apply (optional_empty_passes (Pages.phone "   ") 1
           (Dom.Node 1 (Sample.input "phone_number" "tel" "   " false) [])
           (tidy_phone _) eq_refl eq_refl eq_refl).
Defined.

Import Dom.

Lemma add_class_has e : "error" ∈ classList (add_class "error" e).
Proof.
  unfold add_class. simpl.
  destruct (bool_decide ("error" ∈ classList e)) eqn:E.
  - now apply bool_decide_eq_true in E.
  - apply elem_of_app. right. now apply list_elem_of_singleton.
Qed.

(** After [showFieldError] the field carries the class [error]. *)
Lemma showFieldError_marked field message st :
  tidy field st -> marked field (fst (showFieldError field message st)).
Proof.
  intros Ht.
  destruct (clearFieldError_tidy field st Ht)
    as (st1 & Hrun & (Hwf & n & p & Hn & Hc & Hp & Hlen & Htxt) & _).
  set (m := update field (add_class "error")).
  set (c := error_node (fresh st1) (S (fresh st1)) message).
  assert (Hn2 : lookup field (List.map m (document st1)) = Some (m n))
    by (unfold m; now rewrite lookup_update, Hn).
  assert (Hp2 : parent field (List.map m (document st1)) = Some (m p))
    by (unfold m; now rewrite parent_update, Hp).
  assert (Hlt : field < fresh st1) by (eapply handle_below; eauto).
  assert (Hcs : forall x, x ∈ subtree c -> handle x <> field).
  { intros x Hx. unfold c, subtree, error_node in Hx. simpl in Hx.
    apply elem_of_cons in Hx as [->|Hx]; [simpl; lia|].
    apply list_elem_of_singleton in Hx. subst x. simpl. lia. }
  destruct (append_keeps_field (List.map m (document st1)) field
              (handle (m p)) c Hcs) as [Hn3 _].
  rewrite Hn2 in Hn3. simpl in Hn3.
  assert (Hrun' :
            showFieldError field message st =
            (set_document
               (List.map (append (handle (m p)) c)
                  (List.map m (document st1)))
               (set_fresh (S (S (fresh st1))) st1), Ok tt)).
  { unfold showFieldError, bind. rewrite Hrun.
    unfold createElement, modify_document, modify, parentElement. simpl.
    fold m. rewrite Hp2. reflexivity. }
  rewrite Hrun'. exists (append (handle (m p)) c (m n)).
  split; [exact Hn3|].
  unfold has_class. rewrite append_elem. unfold m.
  rewrite Edits.update_elem.
  apply lookup_some in Hn as [_ ->]. rewrite Nat.eqb_refl.
  apply bool_decide_eq_true, add_class_has.
Qed.

(** X6: after [validateField] the field carries the class [error] and
    one annotation exactly when the verdict is a failure; after a pass
    it carries neither. *)
Theorem error_class_in_sync st field :
  tidy field st ->
  exists st' ok,
    validateField field st = (st', Ok ok) /\
    if ok then unmarked field st' /\ field_errors field st' = []
    else marked field st' /\ length (field_errors field st') = 1.
Proof.
  intros Ht.
  destruct Ht as (Hwf & n & p & Hn & Hrest).
  assert (Ht : tidy field st) by (split; [exact Hwf|]; eauto).
  unfold validateField, bind, element_of, get. rewrite Hn.
  destruct (checkField (document st) (elem n)) as [isValid msg]. simpl.
  destruct isValid; simpl.
  - destruct (clearFieldError_tidy field st Ht)
      as (st' & -> & _ & He & Hu & _).
    exists st', true. auto.
  - pose proof (showFieldError_marked field msg st Ht) as Hm.
    destruct (showFieldError_tidy field msg st Ht)
      as (st' & Hr & _ & He & _).
    rewrite Hr in *. exists st', false.
    split; [reflexivity|]. split; [exact Hm|now rewrite He].
Qed.

Lemma error_class_in_sync_witness :
  exists st' ok,
    validateField 1 (Pages.password "short") = (st', Ok ok) /\
    if ok then unmarked 1 st' /\ field_errors 1 st' = []
    else marked 1 st' /\ length (field_errors 1 st') = 1.
Proof.
  apply (error_class_in_sync (Pages.password "short") 1), tidy_password.
Defined.

(** *** A field without a container *)

(** X5: on an element that has no parent element, [showFieldError] and
    [clearFieldError] throw a [TypeError] once the class [error] is
    taken off the element, and so does [validateField] on a control;
    no annotation is made. *)
Theorem no_container_throws field st :
  Dom.parent field (document st) = None ->
  let st' :=
    set_document
      (List.map (Dom.update field (Dom.remove_class "error")) (document st))
      st in
  clearFieldError field st = (st', Throw TypeError) /\
  (forall message, showFieldError field message st = (st', Throw TypeError)) /\
  (forall n,
     Dom.lookup field (document st) = Some n -> is_control n = true ->
     validateField field st = (st', Throw TypeError)).
Proof.
  intros Hp st'.
  assert (Hc : clearFieldError field st = (st', Throw TypeError)).
  { unfold clearFieldError, bind, modify_document, modify, parentElement.
    simpl. now rewrite parent_update, Hp. }
  assert (Hs : forall message,
            showFieldError field message st = (st', Throw TypeError)).
  { intros message. unfold showFieldError, bind. now rewrite Hc. }
  split; [exact Hc|]. split; [exact Hs|].
  intros n Hn _. unfold validateField, bind, element_of, get. rewrite Hn.
  destruct (checkField (document st) (elem n)) as [isValid msg]. simpl.
  destruct isValid; simpl; [now rewrite Hc|now rewrite Hs].
Qed.

Lemma no_container_throws_witness :
  validateField 0 orphan =
    (set_document
       [Dom.Node 0 (Sample.input "price_per_day" "text" "" true) []] orphan,
     Throw TypeError).
Proof.
  destruct (no_container_throws 0 orphan eq_refl) as (_ & _ & H).
  apply (H (Dom.Node 0 (Dom.add_class "error"
                          (Sample.input "price_per_day" "text" "" true)) []));
    reflexivity.
Defined.

End Rules.

(* ===================================================================== *)
(** ** More on the autosave store *)
(* ===================================================================== *)

Module Drafts.
Local Open Scope list_scope.

Lemma same_records_refl st : same_records st st.
Proof. unfold same_records. auto. Qed.

Lemma same_records_trans st1 st2 st3 :
  same_records st1 st2 -> same_records st2 st3 -> same_records st1 st3.
Proof.
  unfold same_records.
  intros (A1 & A2 & A3 & A4 & A5) (B1 & B2 & B3 & B4 & B5).
  repeat split; congruence.
Qed.

Lemma same_records_document d st : same_records st (set_document d st).
Proof. unfold same_records. auto. Qed.

Lemma same_records_clearFieldError this st :
  same_records st (fst (clearFieldError this st)).
Proof.
  unfold clearFieldError, bind, modify_document, modify, parentElement.
  simpl. destruct (Dom.parent this _) as [p|]; simpl;
    [|apply same_records_document].
  destruct (List.find _ _); simpl; unfold same_records; simpl; auto.
Qed.

(** The listeners of an input event change no record of the page. *)
Lemma run_listeners_records ls prevented st :
  (forall this l, (this, l) ∈ ls ->
     l = OnInputClear \/ exists formId, l = OnInputAutosave formId) ->
  same_records st (fst (run_listeners ls prevented st)).
Proof.
  revert prevented st. induction ls as [|[this l] r IH]; intros pv st Hls.
  - apply same_records_refl.
  - assert (Hr : forall this' l', (this', l') ∈ r ->
              l' = OnInputClear \/ exists formId, l' = OnInputAutosave formId).
    { intros this' l' Hin. apply (Hls this'). apply elem_of_cons. now right. }
    destruct (Hls this l) as [->|[formId ->]]; [apply elem_of_cons; now left| |].
    + simpl. unfold bind.
      pose proof (same_records_clearFieldError this st) as Hc.
      destruct (clearFieldError this st) as [st1 [[]|e]]; simpl in Hc;
        (eapply same_records_trans; [exact Hc|now apply IH]).
    + simpl. unfold bind, debounce_restart, modify. simpl.
      eapply same_records_trans; [|now apply IH].
      unfold same_records. simpl. auto.
Qed.

Lemma input_listeners target st :
  (forall h l, (h, Input, l) ∈ listeners st ->
     l = OnInputClear \/ exists formId, l = OnInputAutosave formId) ->
  forall this l,
    (this, l) ∈ flat_map (fun h => List.map (fun l => (h, l))
                                     (listeners_of h Input st))
                  (target :: ancestors target (document st)) ->
    l = OnInputClear \/ exists formId, l = OnInputAutosave formId.
Proof.
  intros Hls this l Hin.
  apply list_elem_of_In, in_flat_map in Hin as (t & _ & Hin).
  apply in_map_iff in Hin as (l' & E & Hin). injection E as <- <-.
  unfold listeners_of in Hin.
  apply in_flat_map in Hin as ([[h' ty'] l''] & Hreg & Hin).
  destruct (Nat.eqb h' t && bool_decide (ty' = Input)) eqn:Ec;
    [|inversion Hin].
  destruct Hin as [<-|[]].
  apply andb_true_iff in Ec as [_ Ec]. apply bool_decide_eq_true in Ec.
  subst ty'. apply (Hls h'). now apply list_elem_of_In.
Qed.

Section Rehydration.
Variable env : platform.

(** A value given to a field while the page loads. *)
Lemma assign_value_loading x v st :
  loading st ->
  loading (fst (assign_value env x v st)) /\
  same_records st (fst (assign_value env x v st)) /\
  Dom.handles (document (fst (assign_value env x v st))) =
  Dom.handles (document st).
Proof.
  intros [Hne Hls]. unfold assign_value.
  assert (Hupd : forall g,
            (forall e, alike e (g e)) ->
            loading (set_document
                       (List.map (Dom.update (Dom.handle x) g) (document st))
                       st) /\
            same_records st
              (set_document
                 (List.map (Dom.update (Dom.handle x) g) (document st)) st) /\
            Dom.handles (List.map (Dom.update (Dom.handle x) g) (document st))
            = Dom.handles (document st)).
  { intros g Hg. split; [split; [|exact Hls]|split].
    - simpl. apply Edits.no_errors_edit; [|exact Hne].
      now apply Edits.edit_update.
    - apply same_records_document.
    - apply DomFacts.handles_update. }
  destruct (_ && _).
  - destruct (Str.truthy v).
    + split; [split; assumption|]. split; [apply same_records_refl|].
      reflexivity.
    + apply Hupd. intros e. unfold alike. simpl. auto.
  - apply Hupd. intros e. apply Edits.alike_with_value.
Qed.

Lemma restore_loading form kv st :
  loading st ->
  loading (fst (restore env form kv st)) /\
  same_records st (fst (restore env form kv st)) /\
  Dom.handles (document (fst (restore env form kv st))) =
  Dom.handles (document st).
Proof.
  intros Hload. destruct kv as [key value]. unfold restore, bind.
  pose proof (Load.form_querySelector_name_state env form key st) as Hq.
  destruct (form_querySelector_name env form key st) as [st0 [[f|]|e]];
    simpl in Hq; subst st0; simpl;
    try (split; [exact Hload|split; [apply same_records_refl|reflexivity]]).
  destruct (truthy value); simpl;
    [|split; [exact Hload|split; [apply same_records_refl|reflexivity]]].
  unfold lift. destruct (to_string env value) as [v|e]; simpl;
    [|split; [exact Hload|split; [apply same_records_refl|reflexivity]]].
  destruct (assign_value_loading f v st Hload) as (Hl1 & Hr1 & Hh1).
  destruct (assign_value env f v st) as [st1 [[]|e]]; simpl in *;
    [|split; [exact Hl1|split; [exact Hr1|exact Hh1]]].
  destruct (Store.dispatch_input_edit (Dom.handle f) st1 Hl1)
    as (U & HU & _ & Hd & Hl2).
  split; [exact Hl2|]. split.
  - eapply same_records_trans; [exact Hr1|].
    apply run_listeners_records. apply input_listeners, Hl1.
  - rewrite Hd, <- Hh1. unfold Dom.handles.
    rewrite (Edits.preorder_edit U HU), List.map_map.
    apply List.map_ext. apply (edit_handle U HU).
Qed.

Lemma restore_all_loading form es : forall st,
  loading st ->
  loading (fst (forEach es (restore env form) st)) /\
  same_records st (fst (forEach es (restore env form) st)) /\
  Dom.handles (document (fst (forEach es (restore env form) st))) =
  Dom.handles (document st).
Proof.
  induction es as [|kv r IH]; intros st Hload.
  - split; [exact Hload|]. split; [apply same_records_refl|reflexivity].
  - simpl. unfold bind.
    destruct (restore_loading form kv st Hload) as (Hl1 & Hr1 & Hh1).
    destruct (restore env form kv st) as [st1 [[]|e]]; simpl in *;
      [|auto].
    destruct (IH st1 Hl1) as (Hl2 & Hr2 & Hh2).
    split; [exact Hl2|]. split; [|congruence].
    eapply same_records_trans; eauto.
Qed.

(** X7: while the page loads, [loadFormData] returns whatever the store
    holds; it leaves the store, the listeners and the notifications as
    they are, makes and removes no element, and writes at most one line
    to the console: nothing without a draft, the line of a restored
    draft, or the line of the error that it caught. *)
Theorem rehydration_is_contained form formId st :
  loading st ->
  exists st',
    loadFormData env form formId st = (st', Ok tt) /\
    localStorage st' = localStorage st /\
    listeners st' = listeners st /\
    notifications st' = notifications st /\
    Dom.handles (document st') = Dom.handles (document st) /\
    (console st' = console st \/
     console st' = console st ++ ["Form data loaded: " +:+ formId] \/
     console st' = console st ++ ["Error loading form data:"]).
Proof.
  intros Hload. unfold loadFormData. rewrite Load.bind_get.
  destruct (localStorage st !! storage_key formId) as [saved|];
    [|exists st; repeat split; auto].
  destruct (negb (Str.truthy saved)); [exists st; repeat split; auto|].
  unfold try_catch, bind, lift.
  destruct (Json.parse saved) as [data|e];
    [|eexists; split; [reflexivity|]; simpl; repeat split; auto].
  destruct (Object_entries data) as [es|e];
    [|eexists; split; [reflexivity|]; simpl; repeat split; auto].
  destruct (restore_all_loading form es st Hload)
    as (_ & (R1 & R2 & R3 & R4 & _) & Hh).
  destruct (forEach es (restore env form) st) as [st1 [[]|e]];
    simpl in *; (eexists; split; [reflexivity|]); simpl;
    rewrite R2; repeat split; auto.
Qed.

End Rehydration.

Lemma rehydration_is_contained_witness :
  exists st',
    loadFormData Sample.browser 0 "signup" Sample.signup_drafted =
      (st', Ok tt) /\
    localStorage st' = localStorage Sample.signup_drafted /\
    console st' = ["Form data loaded: signup"].
Proof.
  destruct (rehydration_is_contained Sample.browser 0 "signup"
              Sample.signup_drafted) as (st' & Hr & Hs & _).
  - split.
    + intros n Hn. apply list_elem_of_In in Hn. vm_compute in Hn.
      repeat (destruct Hn as [<-|Hn]; [reflexivity|]). destruct Hn.
    + intros h l Hin. apply list_elem_of_In in Hin. vm_compute in Hin.
      repeat (destruct Hin as [Hin|Hin];
              [first [discriminate Hin | injection Hin as <- <-; now left]|]).
      destruct Hin.
  - exists st'. split; [exact Hr|]. split; [exact Hs|].
    assert (E : st' =
                fst (loadFormData Sample.browser 0 "signup"
                       Sample.signup_drafted)) by now rewrite Hr.
    rewrite E. vm_compute. reflexivity.
Defined.

(** *** What [saveFormData] and [clearFormData] touch *)

Lemma collect_state env form es : forall data st,
  fst (collect env form es data st) = st.
Proof.
  induction es as [|[k v] r IH]; intros data st; [reflexivity|].
  simpl. unfold bind.
  pose proof (Load.form_querySelector_name_state env form k st) as Hq.
  destruct (form_querySelector_name env form k st) as [st0 [[t|]|e]];
    simpl in Hq; subst st0; try reflexivity.
  destruct (negb _); apply IH.
Qed.

Lemma storage_key_inj a b : storage_key a = storage_key b -> a = b.
Proof. unfold storage_key. intros H. now simplify_eq. Qed.

(** X8: [saveFormData] and [clearFormData] touch the key of their own
    [formId] only, and distinct [formId]s have distinct keys; they leave
    the document and the listeners as they are; and when [saveFormData]
    throws, nothing at all has been written or logged. *)
Theorem drafts_are_kept_apart env form formId st :
  (forall k, k <> storage_key formId ->
     localStorage (fst (saveFormData env form formId st)) !! k =
       localStorage st !! k /\
     localStorage (fst (clearFormData formId st)) !! k =
       localStorage st !! k) /\
  (forall other, other <> formId ->
     storage_key other <> storage_key formId) /\
  document (fst (saveFormData env form formId st)) = document st /\
  listeners (fst (saveFormData env form formId st)) = listeners st /\
  document (fst (clearFormData formId st)) = document st /\
  (forall e, snd (saveFormData env form formId st) = Throw e ->
     fst (saveFormData env form formId st) = st).
Proof.
  assert (Hrun :
    saveFormData env form formId st =
    match snd (collect env form
                 (match Dom.lookup form (document st) with
                  | Some f => FormData f
                  | None => []
                  end) [] st) with
    | Ok data =>
        (set_console (console st ++ ["Form data saved: " +:+ formId])
           (set_localStorage
              (<[storage_key formId := JSON_stringify data]>
                 (localStorage st)) st), Ok tt)
    | Throw e => (st, Throw e)
    end).
  { unfold saveFormData. rewrite Load.bind_get. unfold bind.
    match goal with |- context [collect env form ?es [] st] =>
      pose proof (collect_state env form es [] st) as Hc;
      destruct (collect env form es [] st) as [st0 [data|e]]
    end; simpl in Hc; subst st0; reflexivity. }
  rewrite Hrun.
  destruct (snd (collect _ _ _ _ _)) as [data|e0]; simpl.
  - split; [|split; [|auto]].
    + intros k Hk. split.
      * now apply lookup_insert_ne.
      * now apply lookup_delete_ne.
    + intros other Hne E. apply Hne. now apply storage_key_inj.
    + repeat split; auto. discriminate.
  - split; [|split; [|auto]].
    + intros k Hk. split; [reflexivity|]. now apply lookup_delete_ne.
    + intros other Hne E. apply Hne. now apply storage_key_inj.
Qed.

Lemma drafts_are_kept_apart_witness :
  localStorage (fst (saveFormData Sample.browser 0 "signup"
                       Sample.signup_drafted)) !! storage_key "listing" =
  localStorage Sample.signup_drafted !! storage_key "listing".
Proof.
  destruct (drafts_are_kept_apart Sample.browser 0 "signup"
              Sample.signup_drafted) as [H _].
  apply (H (storage_key "listing")).
  intros E. apply storage_key_inj in E. discriminate E.
Defined.

(** *** What is stored can be read *)

Lemma collect_keys env form es : forall data st data',
  NoDup (List.map fst data) ->
  snd (collect env form es data st) = Ok data' ->
  NoDup (List.map fst data').
Proof.
  induction es as [|[k v] r IH]; intros data st data' ND H.
  - simpl in H. now injection H as <-.
  - simpl in H. unfold bind in H.
    pose proof (Load.form_querySelector_name_state env form k st) as Hq.
    destruct (form_querySelector_name env form k st) as [st0 [[t|]|e]];
      simpl in Hq; subst st0; try discriminate.
    destruct (negb _).
    + apply (IH _ _ _ (JsonFacts.set_keys k v data ND) H).
    + apply (IH _ _ _ ND H).
Qed.

(** X9: whenever [saveFormData] returns, [JSON.parse] reads the stored
    string back without error, as an object that has one member for each
    key of the payload: a string for a string and an empty object for a
    [File]. *)
Theorem stored_draft_parses env form formId st :
  snd (saveFormData env form formId st) = Ok tt ->
  exists data,
    localStorage (fst (saveFormData env form formId st))
      !! storage_key formId = Some (JSON_stringify data) /\
    Json.parse (JSON_stringify data) =
      Ok (Json.JObject (define_all data [])) /\
    forall k j,
      (k, j) ∈ define_all data [] <->
      exists v, (k, v) ∈ data /\ j = to_json v.
Proof.
  unfold saveFormData. rewrite Load.bind_get. unfold bind.
  match goal with |- context [collect env form ?es [] st] =>
    pose proof (collect_state env form es [] st) as Hc;
    pose proof (collect_keys env form es [] st) as Hk;
    destruct (collect env form es [] st) as [st0 [data|e]]
  end; simpl in Hc; subst st0; simpl; [|discriminate].
  intros _. exists data. split; [apply lookup_insert_eq|].
  split; [apply JsonFacts.parse_stringify|].
  specialize (Hk data (NoDup_nil_2 (A := string)) eq_refl).
  destruct (JsonFacts.define_all_in data Hk [] (NoDup_nil_2 (A := string)))
    as [_ H].
  intros k j. rewrite H. split.
  - intros [Hv|[_ Hin]]; [exact Hv|inversion Hin].
  - intros Hv. now left.
Qed.

Lemma stored_draft_parses_witness :
  exists data,
    localStorage (fst (saveFormData Sample.browser 0 "listing"
                         Sample.shared_name))
      !! storage_key "listing" = Some (JSON_stringify data) /\
    Json.parse (JSON_stringify data) =
      Ok (Json.JObject (define_all data [])).
Proof.
  destruct (stored_draft_parses Sample.browser 0 "listing"
              Sample.shared_name eq_refl) as (data & H1 & H2 & _).
  exists data. split; assumption.
Defined.

End Drafts.

(* ===================================================================== *)
(** ** Bubbling and the debounced save *)
(* ===================================================================== *)

Module Bubbling.
Import Dom DomFacts.
Local Open Scope list_scope.

Lemma path_to_node h g e ks :
  path_to h (Node g e ks) =
  if Nat.eqb g h then Some []
  else match path_in h ks with
       | Some p => Some (p ++ [g])
       | None => None
       end.
Proof. reflexivity. Qed.

Lemma path_in_cons h n f :
  path_in h (n :: f) =
  match path_to h n with
  | Some p => Some p
  | None => path_in h f
  end.
Proof. reflexivity. Qed.

Lemma ancestors_path h f :
  ancestors h f = match path_in h f with Some p => p | None => [] end.
Proof.
  induction f as [|n f IH]; [reflexivity|].
  simpl ancestors. rewrite path_in_cons.
  destruct (path_to h n); [reflexivity|exact IH].
Qed.

(** The descendants of a node of a forest, by the place of the node. *)
Lemma descendant_place g e ks f m x :
  m ∈ preorder (Node g e ks :: f) -> x ∈ descendants m ->
  (m = Node g e ks /\ x ∈ preorder ks) \/
  (m ∈ preorder ks /\ x ∈ preorder ks) \/
  (m ∈ preorder f /\ x ∈ preorder f).
Proof.
  intros Hm Hx. rewrite preorder_cons in Hm.
  assert (Hsub : x ∈ subtree m)
    by (unfold subtree; apply elem_of_cons; now right).
  apply elem_of_cons in Hm as [->|Hm].
  - left. split; [reflexivity|]. now rewrite descendants_preorder in Hx.
  - right. apply elem_of_app in Hm as [Hm|Hm]; [left|right];
      (split; [exact Hm|]); eapply subtree_incl; eauto.
Qed.

(** The path found for a handle names every element that contains the
    element of that handle. *)
Lemma path_in_spec h f :
  (path_in h f = None -> h ∉ handles f) /\
  (forall p, path_in h f = Some p ->
     h ∈ handles f /\
     (NoDup (handles f) ->
      forall m x, m ∈ preorder f -> x ∈ descendants m -> handle x = h ->
        handle m ∈ p)).
Proof.
  induction f as [|g e ks f [IHks1 IHks2] [IHf1 IHf2]] using forest_ind.
  - split; [intros _ H; inversion H|discriminate].
  - rewrite path_in_cons, path_to_node, handles_cons.
    destruct (Nat.eqb g h) eqn:E.
    + apply Nat.eqb_eq in E. subst g. split; [discriminate|].
      intros p Hp. injection Hp as <-.
      split; [apply elem_of_cons; now left|].
      intros ND m x Hm Hx Ex. exfalso.
      apply NoDup_cons in ND as [Hh _]. apply Hh. rewrite <- Ex.
      apply elem_of_app.
      destruct (descendant_place _ _ _ _ _ _ Hm Hx)
        as [[_ H]|[[_ H]|[_ H]]]; [left|left|right];
        now apply elem_of_map.
    + apply Nat.eqb_neq in E.
      destruct (path_in h ks) as [q|] eqn:Eq.
      * split; [discriminate|]. intros p Hp. injection Hp as <-.
        destruct (IHks2 q eq_refl) as [Hin Hall].
        split; [apply elem_of_cons; right; apply elem_of_app; now left|].
        intros ND m x Hm Hx Ex.
        apply NoDup_cons in ND as [_ ND].
        apply NoDup_app in ND as (NDks & Hdis & _).
        destruct (descendant_place _ _ _ _ _ _ Hm Hx)
          as [[-> _]|[[Hm' Hx']|[_ Hx']]].
        -- apply elem_of_app. right. simpl. apply elem_of_cons. now left.
        -- apply elem_of_app. left. now apply (Hall NDks m x).
        -- exfalso. apply (Hdis h Hin). rewrite <- Ex.
           now apply elem_of_map.
      * specialize (IHks1 eq_refl). split.
        -- intros Hnone. specialize (IHf1 Hnone).
           rewrite not_elem_of_cons, not_elem_of_app. auto.
        -- intros p Hp. destruct (IHf2 p Hp) as [Hin Hall].
           split; [apply elem_of_cons; right; apply elem_of_app; now right|].
           intros ND m x Hm Hx Ex.
           apply NoDup_cons in ND as [_ ND].
           apply NoDup_app in ND as (_ & _ & NDf).
           destruct (descendant_place _ _ _ _ _ _ Hm Hx)
             as [[_ Hx']|[[_ Hx']|[Hm' _]]].
           ++ exfalso. apply IHks1. rewrite <- Ex. now apply elem_of_map.
           ++ exfalso. apply IHks1. rewrite <- Ex. now apply elem_of_map.
           ++ now apply (Hall NDf m x).
Qed.

(** An event on an element bubbles through every element that contains
    it. *)
Lemma ancestors_of_descendant doc m x :
  NoDup (handles doc) -> m ∈ preorder doc -> x ∈ descendants m ->
  handle m ∈ ancestors (handle x) doc.
Proof.
  intros ND Hm Hx. rewrite ancestors_path.
  destruct (path_in_spec (handle x) doc) as [Hnone Hsome].
  destruct (path_in (handle x) doc) as [p|].
  - destruct (Hsome p eq_refl) as [_ H]. now apply (H ND m x).
  - exfalso. apply (Hnone eq_refl). apply elem_of_map.
    eapply subtree_incl; eauto. unfold subtree. apply elem_of_cons. now right.
Qed.

(** *** The debounced save *)

Lemma listeners_of_registered h ty l st :
  l ∈ listeners_of h ty st -> (h, ty, l) ∈ listeners st.
Proof.
  unfold listeners_of. intros Hin.
  apply list_elem_of_In, in_flat_map in Hin as ([[h' ty'] l'] & Hreg & Hin).
  destruct (Nat.eqb h' h && bool_decide (ty' = ty)) eqn:Ec; [|inversion Hin].
  destruct Hin as [<-|[]].
  apply andb_true_iff in Ec as [E1 E2].
  apply Nat.eqb_eq in E1. apply bool_decide_eq_true in E2. subst.
  now apply list_elem_of_In.
Qed.

Lemma chain_listener chain ty st h l :
  (h, l) ∈ flat_map (fun t => List.map (fun l => (t, l))
                                 (listeners_of t ty st)) chain <->
  h ∈ chain /\ l ∈ listeners_of h ty st.
Proof.
  rewrite list_elem_of_In, in_flat_map. split.
  - intros (t & Ht & Hin).
    apply in_map_iff in Hin as (l' & E & Hin). injection E as -> ->.
    split; now apply list_elem_of_In.
  - intros [Hh Hl]. exists h. split; [now apply list_elem_of_In|].
    apply in_map_iff. exists l. split; [reflexivity|].
    now apply list_elem_of_In.
Qed.

Lemma clearFieldError_timers this st :
  timers (fst (clearFieldError this st)) = timers st.
Proof.
  unfold clearFieldError, bind, modify_document, modify, parentElement.
  simpl. destruct (parent this _) as [p|]; simpl; [|reflexivity].
  destruct (List.find _ _); reflexivity.
Qed.

Lemma pending_restart form this id st :
  pending_saves form
    (set_timers
       (List.filter (fun t => negb (Nat.eqb (fst t) this)) (timers st)
        ++ [(this, id)]) st) =
  if Nat.eqb this form then [(form, id)] else pending_saves form st.
Proof.
  unfold pending_saves. simpl. rewrite List.filter_app. simpl.
  destruct (Nat.eqb this form) eqn:E.
  - apply Nat.eqb_eq in E. subst this.
    rewrite Annotation.filter_none; [reflexivity|].
    intros t Ht. apply list_elem_of_In, filter_In in Ht as [_ Ht].
    now apply negb_true_iff in Ht.
  - rewrite app_nil_r. apply Nat.eqb_neq in E.
    induction (timers st) as [|t r IH]; [reflexivity|].
    simpl. destruct (Nat.eqb (fst t) this) eqn:E1; simpl.
    + apply Nat.eqb_eq in E1.
      rewrite (proj2 (Nat.eqb_neq (fst t) form)) by congruence. exact IH.
    + destruct (Nat.eqb (fst t) form); [now rewrite IH|exact IH].
Qed.

(** When the listeners of an input event are done, the timer started
    last for a form is the only one pending for it. *)
Lemma run_listeners_pending form formId ls : forall prevented st,
  (forall this l, (this, l) ∈ ls ->
     l = OnInputClear \/ exists id, l = OnInputAutosave id) ->
  (forall id, (form, OnInputAutosave id) ∈ ls -> id = formId) ->
  pending_saves form st = [(form, formId)] \/
    (form, OnInputAutosave formId) ∈ ls ->
  pending_saves form (fst (run_listeners ls prevented st)) =
    [(form, formId)].
Proof.
  induction ls as [|[this l] r IH]; intros pv st Hls Hone Hor.
  - destruct Hor as [H|H]; [exact H|inversion H].
  - assert (Hr : forall this' l', (this', l') ∈ r ->
              l' = OnInputClear \/ exists id, l' = OnInputAutosave id).
    { intros this' l' Hin. apply (Hls this'). apply elem_of_cons. now right. }
    assert (Hone' : forall id, (form, OnInputAutosave id) ∈ r -> id = formId).
    { intros id Hin. apply Hone. apply elem_of_cons. now right. }
    destruct (Hls this l) as [->|[id ->]]; [apply elem_of_cons; now left| |].
    + simpl. unfold bind.
      pose proof (clearFieldError_timers this st) as Ht.
      assert (Hor' : forall st1, timers st1 = timers st ->
                pending_saves form st1 = [(form, formId)] \/
                (form, OnInputAutosave formId) ∈ r).
      { intros st1 E. destruct Hor as [H|H].
        - left. unfold pending_saves in *. now rewrite E.
        - right. apply elem_of_cons in H as [H|H]; [discriminate|exact H]. }
      destruct (clearFieldError this st) as [st1 [[]|e]]; simpl in Ht;
        apply IH; auto.
    + simpl. unfold bind, debounce_restart, modify. simpl.
      apply IH; [exact Hr|exact Hone'|].
      rewrite pending_restart.
      destruct (Nat.eqb this form) eqn:E.
      * apply Nat.eqb_eq in E. subst this. left.
        rewrite (Hone id) by (apply elem_of_cons; now left). reflexivity.
      * apply Nat.eqb_neq in E. destruct Hor as [H|H]; [now left|].
        right. apply elem_of_cons in H as [H|H]; [|exact H].
        injection H as -> _. congruence.
Qed.

(** X11: where the listeners of input events are those that the script
    registers, an input event on an element of an autosave form leaves
    exactly one save pending for the form, whatever was pending before,
    and writes nothing to the store; when that timer fires, the form,
    whose names a selector reads as they are, is saved as it is at that
    time and no save stays pending. *)
Theorem debounced_save env st form f formId x :
  NoDup (handles (document st)) ->
  (forall h l, (h, Input, l) ∈ listeners st ->
     l = OnInputClear \/ exists id, l = OnInputAutosave id) ->
  lookup form (document st) = Some f ->
  x ∈ descendants f ->
  (form, Input, OnInputAutosave formId) ∈ listeners st ->
  (forall id, (form, Input, OnInputAutosave id) ∈ listeners st ->
     id = formId) ->
  pending_saves form (fst (dispatchEvent (handle x) Input st)) =
    [(form, formId)] /\
  localStorage (fst (dispatchEvent (handle x) Input st)) =
    localStorage st /\
  (forall st2 f2,
     lookup form (document st2) = Some f2 ->
     plain_names f2 ->
     localStorage (timer_fires env form formId st2) =
       <[storage_key formId := JSON_stringify (payload f2)]>
         (localStorage st2) /\
     console (timer_fires env form formId st2) =
       console st2 ++ ["Form data saved: " +:+ formId] /\
     pending_saves form (timer_fires env form formId st2) = []).
Proof.
  intros ND Hload Hf Hx Hreg Hone. split; [|split].
  - unfold dispatchEvent. apply run_listeners_pending.
    + apply Drafts.input_listeners, Hload.
    + intros id Hin. apply chain_listener in Hin as [_ Hin].
      apply Hone. now apply listeners_of_registered.
    + right. apply chain_listener. split.
      * apply elem_of_cons. right.
        apply lookup_some in Hf as [Hf <-].
        now apply ancestors_of_descendant.
      * now apply Events.listeners_of_elem.
  - destruct (Drafts.run_listeners_records
                (flat_map (fun h => List.map (fun l => (h, l))
                                      (listeners_of h Input st))
                   (handle x :: ancestors (handle x) (document st)))
                false st) as (H & _).
    + apply Drafts.input_listeners, Hload.
    + exact H.
  - intros st2 f2 Hf2 Hp. unfold timer_fires.
    rewrite (Store.saveFormData_stores env f2 form formId
               (set_timers
                  (List.filter (fun t => negb (Nat.eqb (fst t) form))
                     (timers st2)) st2) Hp Hf2).
    simpl. split; [reflexivity|]. split; [reflexivity|].
    unfold pending_saves. simpl.
    apply Annotation.filter_none.
    intros t Ht. apply list_elem_of_In, filter_In in Ht as [_ Ht].
    now apply negb_true_iff in Ht.
Qed.

Lemma debounced_save_witness :
  timers Sample.signup_loaded = [] /\
  pending_saves 0 (fst (dispatchEvent 1 Input Sample.signup_loaded)) =
    [(0, "signup")] /\
  localStorage (fst (dispatchEvent 1 Input Sample.signup_loaded)) =
    localStorage Sample.signup_loaded.
Proof.
  split; [reflexivity|].
  destruct (debounced_save Sample.browser Sample.signup_loaded 0
              (Node 0 (Sample.form (Some "signup"))
                 [Node 1 (Sample.input "name" "text" "Alice" true) [];
                  Node 2 (Sample.input "email" "email" "a@b" false) []])
              "signup"
              (Node 1 (Sample.input "name" "text" "Alice" true) []))
    as (H1 & H2 & _).
  - apply (bool_decide_unpack _). vm_compute. exact I.
  - intros h l Hin. apply list_elem_of_In in Hin. vm_compute in Hin.
    repeat (destruct Hin as [Hin|Hin];
            [first [discriminate Hin
                   |injection Hin as <- <-; now left
                   |injection Hin as <- <-; right; now eexists]|]).
    destruct Hin.
  - reflexivity.
  - apply elem_of_cons. now left.
  - apply list_elem_of_In. vm_compute. do 5 right. left. reflexivity.
  - intros id Hin. apply list_elem_of_In in Hin. vm_compute in Hin.
    repeat (destruct Hin as [Hin|Hin];
            [first [discriminate Hin|now injection Hin as <-]|]).
    destruct Hin.
  - split; [exact H1|exact H2].
Defined.

(** *** A submission and the save that is pending *)

Lemma timers_clearFieldError field : preserves timers (clearFieldError field).
Proof. intros st. apply clearFieldError_timers. Qed.

Lemma timers_showFieldError field message :
  preserves timers (showFieldError field message).
Proof.
  unfold showFieldError.
  apply Load.preserves_bind; [apply timers_clearFieldError|]. intros _.
  apply Load.preserves_bind; [intros st; reflexivity|]. intros d.
  apply Load.preserves_bind; [intros st; reflexivity|]. intros i.
  apply Load.preserves_bind; [intros st; reflexivity|]. intros _.
  apply Load.preserves_bind.
  - intros st. unfold parentElement. now destruct (parent _ _).
  - intros p st. reflexivity.
Qed.

Lemma timers_validateField field : preserves timers (validateField field).
Proof.
  unfold validateField.
  apply Load.preserves_bind.
  { intros st. unfold element_of. now destruct (lookup _ _). }
  intros e. apply Load.preserves_bind; [apply Load.preserves_get|]. intros st.
  destruct (checkField _ _) as [isValid msg].
  apply Load.preserves_bind; [|intros; apply Load.preserves_ret].
  destruct (negb isValid);
    [apply timers_showFieldError|apply timers_clearFieldError].
Qed.

Lemma timers_submit_validation inputs :
  preserves timers (submit_validation inputs).
Proof.
  unfold submit_validation. apply Load.preserves_bind.
  - generalize true. induction inputs as [|i r IH]; intros b; simpl.
    + apply Load.preserves_ret.
    + apply Load.preserves_bind; [apply timers_validateField|].
      intros ok. apply IH.
  - intros v. destruct (negb v); [|apply Load.preserves_ret].
    apply Load.preserves_bind; [intros st; reflexivity|]. intros _.
    apply Load.preserves_ret.
Qed.

Lemma submit_listeners target st :
  (forall h l, (h, Submit, l) ∈ listeners st ->
     (exists inputs, l = OnSubmitValidate inputs) \/
     exists formId, l = OnSubmitAutosave formId) ->
  forall this l,
    (this, l) ∈ flat_map (fun h => List.map (fun l => (h, l))
                                     (listeners_of h Submit st))
                  (target :: ancestors target (document st)) ->
    (exists inputs, l = OnSubmitValidate inputs) \/
    exists formId, l = OnSubmitAutosave formId.
Proof.
  intros Hls this l Hin. apply chain_listener in Hin as [_ Hin].
  apply (Hls this). now apply listeners_of_registered.
Qed.

(** The listeners of a submit event leave the timers alone. *)
Lemma run_listeners_timers ls : forall prevented st,
  (forall this l, (this, l) ∈ ls ->
     (exists inputs, l = OnSubmitValidate inputs) \/
     exists formId, l = OnSubmitAutosave formId) ->
  timers (fst (run_listeners ls prevented st)) = timers st.
Proof.
  induction ls as [|[this l] r IH]; intros pv st Hls; [reflexivity|].
  assert (Hr : forall this' l', (this', l') ∈ r ->
            (exists inputs, l' = OnSubmitValidate inputs) \/
            exists formId, l' = OnSubmitAutosave formId).
  { intros this' l' Hin. apply (Hls this'). apply elem_of_cons. now right. }
  assert (Ht : timers (fst (run_listener this l st)) = timers st).
  { destruct (Hls this l) as [[inputs ->]|[id ->]];
      [apply elem_of_cons; now left| |].
    - apply timers_submit_validation.
    - reflexivity. }
  simpl. destruct (run_listener this l st) as [st1 [p|e]]; simpl in Ht;
    rewrite IH by exact Hr; exact Ht.
Qed.

(** X10: where the listeners of submit events are those that the script
    registers, the submit event of an autosave form, cancelled by the
    validator or not, deletes the draft of the form, and a
    [loadFormData] then finds none and leaves the page as it is; but the
    event cancels no debounce timer: a save that was pending is still
    pending, and when its timer fires the form, whose names a selector
    reads as they are, is written to the store again, as it stands
    then. *)
Theorem submit_keeps_pending_save env st form formId f :
  (forall h l, (h, Submit, l) ∈ listeners st ->
     (exists inputs, l = OnSubmitValidate inputs) \/
     exists id, l = OnSubmitAutosave id) ->
  (form, Submit, OnSubmitAutosave formId) ∈ listeners st ->
  lookup form (document (fst (dispatchEvent form Submit st))) = Some f ->
  plain_names f ->
  localStorage (fst (dispatchEvent form Submit st))
    !! storage_key formId = None /\
  loadFormData env form formId (fst (dispatchEvent form Submit st)) =
    (fst (dispatchEvent form Submit st), Ok tt) /\
  timers (fst (dispatchEvent form Submit st)) = timers st /\
  pending_saves form (fst (dispatchEvent form Submit st)) =
    pending_saves form st /\
  localStorage
    (timer_fires env form formId (fst (dispatchEvent form Submit st)))
    !! storage_key formId = Some (JSON_stringify (payload f)).
Proof.
  intros Hls Hreg Hf Hp.
  pose proof (Events.dispatch_clears form st formId Hreg) as Hnone.
  assert (Ht : timers (fst (dispatchEvent form Submit st)) = timers st).
  { unfold dispatchEvent. apply run_listeners_timers.
    now apply submit_listeners. }
  split; [exact Hnone|]. split.
  { unfold loadFormData. rewrite Load.bind_get. now rewrite Hnone. }
  split; [exact Ht|]. split.
  { unfold pending_saves. now rewrite Ht. }
  unfold timer_fires.
  rewrite (Store.saveFormData_stores env f form formId
             (set_timers
                (List.filter (fun t => negb (Nat.eqb (fst t) form))
                   (timers (fst (dispatchEvent form Submit st))))
                (fst (dispatchEvent form Submit st))) Hp Hf).
  simpl. apply lookup_insert_eq.
Qed.

Lemma submit_keeps_pending_save_witness :
  pending_saves 0 Sample.signup_typed = [(0, "signup")] /\
  snd (dispatchEvent 0 Submit Sample.signup_typed) = true /\
  localStorage (fst (dispatchEvent 0 Submit Sample.signup_typed))
    !! storage_key "signup" = None /\
  pending_saves 0 (fst (dispatchEvent 0 Submit Sample.signup_typed)) =
    [(0, "signup")] /\
  localStorage
    (timer_fires Sample.browser 0 "signup"
       (fst (dispatchEvent 0 Submit Sample.signup_typed)))
    !! storage_key "signup" =
    Some (JSON_stringify
            [("name", EString "Alice"); ("email", EString "a@b")]).
Proof.
  assert (Hf : exists f,
    lookup 0 (document (fst (dispatchEvent 0 Submit Sample.signup_typed))) =
      Some f /\
    plain_names f /\
    payload f = [("name", EString "Alice"); ("email", EString "a@b")]).
  { eexists. split; [vm_compute; reflexivity|].
    split; [|vm_compute; reflexivity].
    intros x Hx Hn. apply list_elem_of_In in Hx. vm_compute in Hx.
    repeat (destruct Hx as [<-|Hx];
            [first [discriminate Hn | split; [reflexivity|discriminate]]|]).
    destruct Hx. }
  destruct Hf as (f & Hf & Hp & Epay).
  assert (Hls : forall h l, (h, Submit, l) ∈ listeners Sample.signup_typed ->
     (exists inputs, l = OnSubmitValidate inputs) \/
     exists id, l = OnSubmitAutosave id).
  { intros h l Hin. apply list_elem_of_In in Hin. vm_compute in Hin.
    repeat (destruct Hin as [Hin|Hin];
            [first [discriminate Hin
                   |injection Hin as <- <-; left; eexists; reflexivity
                   |injection Hin as <- <-; right; eexists; reflexivity]|]).
    destruct Hin. }
  assert (Hreg : (0, Submit, OnSubmitAutosave "signup")
                   ∈ listeners Sample.signup_typed).
  { apply list_elem_of_In. vm_compute. do 6 right. left. reflexivity. }
  pose proof (submit_keeps_pending_save Sample.browser Sample.signup_typed 0
              "signup" f Hls Hreg Hf Hp) as (H1 & _ & _ & H4 & H5).
  split; [vm_compute; reflexivity|]. split; [vm_compute; reflexivity|].
  split; [exact H1|]. split.
  - rewrite H4. vm_compute. reflexivity.
  - rewrite H5, Epay. reflexivity.
Defined.

End Bubbling.

(* ===================================================================== *)
(** ** What rehydration leaves alone *)
(* ===================================================================== *)

Module Skips.
Local Open Scope list_scope.

Section Loop.
Variables (env : platform) (form : nat) (doc0 : list Dom.node)
  (f0 : Dom.node).
Hypothesis Hf0 : Dom.lookup form doc0 = Some f0.
Hypothesis ND0 : NoDup (Dom.handles doc0).

Let field (k : string) : option Dom.node :=
  List.find (Dom.has_name k) (Dom.descendants f0).

(** A member with an empty value, or without a field of its name, is
    passed over. *)
Lemma restore_skips T st k v :
  edit T -> document st = List.map T doc0 -> plain_key k = true ->
  v = "" \/ field k = None ->
  restore env form (k, Json.JString v) st = (st, Ok tt).
Proof.
  intros HT Hd Hk Hor.
  assert (Hq : form_querySelector_name env form k st =
               (st, Ok (option_map T (field k)))).
  { unfold form_querySelector_name.
    rewrite Hd, (Edits.lookup_edit T HT), Hf0. simpl.
    now rewrite Hk, (Edits.descendants_edit T HT),
      (Edits.find_name_edit T HT). }
  unfold restore. rewrite (Store.bind_ok _ _ _ _ _ Hq).
  destruct (field k) as [x|]; [|reflexivity].
  destruct Hor as [->|Hnone]; [reflexivity|discriminate].
Qed.

Lemma restore_all_kept es : forall T st,
  edit T -> document st = List.map T doc0 -> loading st ->
  (forall k j, (k, j) ∈ es ->
     exists v, j = Json.JString v /\ restorable env f0 k v) ->
  exists st' T',
    forEach es (restore env form) st = (st', Ok tt) /\
    edit T' /\ document st' = List.map T' doc0 /\
    (forall n,
       (forall k v x, (k, Json.JString v) ∈ es -> v <> "" ->
          field k = Some x -> Dom.handle x <> Dom.handle n) ->
       Dom.value (Dom.elem (T' n)) = Dom.value (Dom.elem (T n))).
Proof.
  induction es as [|[k1 j1] r IH]; intros T st HT Hd Hload Hes.
  - exists st, T. split; [reflexivity|]. split; [exact HT|].
    split; [exact Hd|reflexivity].
  - destruct (Hes k1 j1) as (v1 & -> & Hres1); [apply elem_of_cons; now left|].
    assert (Hr : forall k j, (k, j) ∈ r ->
              exists v, j = Json.JString v /\ restorable env f0 k v).
    { intros k j Hin. apply Hes. apply elem_of_cons. now right. }
    destruct (decide (v1 = "")) as [Hv|Hv].
    + destruct (IH T st HT Hd Hload Hr) as (st2 & T2 & Hrun & HT2 & Hd2 & Hk).
      exists st2, T2. split.
      { simpl forEach.
        rewrite (Store.bind_ok _ _ _ _ _
                   (restore_skips T st k1 v1 HT Hd (proj1 Hres1)
                      (or_introl Hv))).
        exact Hrun. }
      split; [exact HT2|]. split; [exact Hd2|].
      intros n Hn. apply Hk. intros k v x Hin. apply Hn.
      apply elem_of_cons. now right.
    + destruct (Store.restore_one env form doc0 f0 Hf0 T st k1 v1
                  HT Hd Hload Hres1)
        as (st1 & T1 & Hrun1 & HT1 & Hd1 & Hl1 & _ & Hkeep1).
      destruct (IH T1 st1 HT1 Hd1 Hl1 Hr)
        as (st2 & T2 & Hrun2 & HT2 & Hd2 & Hk).
      exists st2, T2. split.
      { simpl forEach. now rewrite (Store.bind_ok _ _ _ _ _ Hrun1). }
      split; [exact HT2|]. split; [exact Hd2|].
      intros n Hn. rewrite Hk, Hkeep1; [reflexivity| |].
      * intros x Hx. apply (Hn k1 v1 x); [apply elem_of_cons; now left| |];
          assumption.
      * intros k v x Hin. apply Hn. apply elem_of_cons. now right.
Qed.

End Loop.

(** X12: when a draft is restored, every element that is not the field
    of a member with a non-empty value keeps its value.  A member whose
    value is the empty string is passed over, so a field that the user
    had emptied comes back with the value of the fresh page; so is a
    member that names no field of the form. *)
Theorem unsaved_values_stay env form formId st f data :
  Dom.wf (document st) (fresh st) ->
  loading st ->
  localStorage st !! storage_key formId =
    Some (JSON_stringify (draft data)) ->
  NoDup (List.map fst data) ->
  Dom.lookup form (document st) = Some f ->
  (forall k v, (k, v) ∈ data -> restorable env f k v) ->
  exists st',
    loadFormData env form formId st = (st', Ok tt) /\
    forall y,
      y ∈ Dom.preorder (document st) ->
      (forall k v x, (k, v) ∈ data -> v <> "" ->
         List.find (Dom.has_name k) (Dom.descendants f) = Some x ->
         Dom.handle x <> Dom.handle y) ->
      exists y',
        Dom.lookup (Dom.handle y) (document st') = Some y' /\
        Dom.value (Dom.elem y') = Dom.value (Dom.elem y).
Proof.
  intros Hwf Hload Hs ND Hf Hres.
  destruct (Store.draft_members data ND) as [_ HP].
  destruct (restore_all_kept env form (document st) f Hf
              (define_all (draft data) []) (fun n => n) st Edits.edit_id)
    as (st' & T' & Hrun & HT' & Hd' & Hkept);
    [now rewrite List.map_id|exact Hload| |].
  { intros k j Hin. apply HP in Hin as (v & -> & Hin).
    exists v. split; [reflexivity|now apply Hres]. }
  exists (set_console (console st' ++ ["Form data loaded: " +:+ formId]) st').
  split.
  - unfold loadFormData. rewrite Load.bind_get, Hs.
    change (Str.truthy (JSON_stringify (draft data))) with true.
    change (negb true) with false. cbv iota.
    unfold try_catch.
    rewrite JsonFacts.parse_stringify, Store.bind_lift_ok.
    change (Object_entries (Json.JObject ?o)) with (Ok (A := list _) o).
    rewrite Store.bind_lift_ok, (Store.bind_ok _ _ _ _ _ Hrun). reflexivity.
  - intros y Hy Hother. exists (T' y). split.
    + simpl. rewrite Hd', (Edits.lookup_edit T' HT').
      now rewrite DomFacts.lookup_unique by (exact (proj1 Hwf) || exact Hy).
    + apply Hkept. intros k v x Hin Hv Hx.
      apply (Hother k v x); [|exact Hv|exact Hx].
      apply HP in Hin as (v' & E & Hin). now injection E as <-.
Qed.

Lemma unsaved_values_stay_witness :
  exists st' y',
    loadFormData Sample.browser 0 "profile" prefilled = (st', Ok tt) /\
    Dom.lookup 1 (document st') = Some y' /\
    Dom.value (Dom.elem y') = "Bob".
Proof.
  destruct (unsaved_values_stay Sample.browser 0 "profile" prefilled
              (Dom.Node 0 (Sample.form (Some "profile"))
                 [Dom.Node 1 (Sample.input "name" "text" "Bob" true) []])
              [("name", ""); ("nick", "Al")])
    as (st' & Hrun & Hkept).
  - split; apply (bool_decide_unpack _); vm_compute; exact I.
  - split.
    + intros n Hn. apply list_elem_of_In in Hn. vm_compute in Hn.
      repeat (destruct Hn as [<-|Hn]; [reflexivity|]). destruct Hn.
    + intros h l Hin. inversion Hin.
  - reflexivity.
  - apply (bool_decide_unpack _). vm_compute. exact I.
  - reflexivity.
  - intros k v Hin. apply list_elem_of_In in Hin.
    destruct Hin as [E|[E|[]]]; injection E as <- <-;
      (split; [reflexivity|]); intros x Hx Hv;
      [congruence|vm_compute in Hx; discriminate].
  - destruct (Hkept (Dom.Node 1 (Sample.input "name" "text" "Bob" true) []))
      as (y' & Hy & Hv).
    + apply elem_of_cons. right. apply elem_of_cons. now left.
    + intros k v x Hin Hne Hx. apply list_elem_of_In in Hin.
      destruct Hin as [E|[E|[]]]; injection E as <- <-;
        [congruence|vm_compute in Hx; discriminate].
    + exists st', y'. auto.
Defined.

Lemma save_then_load_witness :
  exists st' y',
    loadFormData Sample.browser 0 "signup" revisit = (st', Ok tt) /\
    Dom.lookup 1 (document st') = Some y' /\
    Dom.value (Dom.elem y') = "Alice" /\
    Dom.name (Dom.elem y') = "name".
Proof.
  destruct (Store.save_then_load Sample.browser 0 "signup" visit
              (Dom.Node 0 (Sample.form (Some "signup"))
                 [Dom.Node 1 (Sample.input "name" "text" "Alice" true) [];
                  Dom.Node 2 (Sample.input "email" "email" "a@b" false) []])
              0 revisit
              (Dom.Node 0 (Sample.form (Some "signup"))
                 [Dom.Node 1 (Sample.input "name" "text" "" true) [];
                  Dom.Node 2 (Sample.input "email" "email" "" false) []]))
    as (st' & Hrun & Hval).
  - reflexivity.
  - apply (bool_decide_unpack _). vm_compute. exact I.
  - intros x Hx _.
    repeat (apply elem_of_cons in Hx as [->|Hx]);
      [split; [reflexivity|discriminate]..|inversion Hx].
  - split; apply (bool_decide_unpack _); vm_compute; exact I.
  - split.
    + intros n Hn. apply list_elem_of_In in Hn. vm_compute in Hn.
      repeat (destruct Hn as [<-|Hn]; [reflexivity|]). destruct Hn.
    + intros h l Hin. apply list_elem_of_In in Hin. vm_compute in Hin.
      repeat (destruct Hin as [Hin|Hin];
              [first [discriminate Hin | injection Hin as <- <-; now left]|]).
      destruct Hin.
  - reflexivity.
  - reflexivity.
  - intros x k v Hx _ Hin.
    repeat (apply elem_of_cons in Hx as [->|Hx]); [| |inversion Hx];
      apply list_elem_of_In in Hin; vm_compute in Hin;
      destruct Hin as [E|[]]; injection E as <- <-;
      (split; [reflexivity|]); intros y Hy _;
      vm_compute in Hy; injection Hy as <-; reflexivity.
  - destruct (Hval (Dom.Node 1 (Sample.input "name" "text" "Alice" true) [])
                "name" "Alice"
                (Dom.Node 1 (Sample.input "name" "text" "" true) []))
      as (y' & Hy & Hv & Hn);
      [apply elem_of_cons; now left|discriminate
      |apply elem_of_cons; now left|discriminate|reflexivity|].
    exists st', y'. auto.
Defined.

End Skips.

(* ===================================================================== *)
(** ** File selection, spinners and the notification container *)
(* ===================================================================== *)

Module Widgets.
Import Dom DomFacts.
Local Open Scope list_scope.

(** *** [handleFileSelect] *)

(** X14: [handleFileSelect] looks at the first file of the input only.
    The file is accepted when its size is at most 5242880 bytes and its
    type is one of the four image types; then nothing changes and the
    preview is started.  Otherwise one error notification is raised,
    for the size when the file is too large and else for the type, and
    the selection of the input is emptied.  Without a file nothing
    happens. *)
Theorem file_selection_rule env info st x :
  lookup (handle x) (document st) = Some x ->
  localName (elem x) = "input" ->
  type (elem x) = "file" ->
  match files (elem x) with
  | [] => handleFileSelect env info x st = (st, Ok false)
  | f :: _ =>
      let small := (file_size (info f) <=? 5242880)%N in
      let image := bool_decide (file_type (info f) ∈ validTypes) in
      exists st',
        handleFileSelect env info x st = (st', Ok (small && image)) /\
        if small && image then st' = st
        else
          notifications st' =
            notifications st ++
            [(if small then "Please select a valid image file"
              else "File size must be less than 5MB", "error")] /\
          exists x',
            lookup (handle x) (document st') = Some x' /\
            files (elem x') = [] /\ value (elem x') = ""
  end.
Proof.
  intros Hx Hl Ht. unfold handleFileSelect.
  destruct (files (elem x)) as [|f rest]; [reflexivity|].
  cbv zeta.
  change (5 * 1024 * 1024)%N with 5242880%N.
  rewrite N.ltb_antisym.
  assert (Hclear : forall msg,
            exists st',
              (showNotification msg "error" ;;;
               assign_value env x "" ;;; ret false) st = (st', Ok false) /\
              notifications st' = notifications st ++ [(msg, "error")] /\
              exists x',
                lookup (handle x) (document st') = Some x' /\
                files (elem x') = [] /\ value (elem x') = "").
  { intros msg. unfold bind, showNotification, modify, assign_value.
    simpl. rewrite Hl, Ht. simpl.
    eexists. split; [reflexivity|]. split; [reflexivity|].
    simpl. rewrite lookup_update, Hx. simpl.
    eexists. split; [reflexivity|].
    rewrite Edits.update_elem, Nat.eqb_refl. split; reflexivity. }
  destruct (file_size (info f) <=? 5242880)%N; simpl.
  - destruct (bool_decide (file_type (info f) ∈ validTypes)); simpl.
    + exists st. split; reflexivity.
    + apply Hclear.
  - apply Hclear.
Qed.

Lemma file_selection_rule_witness :
  snd (handleFileSelect Sample.browser sample_info
         (Node 1 (Sample.file_input "photo" ["edge.png"; "big.png"]) [])
         (upload ["edge.png"; "big.png"])) = Ok true /\
  exists st',
    handleFileSelect Sample.browser sample_info
      (Node 1 (Sample.file_input "photo" ["big.png"]) [])
      (upload ["big.png"]) = (st', Ok false) /\
    notifications st' = [("File size must be less than 5MB", "error")].
Proof.
  split.
  - destruct (file_selection_rule Sample.browser sample_info
                (upload ["edge.png"; "big.png"])
                (Node 1 (Sample.file_input "photo" ["edge.png"; "big.png"])
                   []) eq_refl eq_refl eq_refl) as (st' & -> & _).
    reflexivity.
  - destruct (file_selection_rule Sample.browser sample_info
                (upload ["big.png"])
                (Node 1 (Sample.file_input "photo" ["big.png"]) [])
                eq_refl eq_refl eq_refl) as (st' & Hr & Hn & _).
    exists st'. split; [exact Hr|exact Hn].
Defined.

(** *** Spinners *)

Lemma prune_forest_app d f g :
  prune_forest d (f ++ g) = prune_forest d f ++ prune_forest d g.
Proof. unfold prune_forest. now rewrite map_app, List.filter_app. Qed.

(** Without the handle in it, a forest is left as it is by [prune]. *)
Lemma prune_id d f : d ∉ handles f -> prune_forest d f = f.
Proof.
  induction f as [|g e ks f IHks IHf] using forest_ind; intros H;
    [reflexivity|].
  rewrite handles_cons in H.
  apply not_elem_of_cons in H as [H1 H2].
  apply not_elem_of_app in H2 as [H2 H3].
  rewrite prune_forest_cons, IHks, IHf by assumption.
  now rewrite (proj2 (Nat.eqb_neq g d)) by congruence.
Qed.

(** Removing a node that was just appended gives the forest back. *)
Lemma prune_appended h c f :
  handle c ∉ handles f ->
  prune_forest (handle c) (List.map (append h c) f) = f.
Proof.
  induction f as [|g e ks f IHks IHf] using forest_ind; intros H;
    [reflexivity|].
  rewrite handles_cons in H.
  apply not_elem_of_cons in H as [H1 H2].
  apply not_elem_of_app in H2 as [H2 H3].
  rewrite append_forest_cons, prune_forest_cons.
  rewrite (proj2 (Nat.eqb_neq g (handle c))) by congruence.
  rewrite prune_forest_app, IHks, IHf by assumption.
  destruct (Nat.eqb g h); [|now rewrite app_nil_r].
  destruct c as [hc ec kc]. rewrite prune_forest_cons. simpl.
  rewrite Nat.eqb_refl. now rewrite app_nil_r.
Qed.

(** X15: when no spinner is under an element of the document,
    [hideLoading] changes nothing, and [hideLoading] after [showLoading]
    gives the document back as it was; two handles have been used. *)
Theorem spinner_round_trip st element n :
  wf (document st) (fresh st) ->
  lookup element (document st) = Some n ->
  (forall x, x ∈ descendants n -> has_class "loading-spinner" x = false) ->
  hideLoading element st = (st, Ok tt) /\
  (showLoading element ;;; hideLoading element) st =
    (set_fresh (S (S (fresh st))) st, Ok tt).
Proof.
  intros Hwf Hn Hnone.
  assert (Hfind : List.find (has_class "loading-spinner") (descendants n)
                  = None) by now apply find_none.
  split.
  { unfold hideLoading. rewrite Load.bind_get, Hn, Hfind. reflexivity. }
  set (c := spinner_node (fresh st) (S (fresh st))).
  assert (Hlt : element < fresh st)
    by (eapply Annotation.handle_below; eauto).
  assert (Hcs : forall x, x ∈ subtree c -> handle x <> element).
  { intros x Hx. unfold c, subtree, spinner_node in Hx. simpl in Hx.
    apply elem_of_cons in Hx as [->|Hx]; [simpl; lia|].
    apply list_elem_of_singleton in Hx. subst x. simpl. lia. }
  destruct (Annotation.append_keeps_field (document st) element element c
              Hcs) as [Hn1 _].
  rewrite Hn in Hn1. simpl in Hn1.
  assert (Hin : n ∈ preorder (document st))
    by (now apply lookup_some in Hn as [Hn _]).
  assert (Eh : handle n = element) by (now apply lookup_some in Hn as [_ E]).
  destruct (Annotation.descendants_append (document st) n c (proj1 Hwf) Hin)
    as [_ Ed].
  rewrite Eh in Ed.
  assert (Hfresh : handle c ∉ handles (document st)).
  { intros H. destruct Hwf as [_ B]. rewrite Forall_forall in B.
    apply B in H. simpl in H. lia. }
  unfold showLoading, hideLoading, bind, createElement, modify_document,
    modify, get. simpl. fold c.
  rewrite Hn1, Ed, find_app, Hfind. simpl.
  unfold modify_document, modify. simpl.
  change (fresh st) with (handle c) at 1.
  rewrite prune_appended by exact Hfresh. reflexivity.
Qed.

Lemma spinner_round_trip_witness :
  (showLoading 3 ;;; hideLoading 3) with_body =
    (set_fresh 7 with_body, Ok tt).
Proof.
  apply (spinner_round_trip with_body 3
           (Node 3 (Sample.form None)
              [Node 4 (Sample.input "title" "text" "Flat" false) []])).
  - split; apply (bool_decide_unpack _); vm_compute; exact I.
  - reflexivity.
  - intros x Hx. apply elem_of_cons in Hx as [->|Hx]; [reflexivity|].
    inversion Hx.
Defined.

(** *** The notification container *)

(** A search that finds nothing in a forest finds the appended node,
    when it has the property and a node of the forest takes it. *)
Lemma find_appended (Q : node -> bool) h c f :
  (forall m, Q (append h c m) = Q m) ->
  (forall m, m ∈ preorder f -> Q m = false) ->
  Q c = true -> h ∈ handles f ->
  List.find Q (preorder (List.map (append h c) f)) = Some c.
Proof.
  intros Hinv.
  induction f as [|g e ks f IHks IHf] using forest_ind; intros Hno Hc Hh;
    [inversion Hh|].
  assert (Hks : forall m, m ∈ preorder ks -> Q m = false).
  { intros m Hm. apply Hno. rewrite preorder_cons. apply elem_of_cons.
    right. apply elem_of_app. now left. }
  assert (Hf : forall m, m ∈ preorder f -> Q m = false).
  { intros m Hm. apply Hno. rewrite preorder_cons. apply elem_of_cons.
    right. apply elem_of_app. now right. }
  rewrite append_forest_cons, preorder_cons, preorder_app.
  simpl List.find.
  change (Node g e (List.map (append h c) ks ++
                    (if Nat.eqb g h then [c] else [])))
    with (append h c (Node g e ks)).
  rewrite Hinv, (Hno (Node g e ks))
    by (rewrite preorder_cons; apply elem_of_cons; now left).
  rewrite !find_app.
  destruct (decide (h ∈ handles ks)) as [Hin|Hout].
  { now rewrite (IHks Hks Hc Hin). }
  rewrite (append_id h c ks Hout), (find_none Q (preorder ks) Hks).
  destruct (Nat.eqb g h) eqn:E.
  - destruct c as [hc ec kc]. rewrite preorder_cons. simpl List.find.
    now rewrite Hc.
  - simpl. apply IHf; [exact Hf|exact Hc|].
    rewrite handles_cons in Hh. apply Nat.eqb_neq in E.
    apply elem_of_cons in Hh as [Hh|Hh]; [congruence|].
    apply elem_of_app in Hh as [Hh|Hh]; [contradiction|exact Hh].
Qed.

Lemma body_in_document doc body :
  document_body doc = Some body -> body ∈ preorder doc.
Proof.
  unfold document_body. destruct doc as [|root r]; [discriminate|].
  destruct (Str.eqb _ _); [|discriminate]. intros H.
  apply find_some in H as [H _].
  apply (children_in_preorder root); [|exact H].
  destruct root. rewrite preorder_cons. apply elem_of_cons. now left.
Qed.

(** X16: [getNotificationContainer] makes the container once.  In a
    document that has none and has a body, it answers a new element of
    class [notifications-container], which is then the first such
    element of the document; every later call answers the same element
    and leaves the page as it is.  Without a body, and without a
    container, it throws a [TypeError]. *)
Theorem container_is_made_once st :
  List.find (has_class "notifications-container")
    (preorder (document st)) = None ->
  match document_body (document st) with
  | Some body =>
      exists st',
        getNotificationContainer st = (st', Ok (fresh st)) /\
        List.find (has_class "notifications-container")
          (preorder (document st')) = Some (container_node (fresh st)) /\
        getNotificationContainer st' = (st', Ok (fresh st))
  | None => snd (getNotificationContainer st) = Throw TypeError
  end.
Proof.
  intros Hnone.
  destruct (document_body (document st)) as [body|] eqn:Hb.
  - pose proof (body_in_document _ _ Hb) as Hin.
    assert (Hrun :
      getNotificationContainer st =
      (set_document
         (List.map (append (handle body) (container_node (fresh st)))
            (document st))
         (set_fresh (S (fresh st)) st), Ok (fresh st))).
    { unfold getNotificationContainer. rewrite Load.bind_get, Hnone.
      unfold bind, createElement. simpl. now rewrite Hb. }
    assert (Hfound :
      List.find (has_class "notifications-container")
        (preorder
           (List.map (append (handle body) (container_node (fresh st)))
              (document st))) = Some (container_node (fresh st))).
    { apply find_appended.
      - intros m. unfold has_class. now rewrite append_elem.
      - intros m Hm. now apply (find_none_inv _ _ m Hnone).
      - reflexivity.
      - now apply elem_of_map. }
    eexists. split; [exact Hrun|]. split; [exact Hfound|].
    unfold getNotificationContainer. rewrite Load.bind_get. simpl.
    rewrite Hfound. reflexivity.
  - unfold getNotificationContainer. rewrite Load.bind_get, Hnone.
    unfold bind, createElement. simpl. now rewrite Hb.
Qed.

Lemma container_is_made_once_witness :
  exists st',
    getNotificationContainer with_body = (st', Ok 5) /\
    getNotificationContainer st' = (st', Ok 5).
Proof.
  pose proof (container_is_made_once with_body eq_refl) as H.
  change (document_body (document with_body))
    with (Some (Node 2 (created "body" [] "")
                  [Node 3 (Sample.form None)
                     [Node 4 (Sample.input "title" "text" "Flat" false)
                        []]])) in H.
  destruct H as (st' & H1 & _ & H2).
  exists st'. split; [exact H1|exact H2].
Defined.

End Widgets.

(* ===================================================================== *)
(** ** Throttling and the search box *)
(* ===================================================================== *)

Module Pacing.
Local Open Scope list_scope.

Section Throttle.
Context {A W : Type}.
Variable func : A -> W -> W * result unit.



End Throttle.


(** *** The search box *)

Lemma filter_keys_NoDup (h : nat) (pending : list (nat * string)) :
  NoDup (List.map fst pending) ->
  NoDup (List.map fst
           (List.filter (fun t => negb (Nat.eqb (fst t) h)) pending)) /\
  h ∉ List.map fst
        (List.filter (fun t => negb (Nat.eqb (fst t) h)) pending).
Proof.
  intros ND. split.
  - induction pending as [|t r IH]; [constructor|].
    simpl in ND. apply NoDup_cons in ND as [Ht ND]. simpl.
    destruct (negb _); [|now apply IH]. simpl. apply NoDup_cons.
    split; [|now apply IH]. intros Hin. apply Ht.
    apply list_elem_of_In, in_map_iff in Hin as (x & E & Hx).
    apply filter_In in Hx as [Hx _]. rewrite <- E.
    apply list_elem_of_In, in_map. exact Hx.
  - intros Hin.
    apply list_elem_of_In, in_map_iff in Hin as (x & E & Hx).
    apply filter_In in Hx as [_ Hx]. apply negb_true_iff, Nat.eqb_neq in Hx.
    congruence.
Qed.

Lemma search_input_orderly input pending :
  orderly pending -> orderly (search_input input pending).
Proof.
  intros [ND Hq]. unfold search_input.
  destruct (filter_keys_NoDup (Dom.handle input) pending ND) as [ND' Hout].
  assert (Hq' : forall h q,
            (h, q) ∈ List.filter
                       (fun t => negb (Nat.eqb (fst t) (Dom.handle input)))
                       pending ->
            3 <= String.length q /\ exists v, q = Str.trim v).
  { intros h q Hin. apply list_elem_of_In, filter_In in Hin as [Hin _].
    apply (Hq h). now apply list_elem_of_In. }
  destruct (Nat.leb 3 _) eqn:E; [|split; assumption].
  apply Nat.leb_le in E. split.
  - rewrite map_app. simpl. apply NoDup_app. split; [exact ND'|].
    split; [|apply NoDup_singleton].
    intros h Hh Hin. apply list_elem_of_singleton in Hin. now subst.
  - intros h q Hin. apply elem_of_app in Hin as [Hin|Hin]; [eauto|].
    apply list_elem_of_singleton in Hin. injection Hin as -> ->.
    split; [exact E|eauto].
Qed.

(** The search that is pending for a box. *)
Lemma find_filter_other (h h' : nat) (pending : list (nat * string)) :
  List.find (fun t => Nat.eqb (fst t) h)
    (List.filter (fun t => negb (Nat.eqb (fst t) h')) pending) =
  if Nat.eqb h' h then None
  else List.find (fun t => Nat.eqb (fst t) h) pending.
Proof.
  induction pending as [|t r IH].
  - now destruct (Nat.eqb h' h).
  - simpl. destruct (Nat.eqb (fst t) h') eqn:E1; simpl.
    + rewrite IH. destruct (Nat.eqb h' h) eqn:E2; [reflexivity|].
      apply Nat.eqb_eq in E1. rewrite E1, E2. reflexivity.
    + destruct (Nat.eqb (fst t) h) eqn:E3; [|exact IH].
      apply Nat.eqb_eq in E3. rewrite <- E3, Nat.eqb_sym, E1. reflexivity.
Qed.

Lemma find_app_none {A} (P : A -> bool) l l' :
  List.find P l = None -> List.find P (l ++ l') = List.find P l'.
Proof.
  induction l as [|a l IH]; [reflexivity|]. simpl.
  destruct (P a); [discriminate|exact IH].
Qed.

Lemma find_app_some {A} (P : A -> bool) l l' a :
  List.find P l = Some a -> List.find P (l ++ l') = Some a.
Proof.
  induction l as [|b l IH]; [discriminate|]. simpl.
  destruct (P b); [auto|exact IH].
Qed.

Lemma find_search_input input pending h :
  List.find (fun t => Nat.eqb (fst t) h) (search_input input pending) =
  if Nat.eqb (Dom.handle input) h then
    if Nat.leb 3 (String.length (query_of input))
    then Some (h, query_of input) else None
  else List.find (fun t => Nat.eqb (fst t) h) pending.
Proof.
  unfold search_input, query_of.
  pose proof (find_filter_other h (Dom.handle input) pending) as Hf.
  destruct (Nat.eqb (Dom.handle input) h) eqn:E.
  - apply Nat.eqb_eq in E.
    destruct (Nat.leb 3 _); [|exact Hf].
    rewrite (find_app_none _ _ _ Hf). simpl.
    rewrite E, Nat.eqb_refl. reflexivity.
  - destruct (Nat.leb 3 _); [|exact Hf].
    destruct (List.find _ pending) as [a|] eqn:Ea.
    + now apply find_app_some.
    + rewrite (find_app_none _ _ _ Hf). simpl. now rewrite E.
Qed.

Lemma filter_absent (h : nat) (pending : list (nat * string)) :
  List.find (fun t => Nat.eqb (fst t) h) pending = None ->
  List.filter (fun t => negb (Nat.eqb (fst t) h)) pending = pending.
Proof.
  induction pending as [|t r IH]; [reflexivity|]. simpl.
  destruct (Nat.eqb (fst t) h); [discriminate|]. simpl.
  intros H. now rewrite IH.
Qed.

(** The events of the other boxes leave the pending search of a box as
    it is. *)
Lemma quiet_run h es : forall pending st,
  quiet h es = true ->
  exists st' pending',
    search_run es pending st = (st', Ok pending') /\
    List.find (fun t => Nat.eqb (fst t) h) pending' =
    List.find (fun t => Nat.eqb (fst t) h) pending.
Proof.
  induction es as [|[input|i] r IH]; intros pending st Hq.
  - exists st, pending. split; reflexivity.
  - simpl in Hq. apply andb_true_iff in Hq as [Hn Hq].
    apply negb_true_iff in Hn.
    destruct (IH (search_input input pending) st Hq)
      as (st' & pending' & Hrun & Hfind).
    exists st', pending'. split; [exact Hrun|].
    rewrite Hfind, find_search_input, Hn. reflexivity.
  - simpl in Hq. apply andb_true_iff in Hq as [Hn Hq].
    apply negb_true_iff in Hn.
    simpl. unfold bind, search_fires.
    destruct (List.find (fun t => Nat.eqb (fst t) i) pending)
      as [[h' q]|] eqn:Ef; [|now apply IH].
    unfold performSearch, console_log, bind, modify. simpl.
    destruct (IH (List.filter (fun t => negb (Nat.eqb (fst t) i)) pending)
                (set_console (console st ++ ["Searching for: " +:+ q]) st) Hq)
      as (st' & pending' & Hrun & Hfind).
    exists st', pending'. split; [exact Hrun|].
    rewrite Hfind, find_filter_other, Hn. reflexivity.
Qed.

Lemma search_run_app es1 es2 : forall pending st st1 pending1,
  search_run es1 pending st = (st1, Ok pending1) ->
  search_run (es1 ++ es2) pending st = search_run es2 pending1 st1.
Proof.
  induction es1 as [|[input|i] r IH]; intros pending st st1 pending1 H.
  - simpl in H. injection H as <- <-. reflexivity.
  - simpl in *. now apply IH.
  - simpl in *. unfold bind in *.
    destruct (search_fires i pending st) as [st0 [p0|e]]; [|discriminate].
    now apply IH.
Qed.

Lemma search_run_returns es : forall pending st,
  exists st' pending', search_run es pending st = (st', Ok pending').
Proof.
  induction es as [|[input|i] r IH]; intros pending st.
  - now exists st, pending.
  - simpl. apply IH.
  - simpl. unfold bind, search_fires.
    destruct (List.find _ pending) as [[h q]|]; [|apply IH].
    unfold performSearch, console_log, bind, modify. simpl. apply IH.
Qed.

(** X18: whatever is typed into the search boxes and whenever the
    delays end, every search that runs is for a query of three
    characters or more, trimmed, which is the text of a box at one of
    the keystrokes unless it was pending at the start; a line is logged
    for each of them and nothing else of the page changes; at most one
    search is pending for a box, and a keystroke that leaves fewer than
    three characters cancels the pending search of its box.  When the
    delay of a box ends and nothing has happened to the box since its
    last keystroke, the search that runs is for the text the box had at
    that keystroke, trimmed, and it runs once; no search runs when that
    text has fewer than three characters. *)
Theorem searches_are_paced es :
  (forall pending st,
     orderly pending ->
     exists st' pending' queries,
       search_run es pending st = (st', Ok pending') /\
       orderly pending' /\
       st' = set_console
               (console st ++
                List.map (fun q => "Searching for: " +:+ q) queries) st /\
       forall q, q ∈ queries ->
         3 <= String.length q /\ (exists v, q = Str.trim v) /\
         ((exists h, (h, q) ∈ pending) \/
          exists input, Typed input ∈ es /\ q = query_of input)) /\
  (forall input pending,
     String.length (Str.trim (Dom.value (Dom.elem input))) < 3 ->
     forall q, (Dom.handle input, q) ∉ search_input input pending) /\
  (forall input later pending st,
     quiet (Dom.handle input) later = true ->
     exists st1 pending1,
       search_run (es ++ Typed input :: later) pending st =
         (st1, Ok pending1) /\
       search_run [Elapsed (Dom.handle input); Elapsed (Dom.handle input)]
         pending1 st1 =
       (if Nat.leb 3 (String.length (query_of input))
        then set_console
               (console st1 ++ ["Searching for: " +:+ query_of input]) st1
        else st1,
        Ok (List.filter
              (fun t => negb (Nat.eqb (fst t) (Dom.handle input)))
              pending1))).
Proof.
  split; [|split].
  - induction es as [|[input|input] r IH]; intros pending st Hp.
    + exists st, pending, []. split; [reflexivity|]. split; [exact Hp|].
      split; [|intros q Hq; inversion Hq].
      simpl. rewrite app_nil_r. now destruct st.
    + simpl.
      destruct (IH _ st (search_input_orderly input pending Hp))
        as (st' & pending' & queries & Hrun & Ho & Hst & Hqs).
      exists st', pending', queries.
      split; [exact Hrun|]. split; [exact Ho|]. split; [exact Hst|].
      intros q Hq. destruct (Hqs q Hq) as (H3 & Hv & Hfrom).
      split; [exact H3|]. split; [exact Hv|].
      destruct Hfrom as [[h Hin]|(input' & Hin & E)].
      * unfold search_input in Hin.
        assert (Hc : (h, q) ∈ pending \/ q = query_of input).
        { destruct (Nat.leb 3 _).
          - apply elem_of_app in Hin as [Hin|Hin].
            + left. apply list_elem_of_In, filter_In in Hin as [Hin _].
              now apply list_elem_of_In.
            + right. apply list_elem_of_singleton in Hin.
              now injection Hin as _ ->.
          - left. apply list_elem_of_In, filter_In in Hin as [Hin _].
            now apply list_elem_of_In. }
        destruct Hc as [Hc| ->]; [left; now exists h|].
        right. exists input. split; [apply elem_of_cons; now left|reflexivity].
      * right. exists input'. split; [apply elem_of_cons; now right|exact E].
    + simpl. unfold bind, search_fires.
      assert (Hgen : forall (pending0 : list (nat * string))
                            (queries0 : list string),
        (forall h q, (h, q) ∈ pending0 -> (h, q) ∈ pending) ->
        (forall q, q ∈ queries0 ->
           3 <= String.length q /\ (exists v, q = Str.trim v) /\
           ((exists h, (h, q) ∈ pending0) \/
            exists input0, Typed input0 ∈ r /\ q = query_of input0)) ->
        forall q, q ∈ queries0 ->
           3 <= String.length q /\ (exists v, q = Str.trim v) /\
           ((exists h, (h, q) ∈ pending) \/
            exists input0, Typed input0 ∈ Elapsed input :: r /\
                           q = query_of input0)).
      { intros pending0 queries0 Hsub Hqs q Hq.
        destruct (Hqs q Hq) as (H3 & Hv & Hfrom).
        split; [exact H3|]. split; [exact Hv|].
        destruct Hfrom as [[h Hin]|(input' & Hin & E)].
        - left. exists h. now apply Hsub.
        - right. exists input'. split; [apply elem_of_cons; now right|exact E]. }
      destruct (List.find _ pending) as [[h q]|] eqn:Ef.
      * unfold performSearch, console_log, bind, modify. simpl.
        apply DomFacts.find_some in Ef as [Hin _].
        assert (Hp' : orderly
                        (List.filter (fun t => negb (Nat.eqb (fst t) input))
                           pending)).
        { destruct Hp as [ND Hq]. split.
          - apply (filter_keys_NoDup input pending ND).
          - intros h' q' Hin'.
            apply list_elem_of_In, filter_In in Hin' as [Hin' _].
            apply (Hq h'). now apply list_elem_of_In. }
        destruct (IH _ (set_console (console st ++ ["Searching for: " +:+ q])
                          st) Hp')
          as (st' & pending' & queries & Hrun & Ho & Hst & Hqs).
        exists st', pending', (q :: queries).
        split; [exact Hrun|]. split; [exact Ho|]. split.
        -- rewrite Hst. simpl. now rewrite <- app_assoc.
        -- intros q' Hq'. apply elem_of_cons in Hq' as [->|Hq'].
           ++ destruct Hp as [_ Hq]. destruct (Hq h q Hin) as [H3 Hv].
              split; [exact H3|]. split; [exact Hv|]. left. now exists h.
           ++ refine (Hgen _ queries _ Hqs q' Hq').
              intros h' q0 Hin'.
              apply list_elem_of_In, filter_In in Hin' as [Hin' _].
              now apply list_elem_of_In.
      * destruct (IH pending st Hp)
          as (st' & pending' & queries & Hrun & Ho & Hst & Hqs).
        exists st', pending', queries.
        split; [exact Hrun|]. split; [exact Ho|]. split; [exact Hst|].
        apply (Hgen pending queries); [auto|exact Hqs].
  - intros input pending Hlt q Hin. unfold search_input in Hin.
    rewrite (proj2 (Nat.leb_gt 3 _)) in Hin by exact Hlt.
    apply list_elem_of_In, filter_In in Hin as [_ Hin]. simpl in Hin.
    now rewrite Nat.eqb_refl in Hin.
  - intros input later pending st Hq.
    destruct (search_run_returns es pending st) as (st0 & pending0 & Hrun0).
    destruct (quiet_run (Dom.handle input) later
                (search_input input pending0) st0 Hq)
      as (st1 & pending1 & Hrun1 & Hfind).
    exists st1, pending1. split.
    { rewrite (search_run_app es _ _ _ _ _ Hrun0). exact Hrun1. }
    rewrite find_search_input, Nat.eqb_refl in Hfind.
    destruct (Nat.leb 3 (String.length (query_of input)));
      simpl; unfold bind, search_fires; rewrite Hfind.
    + unfold performSearch, console_log, bind, modify. simpl.
      rewrite find_filter_other, Nat.eqb_refl. reflexivity.
    + simpl. rewrite Hfind. simpl.
      now rewrite (filter_absent _ _ Hfind).
Qed.

Lemma searches_are_paced_witness :
  exists st1 pending1,
    search_run
      [Typed (Dom.Node 1 (Sample.input "q" "search" " fl" false) []);
       Typed (Dom.Node 1 (Sample.input "q" "search" " flat " false) []);
       Typed (Dom.Node 2 (Sample.input "city" "search" "Pune" false) [])]
      [] Sample.empty_price = (st1, Ok pending1) /\
    search_run [Elapsed 1; Elapsed 1] pending1 st1 =
      (set_console (console st1 ++ ["Searching for: flat"]) st1,
       Ok (List.filter (fun t => negb (Nat.eqb (fst t) 1)) pending1)).
Proof.
  destruct (searches_are_paced
              [Typed (Dom.Node 1 (Sample.input "q" "search" " fl" false) [])])
    as (_ & _ & H).
  exact (H (Dom.Node 1 (Sample.input "q" "search" " flat " false) [])
           [Typed (Dom.Node 2 (Sample.input "city" "search" "Pune" false) [])]
           [] Sample.empty_price eq_refl).
Defined.

End Pacing.

(* ===================================================================== *)
(** ** Whole-form validation *)
(* ===================================================================== *)

Module Submission.
Import Dom DomFacts.
Local Open Scope list_scope.

Lemma checkField_reads doc doc' e e' :
  reads e' = reads e -> password1_value doc' = password1_value doc ->
  checkField doc' e' = checkField doc e.
Proof.
  unfold reads, password1_value. intros Hr Hp.
  injection Hr as Hn Hi Ht Hv Hq.
  unfold checkField. rewrite Hn, Hi, Ht, Hv, Hq.
  destruct (document_querySelector_name "password1" doc') as [a|],
           (document_querySelector_name "password1" doc) as [b|];
    simpl in Hp; try discriminate; [|reflexivity].
  injection Hp as ->. reflexivity.
Qed.

Lemma child_in_subtree (x k : node) : k ∈ children x -> k ∈ subtree x.
Proof.
  intros Hk.
  assert (E : preorder [x] = subtree x).
  { unfold preorder, subtree. simpl. now rewrite app_nil_r. }
  rewrite <- E. apply (children_in_preorder x); [|exact Hk].
  rewrite E. unfold subtree. apply elem_of_cons. now left.
Qed.

Lemma subtree_self (x : node) : x ∈ subtree x.
Proof. unfold subtree. apply elem_of_cons. now left. Qed.

Section Steps.
Variables (inputs : list nat) (i : nat).

(** *** A change of the classes of a control *)

Lemma sound_update doc fr g :
  (forall e, name (g e) = name e) ->
  (forall e, bool_decide ("field-error" ∈ classList (g e)) =
             bool_decide ("field-error" ∈ classList e)) ->
  sound inputs doc fr ->
  sound inputs (List.map (update i g) doc) fr.
Proof.
  intros Hname Hcls (Hwf & Hpl & Hg). split; [now apply Annotation.wf_update|].
  split.
  - intros j Hj. destruct (Hpl j Hj) as (n & p & Hn & Hp).
    exists (update i g n), (update i g p).
    now rewrite lookup_update, parent_update, Hn, Hp.
  - intros d' x' Hd' He' Hx'.
    rewrite preorder_update in Hd'.
    apply elem_of_map_inv in Hd' as (d & <- & Hd).
    rewrite Annotation.is_err_update in He' by exact Hcls.
    assert (Hx : exists x, x ∈ subtree d /\ x' = update i g x).
    { unfold subtree in Hx'. apply elem_of_cons in Hx' as [->|Hx'].
      - exists d. split; [apply subtree_self|reflexivity].
      - rewrite descendants_update in Hx'.
        apply elem_of_map_inv in Hx' as (x & <- & Hx).
        exists x. split; [|reflexivity]. unfold subtree.
        apply elem_of_cons. now right. }
    destruct Hx as (x & Hx & ->).
    destruct (Hg d x Hd He' Hx) as [H1 H2].
    rewrite update_handle. split; [exact H1|].
    unfold has_name in *. rewrite Edits.update_elem.
    destruct (Nat.eqb (handle x) i); [now rewrite Hname|exact H2].
Qed.

Lemma carries_update doc g :
  (forall e, name (g e) = name e) ->
  (forall e, value (g e) = value e) ->
  carries inputs doc (List.map (update i g) doc) i g.
Proof.
  intros Hname Hval. split.
  - unfold password1_value, document_querySelector_name.
    rewrite preorder_update, find_map.
    rewrite (find_ext _ (has_name "password1")).
    2:{ intros x _. unfold has_name. rewrite Edits.update_elem.
        destruct (Nat.eqb (handle x) i); [now rewrite Hname|reflexivity]. }
    destruct (List.find _ _) as [n|]; [|reflexivity]. simpl.
    rewrite Edits.update_elem.
    destruct (Nat.eqb (handle n) i); [now rewrite Hval|reflexivity].
  - intros j _. rewrite lookup_update.
    destruct (lookup j doc) as [n|] eqn:Hn; [|reflexivity]. simpl.
    apply lookup_some in Hn as [_ <-].
    now rewrite Edits.update_elem.
Qed.

(** *** An error node is removed *)

Lemma find_prune_error (Q : node -> bool) doc d :
  NoDup (handles doc) -> d ∈ preorder doc ->
  (forall m, Q (prune (handle d) m) = Q m) ->
  (forall x, x ∈ subtree d -> Q x = false) ->
  List.find Q (preorder (prune_forest (handle d) doc)) =
  option_map (prune (handle d)) (List.find Q (preorder doc)).
Proof.
  intros ND Hd Hinv Hsub. apply find_prune; [exact Hinv|].
  intros m Hm E. now rewrite (handle_inj doc m d ND Hm Hd E).
Qed.

Lemma prune_keeps_outsider doc d j :
  NoDup (handles doc) -> d ∈ preorder doc ->
  (forall x, x ∈ subtree d -> handle x <> j) ->
  lookup j (prune_forest (handle d) doc) =
    option_map (prune (handle d)) (lookup j doc) /\
  parent j (prune_forest (handle d) doc) =
    option_map (prune (handle d)) (parent j doc).
Proof.
  intros ND Hd Hout. split.
  - unfold lookup. apply find_prune_error; auto.
    + intros m. now rewrite prune_handle.
    + intros x Hx. apply Nat.eqb_neq. now apply Hout.
  - unfold parent. apply find_prune_error; auto.
    + intros m. apply Annotation.has_child_prune.
      intros E. apply (Hout d (subtree_self d)). congruence.
    + intros x Hx.
      destruct (existsb _ (children x)) eqn:Ex; [|reflexivity].
      apply existsb_exists in Ex as (k & Hk & Ek).
      apply Nat.eqb_eq in Ek. exfalso. apply (Hout k); [|exact Ek].
      apply (subtree_in_subtree d x); [exact Hx|].
      apply child_in_subtree. now apply list_elem_of_In.
Qed.

Lemma subtree_prune_origin h m x' :
  x' ∈ subtree (prune h m) ->
  exists x, x ∈ subtree m /\ x' = prune h x.
Proof.
  intros Hx'. unfold subtree in Hx'. apply elem_of_cons in Hx' as [->|Hx'].
  - exists m. split; [apply subtree_self|reflexivity].
  - rewrite descendants_prune in Hx'.
    apply prune_origin in Hx' as (x & Hx & _ & ->).
    exists x. split; [|reflexivity]. unfold subtree.
    apply elem_of_cons. right. now rewrite descendants_preorder.
Qed.

Lemma sound_prune doc fr d :
  d ∈ preorder doc -> is_err d = true ->
  sound inputs doc fr ->
  sound inputs (prune_forest (handle d) doc) fr.
Proof.
  intros Hd He (Hwf & Hpl & Hg). split; [now apply Annotation.wf_prune|].
  split.
  - intros j Hj. destruct (Hpl j Hj) as (n & p & Hn & Hp).
    destruct (prune_keeps_outsider doc d j (proj1 Hwf) Hd) as [H1 H2].
    { intros x Hx E. apply (proj1 (Hg d x Hd He Hx)). now rewrite E. }
    exists (prune (handle d) n), (prune (handle d) p).
    now rewrite H1, H2, Hn, Hp.
  - intros d' x' Hd' He' Hx'.
    apply prune_origin in Hd' as (d0 & Hd0 & _ & ->).
    rewrite Annotation.is_err_prune in He'.
    apply subtree_prune_origin in Hx' as (x & Hx & ->).
    destruct (Hg d0 x Hd0 He' Hx) as [H1 H2].
    rewrite prune_handle. split; [exact H1|].
    unfold has_name in *. now rewrite prune_elem.
Qed.

Lemma carries_prune doc fr d :
  d ∈ preorder doc -> is_err d = true ->
  sound inputs doc fr ->
  carries inputs doc (prune_forest (handle d) doc) i (fun e => e).
Proof.
  intros Hd He (Hwf & Hpl & Hg). split.
  - unfold password1_value, document_querySelector_name.
    rewrite (find_prune_error _ doc d (proj1 Hwf) Hd).
    + destruct (List.find _ _) as [n|]; [|reflexivity]. simpl.
      now rewrite prune_elem.
    + intros m. unfold has_name. now rewrite prune_elem.
    + intros x Hx. apply (Hg d x Hd He Hx).
  - intros j Hj.
    destruct (prune_keeps_outsider doc d j (proj1 Hwf) Hd) as [H1 _].
    { intros x Hx E. apply (proj1 (Hg d x Hd He Hx)). now rewrite E. }
    rewrite H1. destruct (lookup j doc) as [n|]; [|reflexivity]. simpl.
    rewrite prune_elem. now destruct (Nat.eqb j i).
Qed.

(** *** An error node is appended *)

Lemma append_origin h c f m :
  m ∈ preorder (List.map (append h c) f) ->
  (exists m0, m0 ∈ preorder f /\ m = append h c m0) \/ m ∈ subtree c.
Proof.
  revert m. induction f as [|g e ks f IHks IHf] using forest_ind; intros m Hm.
  - inversion Hm.
  - rewrite append_forest_cons, preorder_cons, preorder_app in Hm.
    apply elem_of_cons in Hm as [->|Hm].
    { left. exists (Node g e ks). split; [|reflexivity].
      rewrite preorder_cons. apply elem_of_cons. now left. }
    apply elem_of_app in Hm as [Hm|Hm].
    + apply elem_of_app in Hm as [Hm|Hm].
      * destruct (IHks m Hm) as [(m0 & H0 & ->)|H]; [left|now right].
        exists m0. split; [|reflexivity]. rewrite preorder_cons.
        apply elem_of_cons. right. apply elem_of_app. now left.
      * right. destruct (Nat.eqb g h); [|inversion Hm].
        unfold preorder in Hm. simpl in Hm. now rewrite app_nil_r in Hm.
    + destruct (IHf m Hm) as [(m0 & H0 & ->)|H]; [left|now right].
      exists m0. split; [|reflexivity]. rewrite preorder_cons.
      apply elem_of_cons. right. apply elem_of_app. now right.
Qed.

Lemma subtree_append_origin h c m x' :
  x' ∈ subtree (append h c m) ->
  (exists x, x ∈ subtree m /\ x' = append h c x) \/ x' ∈ subtree c.
Proof.
  intros Hx'. unfold subtree in Hx'. apply elem_of_cons in Hx' as [->|Hx'].
  - left. exists m. split; [apply subtree_self|reflexivity].
  - rewrite descendants_preorder, append_children, preorder_app in Hx'.
    apply elem_of_app in Hx' as [Hx'|Hx'].
    + apply append_origin in Hx' as [(x & Hx & ->)|H]; [left|now right].
      exists x. split; [|reflexivity]. unfold subtree.
      apply elem_of_cons. right. now rewrite descendants_preorder.
    + right. destruct (Nat.eqb (handle m) h); [|inversion Hx'].
      unfold preorder in Hx'. simpl in Hx'. now rewrite app_nil_r in Hx'.
Qed.

Lemma sound_append doc fr h c :
  List.map handle (subtree c) = [fr; S fr] ->
  (forall x, x ∈ subtree c -> has_name "password1" x = false) ->
  sound inputs doc fr ->
  sound inputs (List.map (append h c) doc) (S (S fr)).
Proof.
  intros Hc Hplain (Hwf & Hpl & Hg).
  assert (Hnew : forall x, x ∈ subtree c -> handle x ∉ inputs).
  { intros x Hx Hin. destruct (Hpl _ Hin) as (n & _ & Hn & _).
    pose proof (Annotation.handle_below _ _ _ _ Hwf Hn) as Hlt.
    apply (elem_of_map handle) in Hx. rewrite Hc in Hx.
    apply elem_of_cons in Hx as [E|Hx]; [lia|].
    apply list_elem_of_singleton in Hx. lia. }
  split; [now apply Annotation.wf_append|]. split.
  - intros j Hj. destruct (Hpl j Hj) as (n & p & Hn & Hp).
    destruct (Annotation.append_keeps_field doc j h c) as [H1 H2].
    { intros x Hx E. apply (Hnew x Hx). now rewrite E. }
    exists (append h c n), (append h c p).
    now rewrite H1, H2, Hn, Hp.
  - intros d' x' Hd' He' Hx'.
    apply append_origin in Hd' as [(d0 & Hd0 & ->)|Hd'].
    + unfold is_err, has_class in He'. rewrite append_elem in He'.
      apply subtree_append_origin in Hx' as [(x & Hx & ->)|Hx'].
      * destruct (Hg d0 x Hd0 He' Hx) as [H1 H2].
        rewrite append_handle. split; [exact H1|].
        unfold has_name in *. now rewrite append_elem.
      * split; [now apply Hnew|now apply Hplain].
    + pose proof (subtree_in_subtree c d' x' Hd' Hx') as Hx.
      split; [now apply Hnew|now apply Hplain].
Qed.

Lemma carries_append doc fr h c :
  List.map handle (subtree c) = [fr; S fr] ->
  (forall x, x ∈ subtree c -> has_name "password1" x = false) ->
  sound inputs doc fr ->
  carries inputs doc (List.map (append h c) doc) i (fun e => e).
Proof.
  intros Hc Hplain (Hwf & Hpl & Hg). split.
  - unfold password1_value, document_querySelector_name.
    rewrite find_append.
    + destruct (List.find _ _) as [n|]; [|reflexivity]. simpl.
      now rewrite append_elem.
    + intros m. unfold has_name. now rewrite append_elem.
    + exact Hplain.
  - intros j Hj. destruct (Hpl j Hj) as (n & _ & Hn & _).
    pose proof (Annotation.handle_below _ _ _ _ Hwf Hn) as Hlt.
    destruct (Annotation.append_keeps_field doc j h c) as [H1 _].
    { intros x Hx E. apply (elem_of_map handle) in Hx. rewrite Hc in Hx.
      apply elem_of_cons in Hx as [E'|Hx]; [lia|].
      apply list_elem_of_singleton in Hx. lia. }
    rewrite H1, Hn. simpl. rewrite append_elem. now destruct (Nat.eqb j i).
Qed.

Lemma carries_trans doc1 doc2 doc3 g1 g2 :
  carries inputs doc1 doc2 i g1 -> carries inputs doc2 doc3 i g2 ->
  carries inputs doc1 doc3 i (fun e => g2 (g1 e)).
Proof.
  intros [P1 E1] [P2 E2]. split; [congruence|].
  intros j Hj. specialize (E1 j Hj). specialize (E2 j Hj).
  destruct (lookup j doc1) as [n1|], (lookup j doc2) as [n2|],
    (lookup j doc3) as [n3|]; simpl in *; try discriminate; try reflexivity.
  injection E1 as E1. injection E2 as E2. rewrite E2, E1.
  now destruct (Nat.eqb j i).
Qed.

(** *** The two annotation calls and the validator *)

Lemma remove_class_off e :
  bool_decide ("error" ∈ classList (remove_class "error" e)) = false.
Proof.
  apply bool_decide_eq_false. unfold remove_class. simpl.
  rewrite list_elem_of_In, filter_In, negb_true_iff, bool_decide_eq_false.
  intuition congruence.
Qed.

Lemma clearFieldError_step st :
  i ∈ inputs -> sound inputs (document st) (fresh st) ->
  exists doc',
    clearFieldError i st = (set_document doc' st, Ok tt) /\
    sound inputs doc' (fresh st) /\
    carries inputs (document st) doc' i (remove_class "error").
Proof.
  intros Hi Hs.
  destruct (proj1 (proj2 Hs) i Hi) as (n & p & Hn & Hp).
  rewrite (Annotation.clearFieldError_run i st p Hp).
  set (u := update i (remove_class "error")).
  assert (Hs1 : sound inputs (List.map u (document st)) (fresh st)).
  { apply sound_update; auto. apply Annotation.remove_class_keeps. }
  assert (Hc1 : carries inputs (document st) (List.map u (document st)) i
                  (remove_class "error")) by now apply carries_update.
  destruct (List.find is_err (descendants p)) as [d|] eqn:Ef.
  - apply find_some in Ef as [Hd Ed].
    assert (Hdu : u d ∈ preorder (List.map u (document st))).
    { unfold u. rewrite preorder_update. apply elem_of_map.
      apply parent_some in Hp as [Hp _]. eapply subtree_incl; eauto.
      unfold subtree. apply elem_of_cons. now right. }
    assert (Edu : is_err (u d) = true).
    { unfold u. rewrite Annotation.is_err_update; [exact Ed|].
      apply Annotation.remove_class_keeps. }
    assert (Eh : handle (u d) = handle d) by apply update_handle.
    eexists. split; [reflexivity|]. rewrite <- Eh. split.
    + now apply sound_prune.
    + exact (carries_trans _ _ _ _ _ Hc1
               (carries_prune _ (fresh st) (u d) Hdu Edu Hs1)).
  - eexists. split; [reflexivity|]. split; assumption.
Qed.

Lemma error_node_plain a b message x :
  x ∈ subtree (error_node a b message) -> has_name "password1" x = false.
Proof.
  intros Hx. unfold subtree, error_node in Hx. simpl in Hx.
  apply elem_of_cons in Hx as [->|Hx]; [reflexivity|].
  apply list_elem_of_singleton in Hx. now subst x.
Qed.

Lemma showFieldError_step message st :
  i ∈ inputs -> sound inputs (document st) (fresh st) ->
  exists doc',
    showFieldError i message st =
      (set_document doc' (set_fresh (S (S (fresh st))) st), Ok tt) /\
    sound inputs doc' (S (S (fresh st))) /\
    carries inputs (document st) doc' i
      (fun e => add_class "error" (remove_class "error" e)).
Proof.
  intros Hi Hs.
  destruct (clearFieldError_step st Hi Hs) as (doc1 & Hrun & Hs1 & Hc1).
  set (m := update i (add_class "error")).
  set (c := error_node (fresh st) (S (fresh st)) message).
  assert (Hs2 : sound inputs (List.map m doc1) (fresh st)).
  { apply sound_update; auto. apply Annotation.add_class_keeps. }
  assert (Hc2 : carries inputs doc1 (List.map m doc1) i (add_class "error"))
    by now apply carries_update.
  destruct (proj1 (proj2 Hs2) i Hi) as (n2 & p2 & Hn2 & Hp2).
  exists (List.map (append (handle p2) c) (List.map m doc1)).
  split.
  { unfold showFieldError, bind. rewrite Hrun.
    unfold createElement, modify_document, modify, parentElement. simpl.
    fold m. rewrite Hp2. reflexivity. }
  split.
  - apply sound_append; [reflexivity|apply error_node_plain|exact Hs2].
  - exact (carries_trans _ _ _ _ _ Hc1
             (carries_trans _ _ _ _ _ Hc2
                (carries_append _ (fresh st) (handle p2) c eq_refl
                   (error_node_plain _ _ _) Hs2))).
Qed.

Lemma validateField_step st :
  i ∈ inputs -> sound inputs (document st) (fresh st) ->
  exists st' G,
    validateField i st = (st', Ok (passes st i)) /\
    sound inputs (document st') (fresh st') /\
    carries inputs (document st) (document st') i G /\
    (forall e, reads (G e) = reads e) /\
    (forall e, bool_decide ("error" ∈ classList (G e)) = negb (passes st i)) /\
    notifications st' = notifications st /\
    localStorage st' = localStorage st /\
    listeners st' = listeners st.
Proof.
  intros Hi Hs.
  destruct (proj1 (proj2 Hs) i Hi) as (n & p & Hn & Hp).
  unfold validateField, bind, element_of, get, passes. rewrite Hn.
  destruct (checkField (document st) (elem n)) as [isValid msg]. simpl.
  destruct isValid; simpl.
  - destruct (clearFieldError_step st Hi Hs) as (doc' & -> & Hs' & Hc').
    eexists _, _. split; [reflexivity|]. split; [exact Hs'|].
    split; [exact Hc'|]. split; [reflexivity|].
    split; [apply remove_class_off|]. simpl. auto.
  - destruct (showFieldError_step msg st Hi Hs) as (doc' & -> & Hs' & Hc').
    eexists _, _. split; [reflexivity|]. split; [exact Hs'|].
    split; [exact Hc'|]. split; [reflexivity|].
    split; [|simpl; auto].
    intros e. apply bool_decide_eq_true, Rules.add_class_has.
Qed.

End Steps.

(** *** The loop over the controls *)

Section Loop.
Variables (inputs : list nat) (st0 : page).

Let seen (st : page) : Prop :=
  sound inputs (document st) (fresh st) /\
  password1_value (document st) = password1_value (document st0) /\
  forall j, j ∈ inputs ->
    option_map (fun n => reads (elem n)) (lookup j (document st)) =
    option_map (fun n => reads (elem n)) (lookup j (document st0)).

Lemma seen_passes st j : seen st -> j ∈ inputs -> passes st j = passes st0 j.
Proof.
  intros (Hs & Hp & Hr) Hj. specialize (Hr j Hj). unfold passes.
  destruct (lookup j (document st)) as [n|],
           (lookup j (document st0)) as [n0|];
    simpl in Hr; try discriminate; [|reflexivity].
  apply (inj Some) in Hr. now rewrite (checkField_reads _ _ _ _ Hr Hp).
Qed.

Lemma validate_inputs_run l : forall b st,
  (forall j, j ∈ l -> j ∈ inputs) -> seen st ->
  exists st',
    validate_inputs l b st = (st', Ok (b && forallb (passes st0) l)) /\
    seen st' /\
    (forall j, j ∈ inputs ->
       option_map (has_class "error") (lookup j (document st')) =
       if bool_decide (j ∈ l) then Some (negb (passes st0 j))
       else option_map (has_class "error") (lookup j (document st))) /\
    (forall j, j ∈ inputs ->
       option_map (fun n => value (elem n)) (lookup j (document st')) =
       option_map (fun n => value (elem n)) (lookup j (document st))) /\
    notifications st' = notifications st /\
    localStorage st' = localStorage st /\
    listeners st' = listeners st.
Proof.
  induction l as [|i r IH]; intros b st Hl Hseen.
  - exists st. simpl. rewrite andb_true_r. split; [reflexivity|].
    split; [exact Hseen|]. split; [|auto]. intros j Hj. reflexivity.
  - assert (Hi : i ∈ inputs) by (apply Hl; apply elem_of_cons; now left).
    assert (Hr : forall j, j ∈ r -> j ∈ inputs)
      by (intros j Hj; apply Hl; apply elem_of_cons; now right).
    pose proof (seen_passes st i Hseen Hi) as Epass.
    destruct Hseen as (Hs & Hp & Hreads).
    destruct (validateField_step inputs i st Hi Hs)
      as (st1 & G & Hrun & Hs1 & [Hp1 He1] & HG & Hcls & Hno & Hlo & Hli).
    assert (Hel : forall j, j ∈ inputs ->
              exists n n1, lookup j (document st) = Some n /\
                lookup j (document st1) = Some n1 /\
                elem n1 = if Nat.eqb j i then G (elem n) else elem n).
    { intros j Hj. specialize (He1 j Hj).
      destruct (proj1 (proj2 Hs) j Hj) as (n & _ & Hn & _).
      destruct (proj1 (proj2 Hs1) j Hj) as (n1 & _ & Hn1 & _).
      rewrite Hn, Hn1 in He1. simpl in He1. injection He1 as He1.
      now exists n, n1. }
    assert (Hseen1 : seen st1).
    { split; [exact Hs1|]. split; [congruence|].
      intros j Hj. rewrite <- (Hreads j Hj).
      destruct (Hel j Hj) as (n & n1 & -> & -> & E). simpl. rewrite E.
      destruct (Nat.eqb j i); [now rewrite HG|reflexivity]. }
    destruct (IH (if negb (passes st i) then false else b) st1 Hr Hseen1)
      as (st2 & Hrun2 & Hseen2 & Hmark & Hval & Hno2 & Hlo2 & Hli2).
    exists st2. split.
    { simpl. unfold bind. rewrite Hrun, Hrun2. rewrite Epass.
      f_equal. f_equal.
      destruct (passes st0 i), b; reflexivity. }
    split; [exact Hseen2|]. split; [|split; [|repeat split; congruence]].
    + intros j Hj. rewrite (Hmark j Hj).
      destruct (Hel j Hj) as (n & n1 & Hn & Hn1 & E).
      destruct (decide (j = i)) as [->|Hne].
      * rewrite (bool_decide_eq_true_2 (i ∈ i :: r))
          by (apply elem_of_cons; now left).
        destruct (bool_decide (i ∈ r)); [reflexivity|].
        rewrite Hn1. simpl. unfold has_class. rewrite E, Nat.eqb_refl.
        now rewrite Hcls, Epass.
      * assert (Eb : bool_decide (j ∈ i :: r) = bool_decide (j ∈ r)).
        { apply bool_decide_ext. rewrite elem_of_cons. intuition. }
        rewrite Eb. destruct (bool_decide (j ∈ r)); [reflexivity|].
        rewrite Hn, Hn1. simpl. unfold has_class. rewrite E.
        now rewrite (proj2 (Nat.eqb_neq j i) Hne).
    + intros j Hj. rewrite (Hval j Hj).
      destruct (Hel j Hj) as (n & n1 & -> & -> & E). simpl. rewrite E.
      destruct (Nat.eqb j i); [|reflexivity].
      specialize (HG (elem n)). unfold reads in HG.
      injection HG as _ _ _ Hv _. now rewrite Hv.
Qed.

End Loop.

(** *** The messages are text *)

Lemma is_text_cons c s :
  Str.is_text (String c s) =
  negb (bool_decide (c = "<"%char)) && Str.is_text s.
Proof. reflexivity. Qed.

Lemma is_text_app s t :
  Str.is_text s = true -> Str.is_text t = true ->
  Str.is_text (s ++ t) = true.
Proof.
  intros Hs Ht. induction s as [|c s IH]; [exact Ht|].
  change (String c s ++ t)%string with (String c (s ++ t)%string).
  rewrite is_text_cons in *. apply andb_true_iff in Hs as [Hc Hs].
  rewrite Hc. now apply IH.
Qed.

Lemma is_text_replace_first s :
  Str.is_text s = true ->
  Str.is_text (Str.replace_first "_" " " s) = true.
Proof.
  induction s as [|c s IH]; [reflexivity|]. intros Hs.
  rewrite is_text_cons in Hs. apply andb_true_iff in Hs as [Hc Hs].
  simpl. destruct (bool_decide (c = "_"%char)).
  - rewrite is_text_cons. now rewrite Hs.
  - rewrite is_text_cons, Hc. now apply IH.
Qed.

(** A message of the validator makes no element when the name of the
    field makes none. *)
Lemma checkField_text doc e :
  Str.is_text (field_name e) = true ->
  Str.is_text (snd (checkField doc e)) = true.
Proof.
  intros Ht.
  assert (Hr : Str.is_text
                 (Str.replace_first "_" " " (field_name e) ++ " is required")
               = true).
  { apply is_text_app; [now apply is_text_replace_first|reflexivity]. }
  unfold field_name in Hr. unfold checkField.
  repeat match goal with
         | |- context [if ?b then _ else _] => destruct b
         | |- context [match ?o with Some _ => _ | None => _ end] =>
             destruct o
         end; simpl; first [exact Hr|reflexivity].
Qed.

(** X19: when a form whose controls have names that are text is
    submitted, every control of its list is checked, each against the
    page as it was when the submission started: the annotations made for
    the controls before it change no verdict.  The submission is
    cancelled, with one notification, exactly when some control fails;
    in the end the failing controls carry the class [error] and the
    others do not, every control has kept its value, and every message
    that was shown is text. *)
Theorem whole_form_validation inputs st :
  wf (document st) (fresh st) ->
  placed inputs (document st) ->
  guarded inputs (document st) ->
  textual inputs (document st) ->
  exists st',
    submit_validation inputs st =
      (st', Ok (negb (forallb (passes st) inputs))) /\
    notifications st' =
      notifications st ++
      (if forallb (passes st) inputs then []
       else [("Please fix the errors in the form", "error")]) /\
    (forall j, j ∈ inputs ->
       if passes st j then unmarked j st' else marked j st') /\
    (forall j n, j ∈ inputs -> lookup j (document st) = Some n ->
       exists n', lookup j (document st') = Some n' /\
                  value (elem n') = value (elem n)) /\
    localStorage st' = localStorage st /\
    listeners st' = listeners st /\
    (forall j n, j ∈ inputs -> lookup j (document st) = Some n ->
       Str.is_text (snd (checkField (document st) (elem n))) = true).
Proof.
  intros Hwf Hpl Hg Htx.
  assert (Hmsg : forall j n, j ∈ inputs -> lookup j (document st) = Some n ->
            Str.is_text (snd (checkField (document st) (elem n))) = true).
  { intros j n Hj Hn. apply checkField_text. now apply (Htx j). }
  destruct (validate_inputs_run inputs st inputs true st)
    as (st1 & Hrun & (Hs1 & _) & Hmark & Hval & Hno & Hlo & Hli).
  { auto. }
  { split; [split; [exact Hwf|split; assumption]|]. split; reflexivity. }
  simpl in Hrun.
  assert (Hm : forall j, j ∈ inputs ->
            forall st2, document st2 = document st1 ->
            if passes st j then unmarked j st2 else marked j st2).
  { intros j Hj st2 Hd. specialize (Hmark j Hj).
    rewrite bool_decide_eq_true_2 in Hmark by exact Hj.
    destruct (proj1 (proj2 Hs1) j Hj) as (n1 & _ & Hn1 & _).
    rewrite Hn1 in Hmark. simpl in Hmark. injection Hmark as Hmark.
    unfold unmarked, marked. rewrite Hd.
    destruct (passes st j); exists n1; split; auto. }
  assert (Hv : forall j n, j ∈ inputs -> lookup j (document st) = Some n ->
            exists n', lookup j (document st1) = Some n' /\
                       value (elem n') = value (elem n)).
  { intros j n Hj Hn. specialize (Hval j Hj). rewrite Hn in Hval.
    destruct (lookup j (document st1)) as [n'|]; [|discriminate].
    simpl in Hval. injection Hval as Hval. now exists n'. }
  unfold submit_validation, bind. rewrite Hrun.
  destruct (forallb (passes st) inputs); simpl.
  - exists st1. split; [reflexivity|]. rewrite app_nil_r.
    split; [exact Hno|]. split; [intros j Hj; now apply Hm|].
    split; [exact Hv|]. repeat split; assumption.
  - eexists. split; [reflexivity|]. simpl. rewrite Hno.
    split; [reflexivity|]. split; [intros j Hj; now apply Hm|].
    split; [exact Hv|]. repeat split; assumption.
Qed.

Lemma whole_form_validation_witness :
  exists st',
    submit_validation [1; 2] booking = (st', Ok true) /\
    notifications st' = [("Please fix the errors in the form", "error")] /\
    marked 1 st' /\ unmarked 2 st'.
Proof.
  destruct (whole_form_validation [1; 2] booking)
    as (st' & Hrun & Hno & Hm & _).
  - split; apply (bool_decide_unpack _); vm_compute; exact I.
  - intros j Hj.
    repeat (apply elem_of_cons in Hj as [->|Hj]);
      [eexists _, _; split; reflexivity..|inversion Hj].
  - intros d x Hd He. apply list_elem_of_In in Hd. vm_compute in Hd.
    repeat (destruct Hd as [<-|Hd]; [discriminate He|]). destruct Hd.
  - intros j n Hj Hn.
    repeat (apply elem_of_cons in Hj as [->|Hj]);
      [vm_compute in Hn; injection Hn as <-; reflexivity..|inversion Hj].
  - exists st'. split; [exact Hrun|]. split; [exact Hno|]. split.
    + apply (Hm 1). apply elem_of_cons. now left.
    + apply (Hm 2). apply elem_of_cons. right. apply elem_of_cons. now left.
Defined.

End Submission.

(* ===================================================================== *)
(** ** The navigation menu *)
(* ===================================================================== *)

Module Navigation.
Import Dom DomFacts.
Local Open Scope list_scope.

(** *** Classes *)

Lemma has_remove_same c e :
  bool_decide (c ∈ classList (remove_class c e)) = false.
Proof.
  apply bool_decide_eq_false. unfold remove_class. simpl.
  rewrite list_elem_of_In, filter_In, negb_true_iff, bool_decide_eq_false.
  intuition congruence.
Qed.

Lemma has_remove_other c c' e :
  c <> c' ->
  bool_decide (c ∈ classList (remove_class c' e)) =
  bool_decide (c ∈ classList e).
Proof.
  intros Hne. apply bool_decide_ext. unfold remove_class. simpl.
  rewrite !list_elem_of_In, filter_In, negb_true_iff, bool_decide_eq_false.
  intuition congruence.
Qed.

Lemma has_add_same c e : bool_decide (c ∈ classList (add_class c e)) = true.
Proof.
  apply bool_decide_eq_true. unfold add_class. simpl.
  destruct (bool_decide (c ∈ classList e)) eqn:E.
  - now apply bool_decide_eq_true in E.
  - apply elem_of_app. right. now apply list_elem_of_singleton.
Qed.

Lemma has_add_other c c' e :
  c <> c' ->
  bool_decide (c ∈ classList (add_class c' e)) =
  bool_decide (c ∈ classList e).
Proof.
  intros Hne. apply bool_decide_ext. unfold add_class. simpl.
  destruct (bool_decide (c' ∈ classList e)); [reflexivity|].
  rewrite elem_of_app, list_elem_of_singleton. intuition congruence.
Qed.

Lemma has_toggle c e :
  bool_decide (c ∈ classList (toggle_class c e)) =
  negb (bool_decide (c ∈ classList e)).
Proof.
  unfold toggle_class. destruct (bool_decide (c ∈ classList e)) eqn:E.
  - apply has_remove_same.
  - apply has_add_same.
Qed.

(** *** The places of the elements do not depend on their classes *)

Section Restyle.
Variables (x : nat) (g : element -> element).
Hypothesis g_localName : forall e, localName (g e) = localName e.

Lemma path_in_update h f :
  path_in h (List.map (update x g) f) = path_in h f.
Proof.
  induction f as [|k e ks f IHks IHf] using forest_ind; [reflexivity|].
  simpl List.map. rewrite !Bubbling.path_in_cons.
  simpl update. rewrite !Bubbling.path_to_node, IHks, IHf. reflexivity.
Qed.

Lemma contains_update a target doc :
  contains a target (List.map (update x g) doc) = contains a target doc.
Proof.
  unfold contains. now rewrite !Bubbling.ancestors_path, path_in_update.
Qed.

Lemma first_icon_update h doc :
  first_icon h (List.map (update x g) doc) =
  option_map (update x g) (first_icon h doc).
Proof.
  unfold first_icon. rewrite lookup_update.
  destruct (lookup h doc) as [n|]; [|reflexivity]. simpl.
  rewrite descendants_update, find_map. f_equal.
  apply find_ext. intros y _. rewrite Edits.update_elem.
  destruct (Nat.eqb (handle y) x); [now rewrite g_localName|reflexivity].
Qed.

End Restyle.

(** The page after the classes of the menu and of the icon have been
    rewritten. *)
Lemma restyled navToggle navMenu st m i gM g1 g2 :
  (forall e, localName (gM e) = localName e) ->
  (forall e, localName (g1 e) = localName e) ->
  (forall e, localName (g2 e) = localName e) ->
  lookup navMenu (document st) = Some m ->
  first_icon navToggle (document st) = Some i ->
  handle i <> navMenu ->
  let doc' :=
    List.map (update (handle i) g2)
      (List.map (update (handle i) g1)
         (List.map (update navMenu gM) (document st))) in
  exists m' i',
    lookup navMenu doc' = Some m' /\
    elem m' = gM (elem m) /\
    first_icon navToggle doc' = Some i' /\
    handle i' = handle i /\
    elem i' = g2 (g1 (elem i)).
Proof.
  intros HM H1 H2 Hm Hi Hne doc'. unfold doc'.
  rewrite !lookup_update, Hm.
  rewrite !first_icon_update, Hi by assumption. simpl.
  eexists _, _. split; [reflexivity|]. split; [|split; [reflexivity|split]].
  - apply lookup_some in Hm as [_ Eh].
    rewrite !Edits.update_elem, !update_handle, Eh, Nat.eqb_refl.
    now rewrite (proj2 (Nat.eqb_neq navMenu (handle i))) by congruence.
  - now rewrite !update_handle.
  - rewrite !Edits.update_elem, !update_handle, Nat.eqb_refl.
    now rewrite (proj2 (Nat.eqb_neq (handle i) navMenu)) by exact Hne.
Qed.

(** *** The two listeners *)

Lemma toggle_click_run navToggle navMenu st m i :
  lookup navMenu (document st) = Some m ->
  first_icon navToggle (document st) = Some i ->
  toggle_click navToggle navMenu st =
  (set_document
     (List.map
        (update (handle i)
           (add_class (if has_class "active" m then "fa-bars"
                       else "fa-times")))
        (List.map
           (update (handle i)
              (remove_class (if has_class "active" m then "fa-times"
                             else "fa-bars")))
           (List.map (update navMenu (toggle_class "active"))
              (document st)))) st, Ok tt).
Proof.
  intros Hm Hi.
  unfold toggle_click, bind, modify_document, modify, get, element_of.
  simpl. rewrite lookup_update, Hm.
  rewrite first_icon_update, Hi.
  2:{ intros e. unfold toggle_class. now destruct (bool_decide _). }
  simpl. rewrite update_handle, Edits.update_elem.
  pose proof Hm as Hm'. apply lookup_some in Hm' as [_ ->].
  rewrite Nat.eqb_refl, has_toggle. unfold has_class.
  destruct (bool_decide ("active" ∈ classList (elem m))); reflexivity.
Qed.

Lemma document_click_inside navToggle navMenu target st :
  contains navToggle target (document st) ||
  contains navMenu target (document st) = true ->
  document_click (Some navToggle) (Some navMenu) target st = (st, Ok tt).
Proof.
  intros H. unfold document_click, bind, get.
  destruct (contains navToggle target (document st)); [reflexivity|].
  simpl in H. now rewrite H.
Qed.

Lemma document_click_outside navToggle navMenu target st i :
  contains navToggle target (document st) = false ->
  contains navMenu target (document st) = false ->
  first_icon navToggle (document st) = Some i ->
  document_click (Some navToggle) (Some navMenu) target st =
  (set_document
     (List.map (update (handle i) (add_class "fa-bars"))
        (List.map (update (handle i) (remove_class "fa-times"))
           (List.map (update navMenu (remove_class "active"))
              (document st)))) st, Ok tt).
Proof.
  intros HT HM Hi.
  unfold document_click, bind, modify_document, modify, get.
  rewrite HT, HM. simpl.
  rewrite first_icon_update, Hi by reflexivity.
  simpl. now rewrite update_handle.
Qed.

(** What one click does to the menu and to the icon. *)
Lemma click_effect navToggle navMenu target st :
  nav_ready navToggle navMenu st ->
  let st' := click (Some navToggle) (Some navMenu) target st in
  nav_ready navToggle navMenu st' /\
  if contains navToggle target (document st) then
    is_open navMenu st' = negb (is_open navMenu st) /\
    in_sync navToggle navMenu st'
  else if contains navMenu target (document st) then st' = st
  else is_open navMenu st' = false /\ in_sync navToggle navMenu st'.
Proof.
  intros (m & i & Hm & Hi & Hne) st'. unfold st', click.
  assert (Hready : nav_ready navToggle navMenu st) by (exists m, i; auto).
  destruct (contains navToggle target (document st)) eqn:ET.
  - rewrite (toggle_click_run _ _ _ m i Hm Hi). simpl.
    rewrite document_click_inside.
    2:{ simpl. rewrite !contains_update. now rewrite ET. }
    simpl.
    destruct (restyled navToggle navMenu st m i (toggle_class "active")
                (remove_class (if has_class "active" m then "fa-times"
                               else "fa-bars"))
                (add_class (if has_class "active" m then "fa-bars"
                            else "fa-times")))
      as (m' & i' & Hm' & Em & Hi' & Eh & Ei); auto.
    { intros e. unfold toggle_class. now destruct (bool_decide _). }
    assert (Eo : has_class "active" m' = negb (has_class "active" m)).
    { unfold has_class. rewrite Em. apply has_toggle. }
    split; [exists m', i'; simpl; split; [exact Hm'|split; [exact Hi'|]];
            congruence|].
    unfold in_sync, is_open. simpl. rewrite Hm', Hm, Hi'.
    split; [exact Eo|]. exists i'. split; [reflexivity|].
    rewrite Eo. unfold has_class at 1 3. rewrite Ei.
    destruct (has_class "active" m); cbv iota; simpl negb.
    + rewrite has_add_other, has_remove_same, has_add_same by discriminate.
      split; reflexivity.
    + rewrite has_add_same, has_add_other, has_remove_same by discriminate.
      split; reflexivity.
  - destruct (contains navMenu target (document st)) eqn:EM.
    + rewrite document_click_inside by (now rewrite ET, EM).
      split; [exact Hready|reflexivity].
    + rewrite (document_click_outside _ _ _ _ i ET EM Hi). simpl.
      destruct (restyled navToggle navMenu st m i (remove_class "active")
                  (remove_class "fa-times") (add_class "fa-bars"))
        as (m' & i' & Hm' & Em & Hi' & Eh & Ei); auto.
      assert (Eo : has_class "active" m' = false).
      { unfold has_class. rewrite Em. apply has_remove_same. }
      split; [exists m', i'; simpl; split; [exact Hm'|split; [exact Hi'|]];
              congruence|].
      unfold in_sync, is_open. simpl. rewrite Hm', Hi'.
      split; [exact Eo|]. exists i'. split; [reflexivity|].
      rewrite Eo. unfold has_class. rewrite Ei.
      rewrite has_add_other, has_remove_same, has_add_same by discriminate.
      split; reflexivity.
Qed.

Lemma clicks_in_sync navToggle navMenu targets : forall st,
  nav_ready navToggle navMenu st -> in_sync navToggle navMenu st ->
  nav_ready navToggle navMenu
    (clicks (Some navToggle) (Some navMenu) targets st) /\
  in_sync navToggle navMenu
    (clicks (Some navToggle) (Some navMenu) targets st).
Proof.
  induction targets as [|t r IH]; intros st Hr Hs; [split; assumption|].
  unfold clicks. simpl. apply IH.
  - apply (click_effect navToggle navMenu t st Hr).
  - destruct (click_effect navToggle navMenu t st Hr) as [_ H].
    destruct (contains navToggle t (document st)); [apply H|].
    destruct (contains navMenu t (document st)); [now rewrite H|apply H].
Qed.

(** X20: the icon of the toggle follows the menu.  After any clicks on
    a page where the icon showed the state of the menu, it still does;
    and the next click opens or closes the menu when it is on the
    toggle, changes nothing when it is in the menu, and closes the menu
    when it is elsewhere. *)
Theorem menu_and_icon navToggle navMenu targets st :
  nav_ready navToggle navMenu st ->
  in_sync navToggle navMenu st ->
  let st1 := clicks (Some navToggle) (Some navMenu) targets st in
  in_sync navToggle navMenu st1 /\
  forall target,
    let st2 := click (Some navToggle) (Some navMenu) target st1 in
    if contains navToggle target (document st1) then
      is_open navMenu st2 = negb (is_open navMenu st1)
    else if contains navMenu target (document st1) then st2 = st1
    else is_open navMenu st2 = false.
Proof.
  intros Hr Hs st1.
  destruct (clicks_in_sync navToggle navMenu targets st Hr Hs) as [Hr1 Hs1].
  split; [exact Hs1|]. intros target st2.
  destruct (click_effect navToggle navMenu target st1 Hr1) as [_ H].
  fold st2 in H.
  destruct (contains navToggle target (document st1)); [apply H|].
  destruct (contains navMenu target (document st1)); [exact H|apply H].
Qed.

Lemma menu_and_icon_witness :
  nav_elements (document nav_page) = (Some 2, Some 4) /\
  is_open 4 (clicks (Some 2) (Some 4) [3] nav_page) = true /\
  in_sync 2 4 (clicks (Some 2) (Some 4) [3; 5; 6] nav_page) /\
  is_open 4 (clicks (Some 2) (Some 4) [3; 5; 6] nav_page) = false.
Proof.
  split; [reflexivity|]. split; [reflexivity|].
  destruct (menu_and_icon 2 4 [3; 5; 6] nav_page) as [H _].
  - eexists _, _. split; [reflexivity|]. split; [reflexivity|].
    simpl. discriminate.
  - eexists. split; [reflexivity|]. split; reflexivity.
  - split; [exact H|reflexivity].
Defined.

End Navigation.
